(** * BookVision retrieval engine: chunker, vector store, result cache, ingestion

    A shallow embedding of the Python modules [app/text_utils.py],
    [app/cache.py], [app/embed_store.py] and [app/ingest.py], and the
    properties of the retrieval core established on it.

    Conventions.
    - A Python [str] is a list of Unicode code points ([N]); [len] is the
      number of code points, as in Python.
    - A Python [dict] is an association list in insertion order with unique
      keys (CPython dictionaries iterate in insertion order).
    - A Python [int] is a [Z]; a Python [float] is a binary64 [float].
    - A function that may raise returns an [outcome]; a method that mutates
      its object is a computation in a state-and-exception monad whose state
      survives a raised exception, as Python's does.
    - What the code takes from libraries (textwrap, the sentence encoder,
      numpy, faiss, Redis pattern matching, binary64 arithmetic) is a
      parameter: a class or a section variable.  MD5 and UTF-8 are written
      out, since cache keys are compared character by character; so is
      numpy's float32 arithmetic, over the library's IEEE 754 operations,
      since [_normalize] is a statement about rounding.

    Layout: the models, one module per source file ([TextUtils], [Hashlib],
    [CacheModel], [EmbedStoreModel] with [Numpy] for its float32 rows,
    [IngestModel], and [ImageModel] for the image path of the last two); then
    the facts, in the same order ([TextUtilsFacts] to [IngestFacts], with
    [NormalizeFacts] after the store's); then further properties of the
    chunker and of extraction ([ChunkerProps], [CleanTextProps],
    [ExtractionProps]), of the cache ([CacheCalls]), of the store
    ([StoreCalls]) and of ingestion ([IngestRuns]). *)

From Stdlib Require Import ZArith NArith List Bool Lia String Ascii.
From Stdlib Require Import Sorted.
From Stdlib Require Import Floats.PrimFloat.
From Stdlib Require Floats.SpecFloat Floats.FloatOps.
Import ListNotations.

Set Implicit Arguments.
Local Open Scope Z_scope.

(** ** Python values *)

Module Py.

(** A [str]: a sequence of code points. *)
Definition char := N.
Definition str := list char.

(** A string literal of the source, read as its code points. *)
Definition lit (s : string) : str := map N_of_ascii (list_ascii_of_string s).

Definition len {A} (l : list A) : Z := Z.of_nat (List.length l).

Fixpoint str_eqb (a b : str) : bool :=
  match a, b with
  | [], [] => true
  | x :: a', y :: b' => N.eqb x y && str_eqb a' b'
  | _, _ => false
  end.

(** [str.isspace] on one character: the code points CPython's
    [_PyUnicode_IsWhitespace] accepts.  The regular-expression class [\s]
    of a [str] pattern is the same set. *)
Definition isspace (c : char) : bool :=
  ((9 <=? c) && (c <=? 13) || (28 <=? c) && (c <=? 32) ||
   (c =? 133) || (c =? 160) || (c =? 5760) ||
   (8192 <=? c) && (c <=? 8202) ||
   (c =? 8232) || (c =? 8233) || (c =? 8239) || (c =? 8287) ||
   (c =? 12288))%N.

Fixpoint lstrip (s : str) : str :=
  match s with
  | c :: s' => if isspace c then lstrip s' else s
  | [] => []
  end.

Definition rstrip (s : str) : str := rev (lstrip (rev s)).

(** [s.strip()] *)
Definition strip (s : str) : str := rstrip (lstrip s).

(** Truth value of a [str]: non-empty. *)
Definition truthy (s : str) : bool :=
  match s with [] => false | _ :: _ => true end.

(** [s and s.strip()] as a condition, and its negation
    [not s or not s.strip()]. *)
Definition has_text (s : str) : bool := truthy s && truthy (strip s).
Definition blank (s : str) : bool := negb (has_text s).

(** [s.startswith(p)] *)
Fixpoint startswith (s p : str) {struct p} : bool :=
  match p, s with
  | [], _ => true
  | x :: p', y :: s' => N.eqb x y && startswith s' p'
  | _ :: _, [] => false
  end.

(** Exceptions the modelled code raises or lets through. *)
Inductive exn : Type :=
| ValueError (msg : string)
| AssertionError
| UnicodeEncodeError
| RedisError.

Inductive outcome (A : Type) : Type :=
| Returned (a : A)
| Raised (e : exn).
Arguments Returned {A} a.
Arguments Raised {A} e.

(** *** Methods: state that survives exceptions *)
Definition M (S A : Type) : Type := S -> outcome A * S.

Definition ret {S A} (a : A) : M S A := fun s => (Returned a, s).
Definition raise {S A} (e : exn) : M S A := fun s => (Raised e, s).
Definition bind {S A B} (m : M S A) (f : A -> M S B) : M S B :=
  fun s => match m s with
           | (Returned a, s') => f a s'
           | (Raised e, s') => (Raised e, s')
           end.
Definition get_self {S} : M S S := fun s => (Returned s, s).
Definition put_self {S} (s : S) : M S unit := fun _ => (Returned tt, s).
Definition lift {S A} (o : outcome A) : M S A := fun s => (o, s).

(** [try: m  except Exception: handler] *)
Definition try_except {S A} (m : M S A) (handler : exn -> M S A) : M S A :=
  fun s => match m s with
           | (Returned a, s') => (Returned a, s')
           | (Raised e, s') => handler e s'
           end.

Declare Scope py_scope.
Delimit Scope py_scope with py.
Notation "x <- m ;; k" := (bind m (fun x => k))
  (at level 61, m at next level, right associativity) : py_scope.
Notation "m ;;; k" := (bind m (fun _ => k))
  (at level 61, right associativity) : py_scope.

(** *** Dictionaries (insertion-ordered) *)
Section Dict.
Variable V : Type.
Definition dict := list (str * V).

Fixpoint dict_get (d : dict) (k : str) : option V :=
  match d with
  | [] => None
  | (k', v) :: d' => if str_eqb k' k then Some v else dict_get d' k
  end.

Definition dict_mem (d : dict) (k : str) : bool :=
  match dict_get d k with Some _ => true | None => false end.

(** [d[k] = v]: an existing key keeps its position, a new key goes last. *)
Fixpoint dict_set (d : dict) (k : str) (v : V) : dict :=
  match d with
  | [] => [(k, v)]
  | (k', v') :: d' =>
      if str_eqb k' k then (k', v) :: d' else (k', v') :: dict_set d' k v
  end.

(** [del d[k]] for a key that is present (absent keys leave [d] as is;
    the source only deletes keys it has just listed). *)
Fixpoint dict_del (d : dict) (k : str) : dict :=
  match d with
  | [] => []
  | (k', v') :: d' =>
      if str_eqb k' k then d' else (k', v') :: dict_del d' k
  end.

Definition dict_keys (d : dict) : list str := map fst d.

(** [for k in ks: del d[k]] *)
Definition dict_del_all (d : dict) (ks : list str) : dict :=
  fold_left dict_del ks d.
End Dict.

End Py.

(** ** Progress reporting

    The ingestion functions take an optional [progress_callback(percent,
    message)].  A callback is modelled by what it does to the state that
    receives the reports. *)

Module Progress.
Import Py.
Local Open Scope py_scope.

(** The messages handed to the callback, with the numbers their format
    strings interpolate. *)
Inductive message : Type :=
| ExtractingText
| ExtractingPage (page total : Z)
| RunningOCR (page total : Z)
| ChunkingPages (pages : Z)
| ChunkedPages (done total : Z)
| ProcessingChunks (chunks : Z)
| PreparedChunks (chunks : Z)
| GeneratingEmbeddings (chunks : Z)
| EmbeddingBatch (number : Z)
| NormalizingEmbeddings
| AddingToIndex
| SavingIndex
| EmbeddingsGenerated
| SavingPageImages
| Finalizing.

Class Reporter (S : Type) : Type := {
  deliver : Z -> message -> S -> S
}.

(** [if progress_callback: progress_callback(percent, message)] *)
Definition report {S} `{Reporter S} (progress_callback : bool)
    (percent : Z) (msg : message) : M S unit :=
  fun s => (Returned tt, if progress_callback then deliver percent msg s else s).

(** [int((a / b) * c)]: a true division and a product in binary64, then
    truncation. *)
Class FloatArith : Type := {
  int_scaled : Z -> Z -> Z -> Z
}.

End Progress.

(** ** [app/text_utils.py] *)

Module TextUtils.
Import Py.

Definition NL : char := 10%N.
Definition CR : char := 13%N.
Definition SP : char := 32%N.
Definition HYPHEN : char := 45%N.

(** [text.split("\n\n")]: cut at each blank-line separator, scanning left to
    right; [cur] is the piece being read, reversed. *)
Fixpoint split_paragraphs_from (cur : str) (s : str) : list str :=
  match s with
  | [] => [rev cur]
  | c :: s' =>
      match s' with
      | c' :: s'' =>
          if (N.eqb c NL && N.eqb c' NL)%bool
          then rev cur :: split_paragraphs_from [] s''
          else split_paragraphs_from (c :: cur) s'
      | [] => [rev (c :: cur)]
      end
  end.

Definition split_paragraphs (text : str) : list str :=
  split_paragraphs_from [] text.

(** The class [[.!?]] of the sentence pattern. *)
Definition is_terminal (c : char) : bool :=
  (N.eqb c 46 || N.eqb c 33 || N.eqb c 63)%bool.

(** [re.split(r'([.!?]+\s+)', para)].  A match is a maximal run of sentence
    terminals followed by a maximal run of whitespace; the result alternates
    text, separator, text, ..., text.  The scanner is in one of three modes:
    reading text, reading a run of terminals, reading the whitespace of a
    separator.  Accumulators are reversed. *)
Inductive split_mode : Type :=
| InText (text : str)
| InTerminals (text : str) (run : str)
| InSeparator (text : str) (sep : str).

Definition split_step (m : split_mode) (c : char) : list str * split_mode :=
  match m with
  | InText t =>
      if is_terminal c then ([], InTerminals t [c]) else ([], InText (c :: t))
  | InTerminals t r =>
      if is_terminal c then ([], InTerminals t (c :: r))
      else if isspace c then ([], InSeparator t (c :: r))
      else ([], InText (c :: r ++ t))
  | InSeparator t sep =>
      if isspace c then ([], InSeparator t (c :: sep))
      else if is_terminal c then ([rev t; rev sep], InTerminals [] [c])
      else ([rev t; rev sep], InText [c])
  end.

Definition split_finish (m : split_mode) : list str :=
  match m with
  | InText t => [rev t]
  | InTerminals t r => [rev (r ++ t)]
  | InSeparator t sep => [rev t; rev sep; []]
  end.

Fixpoint split_sentences_from (m : split_mode) (s : str) : list str :=
  match s with
  | [] => split_finish m
  | c :: s' =>
      let '(out, m') := split_step m c in
      out ++ split_sentences_from m' s'
  end.

Definition re_split_sentences (para : str) : list str :=
  split_sentences_from (InText []) para.

(** [for i in range(0, len(sentences), 2)]:
    [sentences[i] + (sentences[i+1] if i+1 < len(sentences) else "")]. *)
Fixpoint sentence_pairs (parts : list str) : list str :=
  match parts with
  | [] => []
  | [a] => [a]
  | a :: b :: rest => (a ++ b) :: sentence_pairs rest
  end.

(** What the module takes from Python's standard library: [textwrap.wrap(text,
    width, break_long_words=False, break_on_hyphens=False)] for a positive
    width, and the alphanumeric characters ([\w] is these and the
    underscore). *)
Class PyLib : Type := {
  wrap_words : str -> Z -> list str;
  isalnum : char -> bool
}.

Section Chunker.
Context `{PyLib}.

(** [textwrap.wrap] refuses a width that is not positive. *)
Definition textwrap_wrap (text : str) (width : Z) : outcome (list str) :=
  if width <=? 0 then Raised (ValueError "invalid width (must be > 0)")
  else Returned (wrap_words text width).

(** The body of the sentence loop of [_chunk_text]: [chunks] is the list
    built so far, [current_chunk] the running buffer. *)
Fixpoint pack_sentences (max_chars : Z) (sentences : list str)
    (chunks : list str) (current_chunk : str) : outcome (list str * str) :=
  match sentences with
  | [] => Returned (chunks, current_chunk)
  | sentence :: rest =>
      if len current_chunk + len sentence <=? max_chars
      then pack_sentences max_chars rest chunks (current_chunk ++ sentence)
      else
        let chunks1 :=
          if truthy (strip current_chunk)
          then chunks ++ [strip current_chunk] else chunks in
        if len sentence >? max_chars then
          match textwrap_wrap sentence max_chars with
          | Raised e => Raised e
          | Returned wrapped =>
              pack_sentences max_chars rest
                (chunks1 ++ map strip (filter (fun w => truthy (strip w)) wrapped))
                []
          end
        else pack_sentences max_chars rest chunks1 sentence
  end.

(** One iteration of the paragraph loop. *)
Definition chunk_paragraph (max_chars : Z) (chunks : list str) (para : str)
    : outcome (list str) :=
  if len para <=? max_chars then
    Returned (if truthy (strip para) then chunks ++ [para] else chunks)
  else
    match pack_sentences max_chars
            (sentence_pairs (re_split_sentences para)) chunks [] with
    | Raised e => Raised e
    | Returned (chunks1, current_chunk) =>
        Returned (if truthy (strip current_chunk)
                  then chunks1 ++ [strip current_chunk] else chunks1)
    end.

Fixpoint chunk_paragraphs (max_chars : Z) (paragraphs : list str)
    (chunks : list str) : outcome (list str) :=
  match paragraphs with
  | [] => Returned chunks
  | para :: rest =>
      match chunk_paragraph max_chars chunks para with
      | Raised e => Raised e
      | Returned chunks1 => chunk_paragraphs max_chars rest chunks1
      end
  end.

(** The minimum length below which a chunk is dropped as noise. *)
Definition MIN_CHUNK_CHARS : Z := 50.

Definition _chunk_text (text : str) (max_chars : Z) : outcome (list str) :=
  if blank text then Returned []
  else
    let paragraphs :=
      map strip (filter (fun p => truthy (strip p)) (split_paragraphs text)) in
    match chunk_paragraphs max_chars paragraphs [] with
    | Raised e => Raised e
    | Returned chunks =>
        Returned (filter (fun c => MIN_CHUNK_CHARS <=? len (strip c)) chunks)
    end.

(** [re.sub(r"\r", "\n", text)] *)
Definition sub_carriage_returns (text : str) : str :=
  map (fun c => if N.eqb c CR then NL else c) text.

(** [re.sub(r"\n{3,}", "\n\n", text)]; [run] newlines have been read since
    the last other character. *)
Definition flush_newlines (run : nat) : str :=
  repeat NL (if (3 <=? run)%nat then 2%nat else run).

Fixpoint sub_newline_runs (run : nat) (text : str) : str :=
  match text with
  | [] => flush_newlines run
  | c :: rest =>
      if N.eqb c NL then sub_newline_runs (S run) rest
      else flush_newlines run ++ c :: sub_newline_runs 0 rest
  end.

(** The class [\w]. *)
Definition is_word (c : char) : bool := (isalnum c || N.eqb c 95)%bool.

(** [re.sub(r"(\w)-\n(\w)", r"\1\2", text)]; matches do not overlap. *)
Fixpoint sub_hyphen_breaks (text : str) : str :=
  match text with
  | [] => []
  | a :: rest =>
      match rest with
      | h :: n :: b :: rest' =>
          if (is_word a && N.eqb h HYPHEN && N.eqb n NL && is_word b)%bool
          then a :: b :: sub_hyphen_breaks rest'
          else a :: sub_hyphen_breaks rest
      | _ => a :: sub_hyphen_breaks rest
      end
  end.

(** [re.sub(r" +", " ", text)] *)
Fixpoint sub_space_runs (in_run : bool) (text : str) : str :=
  match text with
  | [] => []
  | c :: rest =>
      if N.eqb c SP then
        if in_run then sub_space_runs true rest
        else SP :: sub_space_runs true rest
      else c :: sub_space_runs false rest
  end.

Definition clean_text (text : str) : str :=
  strip (sub_space_runs false
           (sub_hyphen_breaks (sub_newline_runs 0 (sub_carriage_returns text)))).

(** [sep.join(parts)] *)
Fixpoint join (sep : str) (parts : list str) : str :=
  match parts with
  | [] => []
  | [a] => a
  | a :: rest => a ++ sep ++ join sep rest
  end.

(** A page of an opened document: its text layer, what OCR reads from its
    rendering when asked (a call that may fail), and its PNG rendering at a
    given resolution. *)
Record Page : Type := mkPage {
  page_text : str;
  page_ocr : outcome str;
  page_png : Z -> list Z
}.

(** The file a path names: the parts of the path the code uses and what
    [fitz.open] makes of the file. *)
Record PdfFile : Type := mkPdf {
  file_name : str;
  file_stem : str;
  document : outcome (list Page)
}.

Section Extraction.
Import Progress.
Local Open Scope py_scope.
Context {S : Type} `{Reporter S} `{FloatArith}.

(** The page loop of [extract_and_chunk_pdf]; [pno] is the loop index and
    [pages] the pages from [pno] on. *)
Fixpoint extract_pages (progress_callback : bool) (total_pages pno : Z)
    (pages : list Page) (pages_text : list (str * Z))
    (page_images : list (Z * list Z))
    : M S (list (str * Z) * list (Z * list Z)) :=
  match pages with
  | [] => ret (pages_text, page_images)
  | page :: rest =>
      let page_progress := 10 + int_scaled pno total_pages 30 in
      report progress_callback page_progress
        (ExtractingPage (pno + 1) total_pages) ;;;
      let text := page_text page in
      if blank text then
        report progress_callback page_progress
          (RunningOCR (pno + 1) total_pages) ;;;
        text_ocr <- lift (page_ocr page) ;;
        extract_pages progress_callback total_pages (pno + 1) rest
          (pages_text ++ [(text_ocr, pno + 1)])
          (if progress_callback
           then page_images ++ [(pno + 1, page_png page 200)] else page_images)
      else
        extract_pages progress_callback total_pages (pno + 1) rest
          (pages_text ++ [(text, pno + 1)])
          (if progress_callback
           then page_images ++ [(pno + 1, page_png page 100)] else page_images)
  end.

(** The chunking loop; [idx] is the index of the head of [pages_text] and
    [total] is [len(pages_text)] of the whole list. *)
Fixpoint chunk_pages (progress_callback : bool) (max_chars total idx : Z)
    (pages_text : list (str * Z)) (all_chunks : list (str * Z))
    (full_text_parts : list str) : M S (list (str * Z) * list str) :=
  match pages_text with
  | [] => ret (all_chunks, full_text_parts)
  | (text, page_num) :: rest =>
      let cleaned := clean_text text in
      acc <- (if truthy cleaned then
                chunks <- lift (_chunk_text cleaned max_chars) ;;
                ret (all_chunks ++ map (fun c => (c, page_num)) chunks,
                     full_text_parts ++ [cleaned])
              else ret (all_chunks, full_text_parts)) ;;
      (if (progress_callback && ((idx + 1) mod 10 =? 0))%bool
       then report progress_callback (40 + int_scaled (idx + 1) total 8)
              (ChunkedPages (idx + 1) total)
       else ret tt) ;;;
      chunk_pages progress_callback max_chars total (idx + 1) rest
        (fst acc) (snd acc)
  end.

Definition extract_and_chunk_pdf (path : PdfFile) (max_chars : Z)
    (progress_callback : bool)
    : M S (str * list (str * Z) * list (Z * list Z)) :=
  try_except
    (doc <- lift (document path) ;;
     let total_pages := len doc in
     extracted <- extract_pages progress_callback total_pages 0 doc [] [] ;;
     let pages_text := fst extracted in
     let page_images := snd extracted in
     report progress_callback 40 (ChunkingPages (len pages_text)) ;;;
     chunked <- chunk_pages progress_callback max_chars (len pages_text) 0
                  pages_text [] [] ;;
     let full_text := join [NL; NL] (snd chunked) in
     ret (full_text, fst chunked, page_images))
    (fun _ => ret ([], [], [])).

End Extraction.

End Chunker.

End TextUtils.

(** ** [hashlib.md5] and [str.encode]

    The cache derives its keys from the MD5 digest of the UTF-8 encoding of
    the query.  Words are 32-bit integers carried as [Z] with the wrap-around
    written out. *)

Module Hashlib.
Import Py.

Definition wrap32 (x : Z) : Z := x mod 2 ^ 32.
Definition add32 (a b : Z) : Z := wrap32 (a + b).
Definition not32 (a : Z) : Z := Z.lxor a (2 ^ 32 - 1).
Definition rotl32 (x c : Z) : Z :=
  wrap32 (Z.lor (Z.shiftl x c) (Z.shiftr x (32 - c))).

(** [n] bytes of [x], least significant first. *)
Fixpoint le_bytes (n : nat) (x : Z) : list Z :=
  match n with
  | O => []
  | S n' => x mod 256 :: le_bytes n' (x / 256)
  end.

Fixpoint le_word (bytes : list Z) : Z :=
  match bytes with
  | [] => 0
  | b :: rest => b + 256 * le_word rest
  end.

(** UTF-8 of one code point; surrogates cannot be encoded, and a number
    above U+10FFFF is no character. *)
Definition utf8_char (c : char) : outcome (list Z) :=
  let z := Z.of_N c in
  if z <? 128 then Returned [z]
  else if z <? 2048 then
    Returned [Z.lor 192 (Z.shiftr z 6); Z.lor 128 (Z.land z 63)]
  else if z <? 65536 then
    if (55296 <=? z) && (z <=? 57343) then Raised UnicodeEncodeError
    else Returned [Z.lor 224 (Z.shiftr z 12);
                   Z.lor 128 (Z.land (Z.shiftr z 6) 63);
                   Z.lor 128 (Z.land z 63)]
  else if z <? 1114112 then
    Returned [Z.lor 240 (Z.shiftr z 18);
              Z.lor 128 (Z.land (Z.shiftr z 12) 63);
              Z.lor 128 (Z.land (Z.shiftr z 6) 63);
              Z.lor 128 (Z.land z 63)]
  else Raised UnicodeEncodeError.

(** [s.encode()] *)
Fixpoint encode (s : str) : outcome (list Z) :=
  match s with
  | [] => Returned []
  | c :: s' =>
      match utf8_char c with
      | Raised e => Raised e
      | Returned bs =>
          match encode s' with
          | Raised e => Raised e
          | Returned rest => Returned (bs ++ rest)
          end
      end
  end.

Definition SINE_TABLE : list Z :=
  [3614090360; 3905402710; 606105819; 3250441966;
   4118548399; 1200080426; 2821735955; 4249261313;
   1770035416; 2336552879; 4294925233; 2304563134;
   1804603682; 4254626195; 2792965006; 1236535329;
   4129170786; 3225465664; 643717713; 3921069994;
   3593408605; 38016083; 3634488961; 3889429448;
   568446438; 3275163606; 4107603335; 1163531501;
   2850285829; 4243563512; 1735328473; 2368359562;
   4294588738; 2272392833; 1839030562; 4259657740;
   2763975236; 1272893353; 4139469664; 3200236656;
   681279174; 3936430074; 3572445317; 76029189;
   3654602809; 3873151461; 530742520; 3299628645;
   4096336452; 1126891415; 2878612391; 4237533241;
   1700485571; 2399980690; 4293915773; 2240044497;
   1873313359; 4264355552; 2734768916; 1309151649;
   4149444226; 3174756917; 718787259; 3951481745].

Definition SHIFT_TABLE : list Z :=
  [7; 12; 17; 22; 7; 12; 17; 22; 7; 12; 17; 22; 7; 12; 17; 22;
   5; 9; 14; 20; 5; 9; 14; 20; 5; 9; 14; 20; 5; 9; 14; 20;
   4; 11; 16; 23; 4; 11; 16; 23; 4; 11; 16; 23; 4; 11; 16; 23;
   6; 10; 15; 21; 6; 10; 15; 21; 6; 10; 15; 21; 6; 10; 15; 21].

Definition round_table : list (Z * (Z * Z)) :=
  combine (map Z.of_nat (seq 0 64)) (combine SINE_TABLE SHIFT_TABLE).

Definition mix (i b c d : Z) : Z :=
  if i <? 16 then Z.lor (Z.land b c) (Z.land (not32 b) d)
  else if i <? 32 then Z.lor (Z.land d b) (Z.land (not32 d) c)
  else if i <? 48 then Z.lxor b (Z.lxor c d)
  else Z.lxor c (Z.lor b (not32 d)).

Definition word_index (i : Z) : Z :=
  if i <? 16 then i
  else if i <? 32 then (5 * i + 1) mod 16
  else if i <? 48 then (3 * i + 5) mod 16
  else (7 * i) mod 16.

Definition md5_state : Type := (Z * Z * Z * Z)%type.

Definition md5_step (M : list Z) (st : md5_state) (r : Z * (Z * Z)) : md5_state :=
  let '(a, b, c, d) := st in
  let '(i, (k, s)) := r in
  let f := add32 (add32 (add32 (mix i b c d) a) k)
                 (nth (Z.to_nat (word_index i)) M 0) in
  (d, add32 b (rotl32 f s), b, c).

Fixpoint words (n : nat) (block : list Z) : list Z :=
  match n with
  | O => []
  | S n' => le_word (firstn 4 block) :: words n' (skipn 4 block)
  end.

Definition md5_block (st : md5_state) (block : list Z) : md5_state :=
  let '(a0, b0, c0, d0) := st in
  let '(a, b, c, d) := fold_left (md5_step (words 16 block)) round_table st in
  (add32 a0 a, add32 b0 b, add32 c0 c, add32 d0 d).

Fixpoint blocks (n : nat) (bytes : list Z) : list (list Z) :=
  match n with
  | O => []
  | S n' => firstn 64 bytes :: blocks n' (skipn 64 bytes)
  end.

Definition pad (msg : list Z) : list Z :=
  msg ++ [128] ++ repeat 0 (Z.to_nat ((55 - len msg) mod 64))
      ++ le_bytes 8 (8 * len msg).

Definition md5_digest (msg : list Z) : list Z :=
  let padded := pad msg in
  let '(a, b, c, d) :=
    fold_left md5_block (blocks (Nat.div (List.length padded) 64) padded)
      (1732584193, 4023233417, 2562383102, 271733878) in
  le_bytes 4 a ++ le_bytes 4 b ++ le_bytes 4 c ++ le_bytes 4 d.

Definition hex_digit (n : Z) : char :=
  Z.to_N (if n <? 10 then 48 + n else 87 + n).

Definition hex_byte (b : Z) : str := [hex_digit (b / 16); hex_digit (b mod 16)].

(** [hashlib.md5(data).hexdigest()] *)
Definition md5_hexdigest (data : list Z) : str :=
  flat_map hex_byte (md5_digest data).

End Hashlib.

(** ** [app/cache.py] *)

Module CacheModel.
Import Py.
Local Open Scope py_scope.

Section Cache.

(** The cached documents (JSON-serialisable dictionaries). *)
Variable value : Type.

(** [json.dumps] on a value to cache, and [json.loads] on a text the server
    returns, [None] being what it makes of [null]; either may raise. *)
Variable json_dumps : value -> outcome str.
Variable json_loads : str -> outcome (option value).

(** [config.CACHE_TTL] *)
Variable CACHE_TTL : Z.

(** The Redis server's glob matching of a [KEYS] pattern against a key. *)
Variable glob_match : str -> str -> bool.

(** The durable tier as the client sees it: whether the server answers, and
    its keyspace, which holds texts ([decode_responses=True]). *)
Record Redis : Type := mkRedis {
  reachable : bool;
  keyspace : str -> option str
}.

Record Cache : Type := mkCache {
  redis_client : option Redis;
  memory_cache : dict value
}.

(** [Cache.__init__] with [redis_client] the connection that answered the
    ping, or [None]. *)
Definition init (connection : option Redis) : Cache :=
  {| redis_client := connection; memory_cache := [] |}.

Definition redis_get (r : Redis) (key : str) : outcome (option str) :=
  if reachable r then Returned (keyspace r key) else Raised RedisError.

(** [SETEX] refuses an expiry that is not positive. *)
Definition redis_setex (r : Redis) (key : str) (ttl : Z) (text : str)
    : outcome Redis :=
  if reachable r && (0 <? ttl) then
    Returned {| reachable := reachable r;
                keyspace := fun k => if str_eqb k key then Some text
                                     else keyspace r k |}
  else Raised RedisError.

(** [keys = r.keys(pattern)] followed by [if keys: r.delete( *keys)]. *)
Definition redis_delete_matching (r : Redis) (pattern : str) : outcome Redis :=
  if reachable r then
    Returned {| reachable := reachable r;
                keyspace := fun k => if glob_match pattern k then None else keyspace r k |}
  else Raised RedisError.

Definition redis_flushdb (r : Redis) : outcome Redis :=
  if reachable r then
    Returned {| reachable := reachable r; keyspace := fun _ => None |}
  else Raised RedisError.

Definition key_prefix (prefix : str) : str :=
  lit "bookvision:" ++ prefix ++ lit ":".

Definition _make_key (prefix query : str) : outcome str :=
  match Hashlib.encode query with
  | Raised e => Raised e
  | Returned data => Returned (key_prefix prefix ++ Hashlib.md5_hexdigest data)
  end.

Definition memory_lookup (self : Cache) (key : str) : option value :=
  if dict_mem (memory_cache self) key then dict_get (memory_cache self) key
  else None.

(** [get]: the [try] holds the server's answer and [json.loads]; whatever
    is raised there, and an answer that is [None] or empty, lead to the
    fallback. *)
Definition get (prefix query : str) : M Cache (option value) :=
  key <- lift (_make_key prefix query) ;;
  self <- get_self ;;
  match redis_client self with
  | Some r =>
      match redis_get r key with
      | Returned (Some cached) =>
          if truthy cached then
            match json_loads cached with
            | Returned loaded => ret loaded
            | Raised _ => ret (memory_lookup self key)
            end
          else ret (memory_lookup self key)
      | Returned None => ret (memory_lookup self key)
      | Raised _ => ret (memory_lookup self key)
      end
  | None => ret (memory_lookup self key)
  end.

(** The tail of [set]: store in the fallback, then bound its size. *)
Definition memory_store (key : str) (v : value) : M Cache unit :=
  self <- get_self ;;
  let stored := dict_set (memory_cache self) key v in
  let bounded :=
    if len stored >? 1000
    then dict_del_all stored (firstn 100 (dict_keys stored))
    else stored in
  put_self {| redis_client := redis_client self; memory_cache := bounded |}.

(** [set]: the [try] holds [json.dumps] and [SETEX]; whatever is raised
    there leads to the fallback, which keeps the value itself. *)
Definition set (prefix query : str) (v : value) (ttl : option Z)
    : M Cache unit :=
  key <- lift (_make_key prefix query) ;;
  let ttl :=
    match ttl with
    | Some t => if t =? 0 then CACHE_TTL else t
    | None => CACHE_TTL
    end in
  self <- get_self ;;
  match redis_client self with
  | Some r =>
      match json_dumps v with
      | Returned text =>
          match redis_setex r key ttl text with
          | Returned r' =>
              put_self {| redis_client := Some r';
                          memory_cache := memory_cache self |}
          | Raised _ => memory_store key v
          end
      | Raised _ => memory_store key v
      end
  | None => memory_store key v
  end.

(** The durable half of [clear]; an error there is printed and dropped. *)
Definition clear_redis (prefix : option str) (r : Redis) : Redis :=
  let attempt :=
    match prefix with
    | Some ((_ :: _) as p) => redis_delete_matching r (key_prefix p ++ lit "*")
    | _ => redis_flushdb r
    end in
  match attempt with
  | Returned r' => r'
  | Raised _ => r
  end.

Definition clear_memory (prefix : option str) (m : dict value) : dict value :=
  match prefix with
  | Some ((_ :: _) as p) =>
      let keys_to_remove :=
        filter (fun k => startswith k (key_prefix p)) (dict_keys m) in
      dict_del_all m keys_to_remove
  | _ => []
  end.

Definition clear (prefix : option str) : M Cache unit :=
  self <- get_self ;;
  put_self {| redis_client := option_map (clear_redis prefix) (redis_client self);
              memory_cache := clear_memory prefix (memory_cache self) |}.

(** The states the process can be in: a fresh cache, the effect of any call,
    and whatever the durable tier does on its own (expiry, other clients,
    connectivity), which never touches the fallback dictionary nor turns a
    cache built without a connection into one that has it. *)
Inductive reachable_cache : Cache -> Prop :=
| reach_init connection : reachable_cache (init connection)
| reach_get c prefix query :
    reachable_cache c -> reachable_cache (snd (get prefix query c))
| reach_set c prefix query v ttl :
    reachable_cache c -> reachable_cache (snd (set prefix query v ttl c))
| reach_clear c prefix :
    reachable_cache c -> reachable_cache (snd (clear prefix c))
| reach_server c r r' :
    reachable_cache c -> redis_client c = Some r ->
    reachable_cache {| redis_client := Some r'; memory_cache := memory_cache c |}.

End Cache.

End CacheModel.

(** ** [app/embed_store.py] *)

Module EmbedStoreModel.
Import Py Progress.
Local Open Scope py_scope.

(** Values held in metadata records. *)
Inductive pyval : Type :=
| PStr (s : str)
| PInt (n : Z)
| PFloat (x : float).

Definition metadata : Type := dict pyval.

(** A file on disk: absent (or empty), holding a readable value, or holding
    bytes the reader rejects. *)
Inductive file (A : Type) : Type :=
| Missing
| Holds (a : A)
| Corrupt.
Arguments Missing {A}.
Arguments Holds {A} a.
Arguments Corrupt {A}.

(** What the store takes from its libraries.
    - [vec]: a row of float32 numbers, as numpy holds it.
    - [encode]: [SentenceTransformer.encode] on one text; [model_dim] is the
      width of its rows.
    - [linalg_norm v] is [np.linalg.norm(v)], [row_norm] the norm of a row
      under [np.linalg.norm(m, axis=1)], [divide v x] is [v / x].
    - [index_search d rows q k]: the distances and labels
      [IndexFlatIP.search] returns for one query. *)
Class Backend : Type := {
  vec : Type;
  encode : str -> vec;
  model_dim : Z;
  linalg_norm : vec -> float;
  row_norm : vec -> float;
  divide : vec -> float -> vec;
  index_search : Z -> list vec -> vec -> Z -> list (float * Z)
}.

(** What becomes of a write: it goes through; it fails before the file is
    touched; or it fails midway and leaves bytes no reader accepts. *)
Inductive written : Type :=
| Done
| Untouched
| Torn.

(** The disk under the index files as [_save] meets it, in a process whose
    state is a [W]: what becomes of [faiss.write_index] and what becomes of
    opening [meta.json] and [json.dump]ing the records into it.  The second
    covers the records themselves too: [json.dump] fails midway on a string
    UTF-8 cannot encode. *)
Class Disk (W : Type) : Type := {
  write_index : W -> written;
  dump_meta : W -> written
}.

Section Store.
Context `{Backend} `{FloatArith}.

(** [faiss.IndexFlatIP]: the row width [d] and the stored rows. *)
Record IndexFlatIP : Type := mkIndex {
  d : Z;
  xb : list vec
}.

Definition ntotal (ix : IndexFlatIP) : Z := len (xb ix).

Record EmbedStore : Type := mkStore {
  dim : Z;
  index : option IndexFlatIP;
  meta : list metadata
}.

(** The process and its disk: the global [embed_store], the two index files,
    the page-image directories written so far (book and page count), and the
    reports the progress callback has received. *)
Record World : Type := mkWorld {
  embed_store : EmbedStore;
  VEC_FILE : file IndexFlatIP;
  META_FILE : file (list metadata);
  page_image_dirs : list (str * Z);
  delivered : list (Z * message)
}.

Definition with_store (w : World) (s : EmbedStore) : World :=
  {| embed_store := s; VEC_FILE := VEC_FILE w; META_FILE := META_FILE w;
     page_image_dirs := page_image_dirs w; delivered := delivered w |}.

Context `{Disk World}.

#[export] Instance world_reporter : Reporter World :=
  {| deliver := fun percent msg w =>
       {| embed_store := embed_store w; VEC_FILE := VEC_FILE w;
          META_FILE := META_FILE w; page_image_dirs := page_image_dirs w;
          delivered := delivered w ++ [(percent, msg)] |} |}.

Definition get_store : M World EmbedStore :=
  fun w => (Returned (embed_store w), w).
Definition put_store (s : EmbedStore) : M World unit :=
  fun w => (Returned tt, with_store w s).

Definition new_index (dimension : Z) : IndexFlatIP :=
  {| d := dimension; xb := [] |}.

(** [index.add(rows)]: the wrapper asserts the row width first. *)
Definition index_add (ix : IndexFlatIP) (rows : list vec) : outcome IndexFlatIP :=
  if model_dim =? d ix then Returned {| d := d ix; xb := xb ix ++ rows |}
  else Raised AssertionError.

(** The body of the [try] of [_load], on what the files hold; [meta0] is
    [self.meta] on entry. *)
Definition load_files (dimension : Z) (vec_file : file IndexFlatIP)
    (meta_file : file (list metadata)) (meta0 : list metadata)
    : outcome (IndexFlatIP * list metadata) :=
  match vec_file with
  | Corrupt => Raised (ValueError "read_index")
  | _ =>
      let ix := match vec_file with Holds ix => ix | _ => new_index dimension end in
      match meta_file with
      | Corrupt => Raised (ValueError "json.load")
      | _ =>
          let loaded := match meta_file with Holds ms => ms | _ => meta0 end in
          if ntotal ix >? len loaded then
            Returned (ix, loaded ++ repeat [] (Z.to_nat (ntotal ix - len loaded)))
          else if ntotal ix <? len loaded then
            Returned (ix, firstn (Z.to_nat (ntotal ix)) loaded)
          else Returned (ix, loaded)
      end
  end.

Definition _load : M World unit :=
  fun w =>
    let self := embed_store w in
    match load_files (dim self) (VEC_FILE w) (META_FILE w) (meta self) with
    | Returned (ix, ms) =>
        (Returned tt, with_store w {| dim := dim self; index := Some ix; meta := ms |})
    | Raised _ =>
        (Returned tt,
         with_store w {| dim := dim self; index := Some (new_index (dim self));
                         meta := [] |})
    end.

(** [EmbedStore.__init__] *)
Definition __init__ (dimension : Z) : M World unit :=
  put_store {| dim := dimension; index := None; meta := [] |} ;;;
  _load.

(** [if self.index and self.index.ntotal > 0] *)
Definition index_to_write (self : EmbedStore) : option IndexFlatIP :=
  match index self with
  | Some ix => if ntotal ix >? 0 then Some ix else None
  | None => None
  end.

(** The [try] of [_save] on the disk: the index file after
    [faiss.write_index], and whether the body goes on to the records. *)
Definition save_index (w : World) : file IndexFlatIP * bool :=
  match index_to_write (embed_store w) with
  | Some ix =>
      match write_index w with
      | Done => (Holds ix, true)
      | Untouched => (VEC_FILE w, false)
      | Torn => (Corrupt, false)
      end
  | None => (VEC_FILE w, true)
  end.

Definition save_meta (w : World) : file (list metadata) :=
  match dump_meta w with
  | Done => Holds (meta (embed_store w))
  | Untouched => META_FILE w
  | Torn => Corrupt
  end.

(** [_save]: an exception in either write is printed and dropped. *)
Definition _save : M World unit :=
  fun w =>
    (Returned tt,
     {| embed_store := embed_store w;
        VEC_FILE := fst (save_index w);
        META_FILE := if snd (save_index w) then save_meta w else META_FILE w;
        page_image_dirs := page_image_dirs w;
        delivered := delivered w |}).

Definition _normalize (v : vec) : vec :=
  let norm := linalg_norm v in
  if (0 <? norm)%float then divide v norm else v.

(** [norms[norms == 0] = 1; embeddings / norms], row by row. *)
Definition normalize_row (v : vec) : vec :=
  let norm := row_norm v in
  divide v (if (norm =? 0)%float then 1%float else norm).

(** [if self.index is None: self.index = faiss.IndexFlatIP(self.dim)] *)
Definition ensure_index : M World IndexFlatIP :=
  self <- get_store ;;
  match index self with
  | Some ix => ret ix
  | None =>
      put_store {| dim := dim self; index := Some (new_index (dim self));
                   meta := meta self |} ;;;
      ret (new_index (dim self))
  end.

Definition CHUNK_TEXT : str := lit "chunk_text".
Definition SCORE : str := lit "score".

Definition add (chunk_text : str) (md : metadata) : M World unit :=
  if blank chunk_text then ret tt
  else
    let emb := _normalize (encode chunk_text) in
    ix <- ensure_index ;;
    ix' <- lift (index_add ix [emb]) ;;
    self <- get_store ;;
    put_store {| dim := dim self; index := Some ix';
                 meta := meta self ++ [dict_set md CHUNK_TEXT (PStr chunk_text)] |} ;;;
    _save.

(** The embedding loop of [add_batch]: [i] runs over
    [range(0, len(valid_chunks), 100)] and [remaining] is [valid_chunks[i:]];
    [fuel] bounds the number of rounds. *)
Fixpoint embed_batches (fuel : nat) (progress_callback : bool) (total i : Z)
    (remaining : list str) : M World (list (list vec)) :=
  match fuel, remaining with
  | S fuel', _ :: _ =>
      let batch_chunks := firstn 100 remaining in
      (if (progress_callback && (0 <? i))%bool
       then report progress_callback (65 + int_scaled i total 15)
              (EmbeddingBatch (i / 100 + 1))
       else ret tt) ;;;
      rest <- embed_batches fuel' progress_callback total (i + 100)
                (skipn 100 remaining) ;;
      ret (map encode batch_chunks :: rest)
  | _, _ => ret []
  end.

Definition add_batch (chunks : list str) (metadata_list : list metadata)
    (progress_callback : bool) : M World unit :=
  if (match chunks with [] => true | _ => false end
      || negb (len chunks =? len metadata_list))%bool
  then ret tt
  else
    let valid := filter (fun cm => has_text (fst cm)) (combine chunks metadata_list) in
    let valid_chunks := map fst valid in
    let valid_metadata := map snd valid in
    match valid_chunks with
    | [] => ret tt
    | _ :: _ =>
        report progress_callback 65 (GeneratingEmbeddings (len valid_chunks)) ;;;
        all_embeddings <-
          embed_batches (List.length valid_chunks) progress_callback
            (len valid_chunks) 0 valid_chunks ;;
        let embeddings := List.concat all_embeddings in
        report progress_callback 80 NormalizingEmbeddings ;;;
        let embeddings := map normalize_row embeddings in
        report progress_callback 85 AddingToIndex ;;;
        ix <- ensure_index ;;
        ix' <- lift (index_add ix embeddings) ;;
        self <- get_store ;;
        put_store
          {| dim := dim self; index := Some ix';
             meta := meta self ++
                     map (fun mc => dict_set (fst mc) CHUNK_TEXT (PStr (snd mc)))
                       (combine valid_metadata valid_chunks) |} ;;;
        report progress_callback 90 SavingIndex ;;;
        _save
    end.

(** One pass of the result loop of [search]. *)
Definition collect_hit (ms : list metadata) (hit : float * Z) : list metadata :=
  let '(dist, idx) := hit in
  if ((idx <? 0) || (idx >=? len ms))%bool then []
  else
    match nth_error ms (Z.to_nat idx) with
    | Some m => [dict_set m SCORE (PFloat dist)]
    | None => []
    end.

Definition search (query : str) (top_k : Z) : M World (list metadata) :=
  self <- get_store ;;
  match index self with
  | None => ret []
  | Some ix =>
      if ntotal ix =? 0 then ret []
      else if blank query then ret []
      else
        let q_emb := _normalize (encode query) in
        let n_to_search := Z.min top_k (ntotal ix) in
        if ((model_dim =? d ix) && (0 <? n_to_search))%bool then
          ret (flat_map (collect_hit (meta self))
                 (index_search (d ix) (xb ix) q_emb n_to_search))
        else ret []
  end.

(** [get_stats()["total_chunks"]] *)
Definition total_chunks (self : EmbedStore) : Z :=
  match index self with Some ix => ntotal ix | None => 0 end.

Definition vectors (self : EmbedStore) : list vec :=
  match index self with Some ix => xb ix | None => [] end.

(** The calls that grow the store. *)
Inductive call : Type :=
| Add (chunk_text : str) (md : metadata)
| AddBatch (chunks : list str) (metadata_list : list metadata)
    (progress_callback : bool).

Definition perform (c : call) : M World unit :=
  match c with
  | Add chunk_text md => add chunk_text md
  | AddBatch chunks metadata_list cb => add_batch chunks metadata_list cb
  end.

Fixpoint perform_all (calls : list call) (w : World) : World :=
  match calls with
  | [] => w
  | c :: rest => perform_all rest (snd (perform c w))
  end.

(** A process that has not built its store yet, on a given disk. *)
Definition boot (vec_file : file IndexFlatIP) (meta_file : file (list metadata))
    : World :=
  {| embed_store := {| dim := 0; index := None; meta := [] |};
     VEC_FILE := vec_file; META_FILE := meta_file;
     page_image_dirs := []; delivered := [] |}.

(** The process at start-up on a disk without index files. *)
Definition fresh_world (dimension : Z) : World :=
  snd (__init__ dimension (boot Missing Missing)).

End Store.

End EmbedStoreModel.

(** ** numpy on float32 rows *)

Module Numpy.
Import Py EmbedStoreModel SpecFloat.

(** IEEE 754 binary32, the format of [np.float32]: 24 bits of precision and
    exponents below 128. *)
Definition f32_prec : Z := 24.
Definition f32_emax : Z := 128.

Definition float32 : Type := spec_float.

Definition f32_mul : float32 -> float32 -> float32 := SFmul f32_prec f32_emax.
Definition f32_add : float32 -> float32 -> float32 := SFadd f32_prec f32_emax.
Definition f32_div : float32 -> float32 -> float32 := SFdiv f32_prec f32_emax.
Definition f32_sqrt : float32 -> float32 := SFsqrt f32_prec f32_emax.

(** A float32 read as a binary64 number, which loses nothing, and a binary64
    number rounded to the nearest float32. *)
Definition widen (x : float32) : float := FloatOps.SF2Prim x.

Definition narrow (x : float) : float32 :=
  match FloatOps.Prim2SF x with
  | S754_finite s m e => binary_round f32_prec f32_emax s m e
  | other => other
  end.

(** [x.dot(y)] on float32 rows.  The order in which the products are summed
    is the library's; here it is from the left. *)
Definition dot (x y : list float32) : float32 :=
  fold_left (fun acc ab => f32_add acc (f32_mul (fst ab) (snd ab)))
    (combine x y) (S754_zero false).

(** [np.linalg.norm(x)] on a float32 row: [sqrt(x.dot(x))], a float32. *)
Definition norm (x : list float32) : float32 := f32_sqrt (dot x x).

Section Library.

Variable encoder : str -> list float32.
Variable width : Z.
Variable searcher :
  Z -> list (list float32) -> list float32 -> Z -> list (float * Z).

(** The store's libraries with rows of float32: the norm and the division
    are numpy's; the sentence encoder and the index search stay parameters. *)
Definition numpy_backend : Backend :=
  {| vec := list float32;
     encode := encoder;
     model_dim := width;
     linalg_norm := fun v => widen (norm v);
     row_norm := fun v => widen (norm v);
     divide := fun v x => map (fun a => f32_div a (narrow x)) v;
     index_search := searcher |}.

End Library.

End Numpy.

(** ** [app/ingest.py] *)

Module IngestModel.
Import Py Progress TextUtils EmbedStoreModel.
Local Open Scope py_scope.

Section Ingest.
Context `{PyLib} `{Backend} `{FloatArith} `{Disk World}.

(** [_save_page_images]: the book's directory with its [pages.json]. *)
Definition _save_page_images (book_id : str) (page_images : list (Z * list Z))
    : M World unit :=
  match page_images with
  | [] => ret tt
  | _ :: _ =>
      fun w =>
        (Returned tt,
         {| embed_store := embed_store w; VEC_FILE := VEC_FILE w;
            META_FILE := META_FILE w;
            page_image_dirs := page_image_dirs w ++ [(book_id, len page_images)];
            delivered := delivered w |})
  end.

(** [book_title or Path(path).stem] *)
Definition title_or_stem (book_title : option str) (path : PdfFile) : str :=
  match book_title with
  | Some ((_ :: _) as title) => title
  | _ => file_stem path
  end.

Definition chunk_metadata (book_id : str) (book_title : option str)
    (path : PdfFile) (page_num : Z) : metadata :=
  [(lit "book_id", PStr book_id);
   (lit "book_title", PStr (title_or_stem book_title path));
   (lit "page", PInt page_num);
   (lit "source", PStr (file_name path))].

(** [ingest_pdf]; [book_id] is the identifier [uuid.uuid4()] produced. *)
Definition ingest_pdf (book_id : str) (path : PdfFile)
    (book_title : option str) (progress_callback : bool) : M World str :=
  report progress_callback 10 ExtractingText ;;;
  extracted <- extract_and_chunk_pdf path 800 progress_callback ;;
  let chunks_with_pages := snd (fst extracted) in
  let page_images := snd extracted in
  match chunks_with_pages with
  | [] => raise (ValueError "No text extracted from PDF.")
  | _ :: _ =>
      report progress_callback 50 (ProcessingChunks (len chunks_with_pages)) ;;;
      let metadata_list :=
        map (fun cp => chunk_metadata book_id book_title path (snd cp))
          chunks_with_pages in
      let chunks_list := map fst chunks_with_pages in
      let total_chunks := len chunks_with_pages in
      report progress_callback 60 (PreparedChunks total_chunks) ;;;
      add_batch chunks_list metadata_list progress_callback ;;;
      report progress_callback 90 EmbeddingsGenerated ;;;
      report progress_callback 90 SavingPageImages ;;;
      (match page_images with
       | [] => ret tt
       | _ :: _ => _save_page_images book_id page_images
       end) ;;;
      report progress_callback 95 Finalizing ;;;
      ret book_id
  end.

(** [ingest_pdf_with_progress] *)
Definition ingest_pdf_with_progress (book_id : str) (path : PdfFile)
    (book_title : option str) (progress_callback : bool) : M World str :=
  ingest_pdf book_id path book_title progress_callback.

End Ingest.

End IngestModel.

(** ** Images: [extract_and_chunk_image] and [ingest_image] *)

Module ImageModel.
Import Py Progress TextUtils EmbedStoreModel IngestModel.
Local Open Scope py_scope.

(** An opened image: what OCR reads from it and its PNG encoding, two calls
    that may fail. *)
Record Image : Type := mkImage {
  image_to_string : outcome str;
  image_png : outcome (list Z)
}.

(** The file a path names: the parts of the path the code uses and what
    [Image.open] makes of the file. *)
Record ImageFile : Type := mkImageFile {
  image_name : str;
  image_stem : str;
  opened : outcome Image
}.

Section Images.
Context `{PyLib} `{Backend} `{FloatArith} `{Disk World}.

Definition extract_and_chunk_image {S : Type} (path : ImageFile) (max_chars : Z)
    : M S (str * list (str * Z) * list (Z * list Z)) :=
  try_except
    (img <- lift (opened path) ;;
     text <- lift (image_to_string img) ;;
     let cleaned := clean_text text in
     if negb (truthy cleaned) then ret ([], [], [])
     else
       chunks <- lift (_chunk_text cleaned max_chars) ;;
       let chunk_tuples := map (fun chunk => (chunk, 1)) chunks in
       img_bytes <- lift (image_png img) ;;
       ret (cleaned, chunk_tuples, [(1, img_bytes)]))
    (fun _ => ret ([], [], [])).

(** [book_title or Path(path).stem] *)
Definition image_title (book_title : option str) (path : ImageFile) : str :=
  match book_title with
  | Some ((_ :: _) as title) => title
  | _ => image_stem path
  end.

Definition image_metadata (book_id : str) (book_title : option str)
    (path : ImageFile) (page_num : Z) : metadata :=
  [(lit "book_id", PStr book_id);
   (lit "book_title", PStr (image_title book_title path));
   (lit "page", PInt page_num);
   (lit "source", PStr (image_name path))].

(** [ingest_image]; [book_id] is the identifier [uuid.uuid4()] produced. *)
Definition ingest_image (book_id : str) (path : ImageFile)
    (book_title : option str) : M World str :=
  extracted <- extract_and_chunk_image path 800 ;;
  let chunks_with_pages := snd (fst extracted) in
  let page_images := snd extracted in
  match chunks_with_pages with
  | [] => raise (ValueError "No text extracted from image.")
  | _ :: _ =>
      let metadata_list :=
        map (fun cp => image_metadata book_id book_title path (snd cp))
          chunks_with_pages in
      let chunks_list := map fst chunks_with_pages in
      add_batch chunks_list metadata_list false ;;;
      (match page_images with
       | [] => ret tt
       | _ :: _ => _save_page_images book_id page_images
       end) ;;;
      ret book_id
  end.

End Images.

End ImageModel.

(** ** Properties of strings and dictionaries *)

Module PyFacts.
Import Py.

Lemma str_eqb_refl (a : str) : str_eqb a a = true.
Proof. induction a as [|x a IH]; cbn; [reflexivity|]. now rewrite N.eqb_refl. Qed.

Lemma str_eqb_eq (a b : str) : str_eqb a b = true <-> a = b.
Proof.
  split.
  - revert b. induction a as [|x a IH]; intros [|y b] H; cbn in H;
      try discriminate; [reflexivity|].
    apply andb_true_iff in H. destruct H as [Hx Hab].
    apply N.eqb_eq in Hx. f_equal; auto.
  - intros <-. apply str_eqb_refl.
Qed.

Lemma str_eqb_neq (a b : str) : str_eqb a b = false <-> a <> b.
Proof.
  split.
  - intros H E. apply str_eqb_eq in E. congruence.
  - intros H. destruct (str_eqb a b) eqn:E; [|reflexivity].
    apply str_eqb_eq in E. contradiction.
Qed.

Lemma startswith_app (p s : str) : startswith (p ++ s) p = true.
Proof. induction p as [|x p IH]; cbn; [reflexivity|]. now rewrite N.eqb_refl. Qed.

Lemma startswith_app_inv (p q s : str) :
  startswith (p ++ s) (p ++ q) = startswith s q.
Proof. induction p as [|x p IH]; cbn; [reflexivity|]. now rewrite N.eqb_refl. Qed.

Lemma startswith_iff (s p : str) :
  startswith s p = true <-> exists rest, s = p ++ rest.
Proof.
  split.
  - revert s. induction p as [|x p IH]; intros s H; [now exists s|].
    destruct s as [|y s]; [discriminate|]. cbn in H.
    apply andb_true_iff in H. destruct H as [Hx Hs]. apply N.eqb_eq in Hx.
    destruct (IH _ Hs) as [rest ->]. exists rest. now subst.
  - intros [rest ->]. apply startswith_app.
Qed.

(** *** Lengths *)

Lemma len_nonneg {A} (l : list A) : 0 <= len l.
Proof. unfold len. lia. Qed.

Lemma len_nil_inv {A} (l : list A) : len l <= 0 -> l = [].
Proof. destruct l; cbn; [reflexivity | lia]. Qed.

Lemma len_app {A} (l l' : list A) : len (l ++ l') = len l + len l'.
Proof. unfold len. rewrite length_app. lia. Qed.

Lemma len_map {A B} (f : A -> B) (l : list A) : len (map f l) = len l.
Proof. unfold len. now rewrite length_map. Qed.

Lemma firstn_skipn_map {A B} (f : A -> B) (n : nat) (l : list A) :
  map f (firstn n l) ++ map f (skipn n l) = map f l.
Proof. now rewrite <- map_app, firstn_skipn. Qed.

Lemma Forall2_len {A B} (R : A -> B -> Prop) l l' : Forall2 R l l' -> len l = len l'.
Proof. intros F. unfold len. now rewrite (Forall2_length F). Qed.

Lemma combine_map_snd_fst {A B} (l : list (A * B)) :
  combine (map snd l) (map fst l) = map (fun ab => (snd ab, fst ab)) l.
Proof. induction l as [|[a b] l IH]; cbn; [reflexivity | now rewrite IH]. Qed.

Lemma len_cons {A} (a : A) (l : list A) : len (a :: l) = 1 + len l.
Proof. unfold len. cbn [List.length]. lia. Qed.

Lemma skipn_len {A} (n : nat) (l : list A) :
  len (skipn n l) = len l - Z.min (Z.of_nat n) (len l).
Proof. unfold len. rewrite length_skipn. lia. Qed.

Lemma filter_len_le {A} (f : A -> bool) (l : list A) : len (filter f l) <= len l.
Proof. unfold len. pose proof (filter_length_le f l). lia. Qed.

Section DictFacts.
Variable V : Type.
Implicit Types (d : dict V) (k : str).

Lemma dict_set_length d k (v : V) :
  len (dict_set d k v) = len d \/ len (dict_set d k v) = len d + 1.
Proof.
  unfold len. induction d as [|[k' v'] d IH]; cbn [dict_set].
  - right. reflexivity.
  - destruct (str_eqb k' k); [left; reflexivity|].
    cbn [List.length]. destruct IH as [IH|IH]; [left|right]; lia.
Qed.

Lemma dict_get_set_same d k (v : V) : dict_get (dict_set d k v) k = Some v.
Proof.
  induction d as [|[k' v'] d IH]; cbn.
  - now rewrite str_eqb_refl.
  - destruct (str_eqb k' k) eqn:E; cbn; now rewrite E.
Qed.

(** Deleting the first [n] keys, oldest first, leaves the rest in order. *)
Lemma dict_del_oldest d (n : nat) :
  dict_del_all d (firstn n (dict_keys d)) = skipn n d.
Proof.
  revert d. induction n as [|n IH]; intros d; [reflexivity|].
  destruct d as [|[k v] d]; [reflexivity|].
  cbn. rewrite str_eqb_refl. apply IH.
Qed.

Lemma dict_del_all_cons_other d k (v : V) (ks : list str) :
  ~ In k ks ->
  dict_del_all ((k, v) :: d) ks = (k, v) :: dict_del_all d ks.
Proof.
  revert d. induction ks as [|k' ks IH]; intros d Hin; [reflexivity|].
  cbn. destruct (str_eqb k k') eqn:E.
  - apply str_eqb_eq in E. subst. exfalso. apply Hin. now left.
  - apply IH. intros H. apply Hin. now right.
Qed.

(** Deleting the keys a predicate selects is filtering the entries. *)
Lemma dict_del_selected d (sel : str -> bool) :
  dict_del_all d (filter sel (dict_keys d))
  = filter (fun kv => negb (sel (fst kv))) d.
Proof.
  induction d as [|[k v] d IH]; [reflexivity|].
  cbn [dict_keys map fst filter]. destruct (sel k) eqn:E; cbn [negb].
  - cbn. rewrite str_eqb_refl. exact IH.
  - rewrite dict_del_all_cons_other.
    + f_equal. exact IH.
    + intros H. apply filter_In in H. destruct H as [_ H]. congruence.
Qed.

Lemma dict_get_filter d (sel : str -> bool) k :
  dict_get (filter (fun kv => negb (sel (fst kv))) d) k
  = if sel k then None else dict_get d k.
Proof.
  induction d as [|[k' v'] d IH]; cbn [filter fst].
  - cbn. now destruct (sel k).
  - destruct (sel k') eqn:E'; cbn [negb dict_get].
    + rewrite IH. destruct (str_eqb k' k) eqn:E; [|reflexivity].
      apply str_eqb_eq in E. subst. now rewrite E'.
    + destruct (str_eqb k' k) eqn:E.
      * apply str_eqb_eq in E. subst. now rewrite E'.
      * exact IH.
Qed.

Lemma dict_get_app d d' k :
  dict_get (d ++ d') k
  = match dict_get d k with Some v => Some v | None => dict_get d' k end.
Proof.
  induction d as [|[k0 v0] d IH]; cbn; [reflexivity|].
  now destruct (str_eqb k0 k).
Qed.

Lemma dict_set_absent d k (v : V) :
  dict_get d k = None -> dict_set d k v = d ++ [(k, v)].
Proof.
  induction d as [|[k0 v0] d IH]; cbn; [reflexivity|].
  destruct (str_eqb k0 k); [discriminate|]. intros E. now rewrite IH.
Qed.

Lemma dict_set_present d k (v v0 : V) :
  dict_get d k = Some v0 -> len (dict_set d k v) = len d.
Proof.
  induction d as [|[k1 v1] d IH]; cbn [dict_get dict_set]; [discriminate|].
  destruct (str_eqb k1 k); [reflexivity|].
  intros E. rewrite !len_cons. now rewrite IH.
Qed.

Lemma dict_get_skipn_none d (n : nat) k :
  dict_get d k = None -> dict_get (skipn n d) k = None.
Proof.
  revert d. induction n as [|n IH]; intros d; [trivial|].
  destruct d as [|[k0 v0] d]; [trivial|]. cbn.
  destruct (str_eqb k0 k); [discriminate | apply IH].
Qed.

Lemma dict_get_set_other d k k' (v : V) :
  k' <> k -> dict_get (dict_set d k v) k' = dict_get d k'.
Proof.
  intros Hne. induction d as [|[k0 v0] d IH]; cbn.
  - apply str_eqb_neq in Hne. destruct (str_eqb k k') eqn:E; [|reflexivity].
    apply str_eqb_eq in E. apply str_eqb_neq in Hne. congruence.
  - destruct (str_eqb k0 k) eqn:E0; cbn.
    + apply str_eqb_eq in E0. subst k0.
      destruct (str_eqb k k') eqn:E; [|reflexivity].
      apply str_eqb_eq in E. congruence.
    + now rewrite IH.
Qed.

(** The fallback after an entry went in: cut at the front when it has grown
    past 1000. *)
Definition bounded d : dict V :=
  if len d >? 1000 then skipn 100 d else d.

(** The entry just stored survives the cut. *)
Lemma stored_is_found d k (v : V) :
  len d <= 1000 -> dict_get (bounded (dict_set d k v)) k = Some v.
Proof.
  intros Hlen. unfold bounded.
  destruct (len (dict_set d k v) >? 1000) eqn:E; [|apply dict_get_set_same].
  rewrite Z.gtb_ltb in E. apply Z.ltb_lt in E.
  destruct (dict_get d k) as [v0|] eqn:Hk.
  - rewrite (dict_set_present _ _ v Hk) in E. lia.
  - rewrite (dict_set_absent _ _ v Hk) in *. rewrite len_app in E.
    change (len [(k, v)]) with 1 in E.
    rewrite skipn_app, dict_get_app, (dict_get_skipn_none _ _ _ Hk).
    replace (100 - List.length d)%nat with 0%nat by (unfold len in *; lia).
    cbn. now rewrite str_eqb_refl.
Qed.

(** Below capacity nothing is cut, and the other keys read as before. *)
Lemma stored_leaves_others d k k' (v : V) :
  len d < 1000 -> k' <> k ->
  dict_get (bounded (dict_set d k v)) k' = dict_get d k'.
Proof.
  intros Hlen Hne. unfold bounded.
  destruct (len (dict_set d k v) >? 1000) eqn:E.
  - rewrite Z.gtb_ltb in E. apply Z.ltb_lt in E.
    pose proof (dict_set_length d k v). lia.
  - now apply dict_get_set_other.
Qed.

End DictFacts.

End PyFacts.

(** ** Properties of the chunker *)

Module TextUtilsFacts.
Import Py PyFacts TextUtils.

Lemma blank_false_of_long_strip (c : str) :
  0 < len (strip c) -> blank c = false.
Proof.
  intros Hlen. unfold blank, has_text.
  destruct c as [|x c']; [cbn in Hlen; lia|].
  cbn [truthy andb].
  destruct (strip (x :: c')) eqn:E; [cbn in Hlen; lia | reflexivity].
Qed.

Section ChunkerFacts.
Context `{PyLib}.

Lemma chunk_paragraph_returns max_chars chunks para :
  0 < max_chars ->
  exists chunks', chunk_paragraph max_chars chunks para = Returned chunks'.
Proof.
  intros Hpos. unfold chunk_paragraph.
  destruct (len para <=? max_chars); [eauto|].
  assert (Hpack : forall ss cs cur, exists r,
             pack_sentences max_chars ss cs cur = Returned r).
  { induction ss as [|s ss IH]; intros cs cur; cbn [pack_sentences]; [eauto|].
    destruct (len cur + len s <=? max_chars); [apply IH|].
    destruct (len s >? max_chars); [|apply IH].
    unfold textwrap_wrap.
    destruct (max_chars <=? 0) eqn:E; [apply Z.leb_le in E; lia | apply IH]. }
  destruct (Hpack (sentence_pairs (re_split_sentences para)) chunks [])
    as [[cs cur] ->].
  eauto.
Qed.

Lemma chunk_paragraphs_returns max_chars paragraphs chunks :
  0 < max_chars ->
  exists chunks', chunk_paragraphs max_chars paragraphs chunks = Returned chunks'.
Proof.
  intros Hpos. revert chunks.
  induction paragraphs as [|p ps IH]; intros chunks; cbn [chunk_paragraphs]; [eauto|].
  destruct (chunk_paragraph_returns chunks p Hpos) as [cs ->]. apply IH.
Qed.

(** C5. Every chunk [_chunk_text] returns has trimmed length at least 50 and
    is neither empty nor whitespace-only; empty or whitespace-only input gives
    the empty list; and for a positive [max_chars] the call does return. *)
Theorem chunk_text_drops_noise :
  (forall text max_chars chunks,
      _chunk_text text max_chars = Returned chunks ->
      Forall (fun c => MIN_CHUNK_CHARS <= len (strip c) /\ blank c = false) chunks)
  /\ (forall text max_chars,
         blank text = true -> _chunk_text text max_chars = Returned [])
  /\ (forall text max_chars,
         0 < max_chars ->
         exists chunks, _chunk_text text max_chars = Returned chunks).
Proof.
  split; [|split].
  - intros text max_chars chunks Hc. unfold _chunk_text in Hc.
    destruct (blank text).
    + injection Hc as <-. constructor.
    + destruct (chunk_paragraphs _ _ _) as [cs|e]; [|discriminate].
      injection Hc as <-. apply Forall_forall. intros c Hin.
      apply filter_In in Hin. destruct Hin as [_ Hin]. apply Z.leb_le in Hin.
      split; [exact Hin|].
      apply blank_false_of_long_strip. unfold MIN_CHUNK_CHARS in Hin. lia.
  - intros text max_chars Hb. unfold _chunk_text. rewrite Hb. reflexivity.
  - intros text max_chars Hpos. unfold _chunk_text.
    destruct (blank text); [eauto|].
    destruct (chunk_paragraphs_returns
                (map strip (filter (fun p => truthy (strip p)) (split_paragraphs text)))
                [] Hpos) as [cs ->].
    eauto.
Qed.

End ChunkerFacts.

(** A standard library cut down to ASCII: no wrapping of long sentences,
    ASCII letters and digits. *)
Definition ascii_lib : PyLib :=
  {| wrap_words := fun s _ => [s];
     isalnum := fun c =>
       ((48 <=? c) && (c <=? 57) || (65 <=? c) && (c <=? 90)
        || (97 <=? c) && (c <=? 122))%N |}.

(** A sixty-character paragraph with surrounding blanks, and a short one. *)
Definition sample_text : str :=
  lit "  The quick brown fox jumps over the lazy dog near the river.  " ++
  [NL; NL] ++ lit "too short".

Lemma chunk_text_drops_noise_witness :
  Forall (fun c => MIN_CHUNK_CHARS <= len (strip c) /\ blank c = false)
    [lit "The quick brown fox jumps over the lazy dog near the river."]
  /\ @_chunk_text ascii_lib (lit "   ") 800 = Returned []
  /\ exists chunks, @_chunk_text ascii_lib sample_text 800 = Returned chunks.
Proof.
  pose proof (@chunk_text_drops_noise ascii_lib) as [H1 [H2 H3]].
  split; [|split].
  - apply (H1 sample_text 800). vm_compute. reflexivity.
  - apply H2. vm_compute. reflexivity.
  - apply H3. lia.
Defined.

End TextUtilsFacts.

(** ** Properties of the cache *)

Module CacheFacts.
Import Py PyFacts CacheModel.

(** *** Keys *)

Definition COLON : char := 58%N.

Lemma hex_digit_not_colon (n : Z) : Hashlib.hex_digit n <> COLON.
Proof.
  unfold Hashlib.hex_digit, COLON. intros H.
  destruct (n <? 10) eqn:E; [apply Z.ltb_lt in E | apply Z.ltb_ge in E].
  - remember (48 + n) as m eqn:Hm. destruct m as [|p|p]; cbn in H;
      try discriminate. injection H as ->. lia.
  - remember (87 + n) as m eqn:Hm. destruct m as [|p|p]; cbn in H;
      try discriminate. injection H as ->. lia.
Qed.

Lemma hexdigest_no_colon (data : list Z) :
  ~ In COLON (Hashlib.md5_hexdigest data).
Proof.
  unfold Hashlib.md5_hexdigest. intros H. apply in_flat_map in H.
  destruct H as [b [_ H]]. cbn in H.
  destruct H as [H|[H|[]]]; revert H; apply hex_digit_not_colon.
Qed.

Lemma startswith_In (s p : str) (c : char) :
  startswith s p = true -> In c p -> In c s.
Proof.
  intros H Hin. apply startswith_iff in H. destruct H as [rest ->].
  apply in_or_app. now left.
Qed.

(** A key built for namespace [ns'] lies under the prefix of namespace [ns]
    exactly when [ns'] is [ns] or extends it past a colon. *)
Lemma namespace_under (h : str) (ns ns' : str) :
  ~ In COLON h ->
  startswith (ns' ++ COLON :: h) (ns ++ [COLON]) = true
  <-> ns' = ns \/ startswith ns' (ns ++ [COLON]) = true.
Proof.
  intros Hh. revert ns'. induction ns as [|x ns IH]; intros ns'.
  - destruct ns' as [|y ns']; cbn.
    + split; [now left | reflexivity].
    + rewrite !andb_true_r. split; [now right|].
      intros [H|H]; [discriminate | exact H].
  - destruct ns' as [|y ns'].
    + split.
      * cbn. intros H. apply andb_true_iff in H. destruct H as [_ H].
        exfalso. apply Hh. apply (startswith_In _ _ _ H).
        apply in_or_app. right. now left.
      * intros [H|H]; discriminate.
    + cbn [app startswith]. rewrite !andb_true_iff, IH. split.
      * intros [Hx [H|H]].
        -- apply N.eqb_eq in Hx. left. now subst.
        -- right. now split.
      * intros [H|[Hx H]].
        -- injection H as -> ->. split; [apply N.eqb_refl | now left].
        -- split; [exact Hx | now right].
Qed.

Lemma lit_colon : lit ":" = [COLON].
Proof. reflexivity. Qed.

Lemma key_under_prefix (ns ns' h : str) :
  startswith (key_prefix ns' ++ h) (key_prefix ns)
  = startswith (ns' ++ COLON :: h) (ns ++ [COLON]).
Proof.
  unfold key_prefix. rewrite <- !app_assoc.
  exact (startswith_app_inv (lit "bookvision:") (ns ++ [COLON]) (ns' ++ COLON :: h)).
Qed.

Lemma make_key_under (ns ns' query key : str) :
  _make_key ns' query = Returned key ->
  startswith key (key_prefix ns) = true
  <-> ns' = ns \/ startswith ns' (ns ++ lit ":") = true.
Proof.
  unfold _make_key. destruct (Hashlib.encode query) as [data|e]; [|discriminate].
  intros H.
  assert (Hk : key = key_prefix ns' ++ Hashlib.md5_hexdigest data) by congruence.
  rewrite Hk, key_under_prefix, lit_colon.
  apply namespace_under, hexdigest_no_colon.
Qed.

Section CacheProps.

Variable value : Type.
Variable json_dumps : value -> outcome str.
Variable json_loads : str -> outcome (option value).
Variable CACHE_TTL : Z.
Variable glob_match : str -> str -> bool.

Local Notation "'Cache'" := (CacheModel.Cache value).
Local Notation "'reach'" :=
  (reachable_cache json_dumps json_loads CACHE_TTL glob_match).

Ltac run := unfold bind, lift, get_self, put_self, ret; cbn [fst snd].

Lemma get_reads_only (c : Cache) prefix query :
  snd (get json_loads prefix query c) = c.
Proof.
  unfold get. run. destruct (_make_key prefix query); [|reflexivity].
  destruct (redis_client c) as [r|]; [|reflexivity].
  destruct (redis_get r a) as [[cached|]|e]; try reflexivity.
  destruct (truthy cached); [|reflexivity].
  destruct (json_loads cached); reflexivity.
Qed.

Lemma memory_store_run (c : Cache) key (v : value) :
  memory_store key v c
  = (Returned tt,
     {| redis_client := redis_client c;
        memory_cache := bounded (dict_set (memory_cache c) key v) |}).
Proof.
  unfold memory_store, bind, get_self, put_self, bounded. cbv zeta.
  destruct (len _ >? 1000); [|reflexivity]. now rewrite dict_del_oldest.
Qed.

(** [ttl or CACHE_TTL] *)
Definition effective_ttl (ttl : option Z) : Z :=
  match ttl with
  | Some t => if t =? 0 then CACHE_TTL else t
  | None => CACHE_TTL
  end.

(** The durable tier takes the entry: it is attached, the value serialises,
    the server answers and accepts the expiry. *)
Definition taken (c : Cache) (v : value) (ttl : option Z) : bool :=
  match redis_client c, json_dumps v with
  | Some r, Returned _ => reachable r && (0 <? effective_ttl ttl)
  | _, _ => false
  end.

(** The cache after the fallback took the entry. *)
Definition fallen_back (c : Cache) (key : str) (v : value) : Cache :=
  {| redis_client := redis_client c;
     memory_cache := bounded (dict_set (memory_cache c) key v) |}.

(** [set] on a query whose key is [key]. *)
Lemma set_run (c : Cache) prefix query (v : value) ttl key :
  _make_key prefix query = Returned key ->
  set json_dumps CACHE_TTL prefix query v ttl c
  = (Returned tt,
     match redis_client c, json_dumps v with
     | Some r, Returned text =>
         if (reachable r && (0 <? effective_ttl ttl))%bool then
           {| redis_client :=
                Some {| reachable := reachable r;
                        keyspace := fun k => if str_eqb k key then Some text
                                             else keyspace r k |};
              memory_cache := memory_cache c |}
         else fallen_back c key v
     | _, _ => fallen_back c key v
     end).
Proof.
  intros Hkey. unfold set, bind at 1, lift. rewrite Hkey.
  unfold bind at 1, get_self. fold (effective_ttl ttl). unfold fallen_back.
  destruct (redis_client c) as [r|] eqn:Hr.
  - destruct (json_dumps v) as [text|e].
    + unfold redis_setex.
      destruct (reachable r && (0 <? effective_ttl ttl))%bool; [reflexivity|].
      now rewrite memory_store_run, Hr.
    + now rewrite memory_store_run, Hr.
  - now rewrite memory_store_run, Hr.
Qed.

Lemma set_raises (c : Cache) prefix query (v : value) ttl e :
  _make_key prefix query = Raised e ->
  set json_dumps CACHE_TTL prefix query v ttl c = (Raised e, c).
Proof. intros Hkey. unfold set, bind, lift. now rewrite Hkey. Qed.

(** What [set] makes of the fallback, by whether the durable tier took the
    entry. *)
Lemma set_memory (c : Cache) prefix query (v : value) ttl key :
  _make_key prefix query = Returned key ->
  memory_cache (snd (set json_dumps CACHE_TTL prefix query v ttl c))
  = if taken c v ttl then memory_cache c
    else bounded (dict_set (memory_cache c) key v).
Proof.
  intros Hkey. rewrite (@set_run c prefix query v ttl key Hkey). cbn [snd].
  unfold taken.
  destruct (redis_client c) as [r|]; [|reflexivity].
  destruct (json_dumps v) as [text|e]; [|reflexivity].
  now destruct (reachable r && (0 <? effective_ttl ttl))%bool.
Qed.

Lemma bounded_len (d : dict value) :
  len d <= 1001 -> len (bounded d) <= 1000.
Proof.
  intros Hd. unfold bounded. destruct (len d >? 1000) eqn:E.
  - rewrite skipn_len. lia.
  - rewrite Z.gtb_ltb in E. apply Z.ltb_ge in E. exact E.
Qed.

Lemma clear_memory_length prefix (m : dict value) :
  len (clear_memory prefix m) <= len m.
Proof.
  unfold clear_memory. destruct prefix as [[|x p]|];
    try (unfold len; cbn; lia).
  rewrite dict_del_selected. apply filter_len_le.
Qed.

Lemma reachable_bounded (c : Cache) : reach c -> len (memory_cache c) <= 1000.
Proof.
  induction 1 as [conn | c p q _ IH | c p q v ttl _ IH | c p _ IH | c r r' _ IH _].
  - cbn. lia.
  - now rewrite get_reads_only.
  - destruct (_make_key p q) as [key|e] eqn:Hkey.
    + rewrite (@set_memory c p q v ttl key Hkey).
      destruct (taken c v ttl); [exact IH|]. apply bounded_len.
      pose proof (dict_set_length (memory_cache c) key v). lia.
    + now rewrite (@set_raises c p q v ttl e Hkey).
  - cbn. pose proof (clear_memory_length p (memory_cache c)). lia.
  - exact IH.
Qed.

Lemma memory_lookup_get (c : Cache) key :
  memory_lookup c key = dict_get (memory_cache c) key.
Proof.
  unfold memory_lookup, dict_mem. now destruct (dict_get (memory_cache c) key).
Qed.

(** What [get] makes of a text the server returned: the decoded value, or
    the fallback's answer when the text is empty or does not decode. *)
Definition decoded (text : str) (fallback : option value) : option value :=
  if truthy text then
    match json_loads text with
    | Returned loaded => loaded
    | Raised _ => fallback
    end
  else fallback.

Lemma get_result (c : Cache) prefix query :
  fst (get json_loads prefix query c)
  = match _make_key prefix query with
    | Raised e => Raised e
    | Returned key =>
        Returned
          match redis_client c with
          | Some r =>
              match redis_get r key with
              | Returned (Some cached) =>
                  decoded cached (dict_get (memory_cache c) key)
              | _ => dict_get (memory_cache c) key
              end
          | None => dict_get (memory_cache c) key
          end
    end.
Proof.
  unfold get, decoded. run.
  destruct (_make_key prefix query) as [key|e]; [|reflexivity].
  rewrite memory_lookup_get.
  destruct (redis_client c) as [r|]; [|reflexivity].
  destruct (redis_get r key) as [[cached|]|e]; try reflexivity.
  destruct (truthy cached); [|reflexivity].
  destruct (json_loads cached); reflexivity.
Qed.

(** C9. After every [set] on a reachable cache the fallback store holds at
    most 1000 entries.  When the durable tier takes the entry the fallback is
    as it was.  Otherwise the entry is stored in the fallback, where it can be
    found, and when that makes 1001 entries exactly the 100 oldest in
    insertion order are dropped, the other 901 keeping their order.  A query
    that cannot be encoded changes nothing.  No expiry is involved: without a
    durable tier the [ttl] argument has no effect at all, and [get] removes
    nothing. *)
Theorem set_bounds_fallback_fifo (c : Cache) prefix query (v : value) ttl :
  reach c ->
  let c' := snd (set json_dumps CACHE_TTL prefix query v ttl c) in
  len (memory_cache c') <= 1000
  /\ (forall key, _make_key prefix query = Returned key ->
        let stored := dict_set (memory_cache c) key v in
        if taken c v ttl then memory_cache c' = memory_cache c
        else dict_get (memory_cache c') key = Some v
             /\ (len stored <= 1000 -> memory_cache c' = stored)
             /\ (1000 < len stored ->
                 len stored = 1001
                 /\ memory_cache c' = skipn 100 stored
                 /\ len (memory_cache c') = 901))
  /\ (forall e, _make_key prefix query = Raised e -> c' = c)
  /\ (redis_client c = None ->
      forall ttl', set json_dumps CACHE_TTL prefix query v ttl' c
                   = set json_dumps CACHE_TTL prefix query v ttl c)
  /\ (forall p q, snd (get json_loads p q c') = c').
Proof.
  intros Hreach c'. pose proof (reachable_bounded Hreach) as Hb.
  split; [|split; [|split; [|split]]].
  - apply reachable_bounded. subst c'. now constructor.
  - intros key Hkey stored. subst c'.
    rewrite (@set_memory c prefix query v ttl key Hkey).
    destruct (taken c v ttl); [reflexivity|]. fold stored.
    pose proof (dict_set_length (memory_cache c) key v) as Hlen.
    fold stored in Hlen.
    split; [exact (@stored_is_found value (memory_cache c) key v Hb)|].
    unfold bounded. split.
    + intros Hle. destruct (len stored >? 1000) eqn:E; [|reflexivity].
      rewrite Z.gtb_ltb in E. apply Z.ltb_lt in E. lia.
    + intros Hgt. destruct (len stored >? 1000) eqn:E.
      * split; [lia|]. split; [reflexivity|]. rewrite skipn_len. lia.
      * rewrite Z.gtb_ltb in E. apply Z.ltb_ge in E. lia.
  - intros e Hkey. subst c'. now rewrite (@set_raises c prefix query v ttl e Hkey).
  - intros Hnone ttl'. unfold set, bind, lift, get_self.
    destruct (_make_key prefix query) as [key|e]; [|reflexivity].
    now rewrite Hnone.
  - intros p q. apply get_reads_only.
Qed.

(** *** Clearing by prefix *)

(** The characters the server's glob matcher gives a meaning to outside a
    bracket expression. *)
Definition is_glob_meta (ch : char) : bool :=
  (N.eqb ch 42 || N.eqb ch 63 || N.eqb ch 91 || N.eqb ch 92)%bool.

Definition glob_free (s : str) : bool :=
  forallb (fun ch => negb (is_glob_meta ch)) s.

(** What is used of the server's matcher: a pattern made of literal
    characters followed by a star matches the keys that start with the
    literal part. *)
Hypothesis glob_literal_star :
  forall p k, glob_free p = true -> glob_match (p ++ lit "*") k = startswith k p.

Lemma glob_free_key_prefix (ns : str) :
  glob_free ns = true -> glob_free (key_prefix ns) = true.
Proof.
  intros H. unfold glob_free, key_prefix. rewrite !forallb_app.
  fold (glob_free ns). rewrite H. reflexivity.
Qed.

Lemma clear_memory_prefix (ns : str) (m : dict value) :
  ns <> [] ->
  clear_memory (Some ns) m
  = filter (fun kv => negb (startswith (fst kv) (key_prefix ns))) m.
Proof.
  intros Hns. destruct ns as [|x ns]; [contradiction|].
  unfold clear_memory. apply dict_del_selected.
Qed.

Lemma clear_redis_prefix (ns : str) (r : Redis) :
  ns <> [] -> glob_free ns = true ->
  reachable (clear_redis glob_match (Some ns) r) = reachable r
  /\ forall k, keyspace (clear_redis glob_match (Some ns) r) k
              = if reachable r && startswith k (key_prefix ns)
                then None else keyspace r k.
Proof.
  intros Hns Hfree. destruct ns as [|x ns]; [contradiction|].
  unfold clear_redis, redis_delete_matching.
  destruct (reachable r) eqn:E; cbn [andb reachable keyspace]; rewrite ?E.
  - split; [reflexivity|]. intros k.
    now rewrite (glob_literal_star _ k (glob_free_key_prefix _ Hfree)).
  - split; reflexivity.
Qed.

(** C7, as the code has it.  For a non-empty namespace [ns] (without glob
    characters when a durable tier is attached), [clear(ns)] removes from the
    fallback exactly the entries whose key starts with [bookvision:ns:], and
    the same from the durable tier when the server answers; an entry under
    another namespace that does not itself begin with [ns:] is retrieved by
    [get] as before; and nothing remains retrievable under [ns] when the
    durable tier, if any, answered. *)
Theorem clear_removes_prefix_only (c : Cache) (ns : str) :
  ns <> [] ->
  (redis_client c <> None -> glob_free ns = true) ->
  let c' := snd (clear glob_match (Some ns) c) in
  memory_cache c'
  = filter (fun kv => negb (startswith (fst kv) (key_prefix ns))) (memory_cache c)
  /\ (forall r, redis_client c = Some r ->
        exists r', redis_client c' = Some r' /\ reachable r' = reachable r /\
          forall k, keyspace r' k
                    = if reachable r && startswith k (key_prefix ns)
                      then None else keyspace r k)
  /\ (redis_client c = None -> redis_client c' = None)
  /\ (forall ns' query,
        ns' <> ns -> startswith ns' (ns ++ lit ":") = false ->
        fst (get json_loads ns' query c') = fst (get json_loads ns' query c))
  /\ (forall query v,
        (forall r, redis_client c = Some r -> reachable r = true) ->
        fst (get json_loads ns query c') <> Returned (Some v)).
Proof.
  intros Hns Hfree c'.
  assert (Hmem : memory_cache c'
            = filter (fun kv => negb (startswith (fst kv) (key_prefix ns)))
                (memory_cache c)).
  { subst c'. unfold clear. run. cbn. now apply clear_memory_prefix. }
  assert (Hred : forall r, redis_client c = Some r ->
            exists r', redis_client c' = Some r' /\ reachable r' = reachable r /\
              forall k, keyspace r' k
                        = if reachable r && startswith k (key_prefix ns)
                          then None else keyspace r k).
  { intros r Hr. subst c'. unfold clear. run. cbn. rewrite Hr. cbn.
    eexists. split; [reflexivity|].
    apply clear_redis_prefix; [exact Hns|]. apply Hfree. congruence. }
  assert (Hnone : redis_client c = None -> redis_client c' = None).
  { intros Hn. subst c'. unfold clear. run. cbn. now rewrite Hn. }
  split; [exact Hmem|]. split; [exact Hred|]. split; [exact Hnone|]. split.
  - intros ns' query Hne Hext. rewrite !get_result.
    destruct (_make_key ns' query) as [key|e] eqn:Hkey; [|reflexivity].
    assert (Hout : startswith key (key_prefix ns) = false).
    { destruct (startswith key (key_prefix ns)) eqn:E; [|reflexivity].
      apply (make_key_under ns _ _ Hkey) in E. destruct E as [E|E]; congruence. }
    assert (Hlook : dict_get (memory_cache c') key = dict_get (memory_cache c) key).
    { rewrite Hmem.
      rewrite (dict_get_filter (memory_cache c)
                 (fun k => startswith k (key_prefix ns)) key).
      now rewrite Hout. }
    rewrite Hlook. f_equal.
    destruct (redis_client c) as [r|] eqn:Hr.
    + destruct (Hred r eq_refl) as [r' [-> [Hreach Hks]]].
      unfold redis_get. rewrite Hreach, Hks, Hout, andb_false_r. reflexivity.
    + now rewrite (Hnone eq_refl).
  - intros query v Hup. rewrite get_result.
    destruct (_make_key ns query) as [key|e] eqn:Hkey; [|discriminate].
    assert (Hin : startswith key (key_prefix ns) = true).
    { apply (make_key_under ns _ _ Hkey). now left. }
    assert (Hlook : dict_get (memory_cache c') key = None).
    { rewrite Hmem.
      rewrite (dict_get_filter (memory_cache c)
                 (fun k => startswith k (key_prefix ns)) key).
      now rewrite Hin. }
    rewrite Hlook.
    destruct (redis_client c) as [r|] eqn:Hr.
    + destruct (Hred r eq_refl) as [r' [-> [Hreach Hks]]].
      unfold redis_get. rewrite Hreach, Hks, Hin, (Hup r eq_refl). discriminate.
    + rewrite (Hnone eq_refl). discriminate.
Qed.

End CacheProps.

(** *** Concrete caches *)

(** A matcher that reads a trailing star as "any suffix". *)
Definition star_suffix_match (pattern key : str) : bool :=
  startswith key (removelast pattern).

Lemma star_suffix_match_literal (p k : str) :
  glob_free p = true -> star_suffix_match (p ++ lit "*") k = startswith k p.
Proof.
  intros _. unfold star_suffix_match.
  change (lit "*") with [42%N]. now rewrite removelast_last.
Qed.

(** JSON for integer documents: [json.dumps] writes the decimal digits, and
    [json.loads] reads them back, [null] as [None]. *)
Fixpoint decimal (fuel : nat) (n : N) (acc : str) : str :=
  match fuel with
  | O => acc
  | S fuel' =>
      let acc' := (48 + n mod 10)%N :: acc in
      if (n / 10 =? 0)%N then acc' else decimal fuel' (n / 10)%N acc'
  end.

Definition int_dumps (z : Z) : outcome str :=
  let digits := decimal (S (N.to_nat (N.size (Z.abs_N z)))) (Z.abs_N z) [] in
  Returned (if z <? 0 then 45%N :: digits else digits).

Fixpoint read_decimal (s : str) (acc : N) : option N :=
  match s with
  | [] => Some acc
  | ch :: rest =>
      if ((48 <=? ch) && (ch <=? 57))%N
      then read_decimal rest (10 * acc + (ch - 48))%N
      else None
  end.

Definition int_loads (text : str) : outcome (option Z) :=
  if str_eqb text (lit "null") then Returned None
  else
    match text with
    | [] => Raised (ValueError "Expecting value")
    | ch :: rest =>
        if N.eqb ch 45 then
          match rest, read_decimal rest 0 with
          | _ :: _, Some n => Returned (Some (- Z.of_N n))
          | _, _ => Raised (ValueError "Expecting value")
          end
        else
          match read_decimal text 0 with
          | Some n => Returned (Some (Z.of_N n))
          | None => Raised (ValueError "Expecting value")
          end
    end.

(** A server that answers and holds nothing yet. *)
Definition empty_server : Redis :=
  {| reachable := true; keyspace := fun _ => None |}.

(** The fallback filled by [n] calls of [set], one query per number. *)
Fixpoint filled (n : nat) : Cache Z :=
  match n with
  | O => @init Z None
  | S n' =>
      snd (set int_dumps 3600 (lit "query") [N.of_nat n'] (Z.of_nat n') None
             (filled n'))
  end.

Lemma filled_reachable (n : nat) :
  reachable_cache int_dumps int_loads 3600 star_suffix_match (filled n).
Proof. induction n as [|n IH]; cbn [filled]; now constructor. Qed.

Definition key_of_1000 : str :=
  Eval vm_compute in
    match _make_key (lit "query") [1000%N] with
    | Returned key => key
    | Raised _ => []
    end.

(** At capacity: after a thousand calls, the next one pushes out the
    hundred oldest entries. *)
Lemma set_bounds_fallback_fifo_witness :
  let c := filled 1000 in
  let c' := snd (set int_dumps 3600 (lit "query") [1000%N] 1000 None c) in
  len (memory_cache c) = 1000
  /\ len (memory_cache c') = 901
  /\ memory_cache c' = skipn 100 (dict_set (memory_cache c) key_of_1000 1000)
  /\ map snd (firstn 2 (memory_cache c')) = [100; 101]
  /\ dict_get (memory_cache c') key_of_1000 = Some 1000.
Proof.
  intros c c'.
  assert (Hlen : len (memory_cache c) = 1000) by (vm_compute; reflexivity).
  assert (Hkey : _make_key (lit "query") [1000%N] = Returned key_of_1000)
    by (vm_compute; reflexivity).
  destruct (@set_bounds_fallback_fifo Z int_dumps int_loads 3600
              star_suffix_match c (lit "query") [1000%N] 1000 None
              (filled_reachable 1000))
    as [_ [Hcases _]].
  specialize (Hcases key_of_1000 Hkey). cbv zeta in Hcases.
  assert (Htaken : taken int_dumps 3600 c 1000 None = false)
    by (vm_compute; reflexivity).
  rewrite Htaken in Hcases. destruct Hcases as [Hfound [_ Hfull]].
  destruct Hfull as [_ [Hcut Hleft]]; [vm_compute; reflexivity|].
  fold c' in Hcut, Hleft, Hfound.
  split; [exact Hlen|]. split; [exact Hleft|]. split; [exact Hcut|].
  split; [vm_compute; reflexivity | exact Hfound].
Defined.

Lemma clear_removes_prefix_only_witness :
  let c := snd (set int_dumps 3600 (lit "b") (lit "q") 7 None
                  (@init Z (Some empty_server))) in
  let c' := snd (clear star_suffix_match (Some (lit "a")) c) in
  lit "a" <> []
  /\ glob_free (lit "a") = true
  /\ fst (get int_loads (lit "b") (lit "q") c')
     = fst (get int_loads (lit "b") (lit "q") c).
Proof.
  intros c c'.
  assert (Hns : lit "a" <> []) by discriminate.
  assert (Hfree : redis_client c <> None -> glob_free (lit "a") = true)
    by reflexivity.
  split; [exact Hns|]. split; [reflexivity|].
  apply (@clear_removes_prefix_only Z int_loads star_suffix_match
           star_suffix_match_literal c (lit "a") Hns Hfree).
  - vm_compute. discriminate.
  - reflexivity.
Defined.

(** C7 as stated fails: an entry stored under the namespace [a:b] has a key
    beginning with [bookvision:a:], so clearing the different namespace [a]
    removes it. *)
Lemma clear_prefix_reaches_other_namespace :
  let c := snd (set int_dumps 3600 (lit "a:b") (lit "q") 7 None (@init Z None)) in
  let c' := snd (clear star_suffix_match (Some (lit "a")) c) in
  lit "a:b" <> lit "a"
  /\ fst (get int_loads (lit "a:b") (lit "q") c) = Returned (Some 7)
  /\ fst (get int_loads (lit "a:b") (lit "q") c') = Returned None.
Proof.
  split; [vm_compute; discriminate|]. split; vm_compute; reflexivity.
Qed.

End CacheFacts.

(** ** Properties of the vector store *)

Module EmbedStoreFacts.
Import Py PyFacts Progress EmbedStoreModel.

Section StoreProps.
Context `{Backend} `{FloatArith} `{Disk World}.

Ltac run :=
  unfold bind, ret, lift, get_store, put_store, report; cbn [fst snd].

(** Everything but the progress log is the same in both worlds. *)
Definition quiet (w w' : World) : Prop :=
  embed_store w' = embed_store w /\ VEC_FILE w' = VEC_FILE w
  /\ META_FILE w' = META_FILE w /\ page_image_dirs w' = page_image_dirs w.

Lemma quiet_refl w : quiet w w.
Proof. repeat split. Qed.

Lemma quiet_trans w1 w2 w3 : quiet w1 w2 -> quiet w2 w3 -> quiet w1 w3.
Proof.
  intros [A1 [B1 [C1 D1]]] [A2 [B2 [C2 D2]]].
  repeat split; congruence.
Qed.

Lemma report_quiet cb p msg w : quiet w (snd (report cb p msg w)).
Proof. unfold report. destruct cb; cbn; repeat split. Qed.

(** The batches, laid end to end, are the embeddings of the chunks in order;
    embedding touches nothing but the progress log. *)
Lemma embed_batches_spec fuel cb total i remaining w :
  (List.length remaining <= fuel)%nat ->
  exists batches w',
    embed_batches fuel cb total i remaining w = (Returned batches, w')
    /\ List.concat batches = map encode remaining
    /\ quiet w w'.
Proof.
  revert i remaining w.
  induction fuel as [|fuel IH]; intros i remaining w Hfuel.
  - destruct remaining; [|cbn in Hfuel; lia].
    exists [], w. repeat split.
  - destruct remaining as [|c rest].
    + exists [], w. repeat split.
    + set (rem := c :: rest) in *.
      assert (Hshort : (List.length (skipn 100 rem) <= fuel)%nat).
      { rewrite length_skipn. subst rem. cbn [List.length] in *. lia. }
      cbn [embed_batches]. subst rem. fold (skipn 100 (c :: rest)).
      set (w1 := snd ((if (cb && (0 <? i))%bool
                       then report cb (65 + int_scaled i total 15)
                              (EmbeddingBatch (i / 100 + 1))
                       else ret tt) w)).
      assert (Hq1 : quiet w w1).
      { subst w1. destruct (cb && (0 <? i))%bool;
          [apply report_quiet | apply quiet_refl]. }
      destruct (IH (i + 100) (skipn 100 (c :: rest)) w1 Hshort)
        as [bs [w2 [E [Hcat Hq2]]]].
      exists (map encode (firstn 100 (c :: rest)) :: bs), w2. split.
      * unfold bind at 1.
        replace ((if (cb && (0 <? i))%bool
                  then report cb (65 + int_scaled i total 15)
                         (EmbeddingBatch (i / 100 + 1))
                  else ret tt) w) with (Returned tt, w1)
          by (subst w1; destruct (cb && (0 <? i))%bool; reflexivity).
        unfold bind. rewrite E. reflexivity.
      * split; [|exact (quiet_trans Hq1 Hq2)].
        cbn [List.concat]. rewrite Hcat. apply firstn_skipn_map.
Qed.

(** The entries of a batch that pass the blank filter. *)
Definition valid_entries (chunks : list str) (metadata_list : list metadata)
    : list (str * metadata) :=
  filter (fun cm => has_text (fst cm)) (combine chunks metadata_list).

Definition batch_refused (chunks : list str) (metadata_list : list metadata)
    : bool :=
  (match chunks with [] => true | _ => false end
   || negb (len chunks =? len metadata_list))%bool.

(** The index a call works on: the store's, or a new one of the store's
    width. *)
Definition index_in_use (self : EmbedStore) : IndexFlatIP :=
  match index self with Some ix => ix | None => new_index (dim self) end.

Definition grown (self : EmbedStore) (rows : list vec) (records : list metadata)
    : EmbedStore :=
  {| dim := dim self;
     index := Some {| d := d (index_in_use self);
                      xb := xb (index_in_use self) ++ rows |};
     meta := meta self ++ records |}.

Definition index_made (self : EmbedStore) : EmbedStore :=
  {| dim := dim self; index := Some (index_in_use self); meta := meta self |}.

Lemma ensure_index_spec w :
  ensure_index w
  = (Returned (index_in_use (embed_store w)),
     match index (embed_store w) with
     | Some _ => w
     | None => with_store w (index_made (embed_store w))
     end).
Proof.
  unfold ensure_index, index_made, index_in_use. run.
  destruct (index (embed_store w)); reflexivity.
Qed.

(** Where an [add] or [add_batch] whose rows the index refuses leaves the
    world: as it was, but for the index it may have just created. *)
Definition after_refusal (self : EmbedStore) (w : World) : World :=
  match index self with
  | Some _ => w
  | None => with_store w (index_made self)
  end.

Lemma add_run chunk_text md w :
  add chunk_text md w
  = if blank chunk_text then (Returned tt, w)
    else if model_dim =? d (index_in_use (embed_store w)) then
      _save (with_store w
               (grown (embed_store w) [_normalize (encode chunk_text)]
                  [dict_set md CHUNK_TEXT (PStr chunk_text)]))
    else (Raised AssertionError, after_refusal (embed_store w) w).
Proof.
  unfold add. destruct (blank chunk_text); [reflexivity|].
  unfold bind at 1. rewrite ensure_index_spec.
  unfold bind at 1, lift, index_add, after_refusal.
  destruct (model_dim =? d (index_in_use (embed_store w))) eqn:E; [|reflexivity].
  run. unfold grown, index_in_use.
  destruct (index (embed_store w)); reflexivity.
Qed.

Lemma add_batch_run chunks metadata_list cb w :
  batch_refused chunks metadata_list = false ->
  valid_entries chunks metadata_list <> [] ->
  exists w4,
    quiet w w4
    /\ add_batch chunks metadata_list cb w
       = if model_dim =? d (index_in_use (embed_store w)) then
           _save (snd (report cb 90 SavingIndex
                         (with_store w4
                            (grown (embed_store w)
                               (map (fun cm => normalize_row (encode (fst cm)))
                                  (valid_entries chunks metadata_list))
                               (map (fun cm => dict_set (snd cm) CHUNK_TEXT
                                                 (PStr (fst cm)))
                                  (valid_entries chunks metadata_list))))))
         else (Raised AssertionError, after_refusal (embed_store w) w4).
Proof.
  unfold add_batch, batch_refused, valid_entries. intros -> Hvalid.
  set (valid := filter _ _) in *.
  destruct (map fst valid) as [|c0 cs0] eqn:Hmap;
    [destruct valid; [contradiction | discriminate]|].
  rewrite <- Hmap.
  unfold bind at 1.
  set (w1 := snd (report cb 65 (GeneratingEmbeddings (len (map fst valid))) w)).
  replace (report cb 65 (GeneratingEmbeddings (len (map fst valid))) w)
    with (Returned tt, w1) by reflexivity.
  assert (Hq1 : quiet w w1) by apply report_quiet.
  destruct (@embed_batches_spec (List.length (map fst valid)) cb
              (len (map fst valid)) 0 (map fst valid) w1 (le_n _))
    as [bs [w2 [E [Hcat Hq2]]]].
  unfold bind at 1. rewrite E, Hcat.
  unfold bind at 1.
  set (w3 := snd (report cb 80 NormalizingEmbeddings w2)).
  replace (report cb 80 NormalizingEmbeddings w2) with (Returned tt, w3)
    by reflexivity.
  assert (Hq3 : quiet w2 w3) by apply report_quiet.
  unfold bind at 1.
  set (w4 := snd (report cb 85 AddingToIndex w3)).
  replace (report cb 85 AddingToIndex w3) with (Returned tt, w4) by reflexivity.
  assert (Hq4 : quiet w3 w4) by apply report_quiet.
  assert (Hq : quiet w w4)
    by exact (quiet_trans (quiet_trans (quiet_trans Hq1 Hq2) Hq3) Hq4).
  exists w4. split; [exact Hq|]. destruct Hq as [Hstore _].
  unfold bind at 1. rewrite ensure_index_spec, Hstore.
  unfold bind at 1, lift, index_add, after_refusal.
  destruct (model_dim =? d (index_in_use (embed_store w))) eqn:Edim;
    [|reflexivity].
  unfold bind at 1, get_store. cbn [fst snd].
  unfold bind at 1, put_store. unfold bind at 1.
  rewrite combine_map_snd_fst, !map_map. cbn [fst snd].
  unfold grown, index_in_use.
  destruct (index (embed_store w));
    cbn [with_store embed_store dim meta index_made]; rewrite ?Hstore;
    reflexivity.
Qed.

Lemma save_store w : embed_store (snd (_save w)) = embed_store w.
Proof. reflexivity. Qed.

Lemma report_store cb p msg w :
  embed_store (snd (report cb p msg w)) = embed_store w.
Proof. unfold report. now destruct cb. Qed.

(** *** Lockstep growth *)

(** Row [i] is the embedding of the text recorded in record [i]. *)
Definition paired (rows : list vec) (records : list metadata) : Prop :=
  Forall2
    (fun v m => exists c, dict_get m CHUNK_TEXT = Some (PStr c)
                          /\ (v = _normalize (encode c) \/ v = normalize_row (encode c)))
    rows records.

(** [s'] is [s] with rows and records appended pairwise at the end. *)
Definition appended (s s' : EmbedStore) : Prop :=
  exists rows records,
    vectors s' = vectors s ++ rows /\ meta s' = meta s ++ records
    /\ paired rows records.

Lemma appended_refl s : appended s s.
Proof. exists [], []. rewrite !app_nil_r. repeat split. constructor. Qed.

Lemma vectors_grown s rows records :
  vectors (grown s rows records) = vectors s ++ rows.
Proof. unfold vectors, grown, index_in_use. now destruct (index s). Qed.

Lemma appended_index_made s : appended s (index_made s).
Proof.
  exists [], []. rewrite !app_nil_r. repeat split; [|constructor].
  unfold vectors, index_made, index_in_use. now destruct (index s).
Qed.

Lemma appended_after_refusal s w w' :
  embed_store w' = s -> embed_store w = s ->
  appended s (embed_store (after_refusal s w')).
Proof.
  intros Hs' _. unfold after_refusal. destruct (index s) eqn:E.
  - rewrite Hs'. apply appended_refl.
  - cbn. apply appended_index_made.
Qed.

Lemma paired_batch (valid : list (str * metadata)) :
  paired (map (fun cm => normalize_row (encode (fst cm))) valid)
         (map (fun cm => dict_set (snd cm) CHUNK_TEXT (PStr (fst cm))) valid).
Proof.
  induction valid as [|[c m] valid IH]; cbn; constructor; [|exact IH].
  exists c. split; [apply dict_get_set_same | now right].
Qed.

Lemma perform_appends (c : call) (w : World) :
  appended (embed_store w) (embed_store (snd (perform c w))).
Proof.
  destruct c as [chunk_text md | chunks metadata_list cb]; cbn [perform].
  - rewrite add_run. destruct (blank chunk_text); [apply appended_refl|].
    destruct (model_dim =? _).
    + rewrite save_store. cbn [with_store embed_store].
      eexists _, _. split; [apply vectors_grown|]. split; [reflexivity|].
      constructor; [|constructor]. exists chunk_text.
      split; [apply dict_get_set_same | now left].
    + cbn [snd]. now apply appended_after_refusal with (w := w).
  - destruct (batch_refused chunks metadata_list) eqn:Eref.
    { unfold add_batch. unfold batch_refused in Eref. rewrite Eref.
      apply appended_refl. }
    destruct (valid_entries chunks metadata_list) as [|cm0 valid0] eqn:Eval.
    { unfold add_batch. unfold batch_refused in Eref. rewrite Eref.
      unfold valid_entries in Eval. rewrite Eval. apply appended_refl. }
    destruct (@add_batch_run chunks metadata_list cb w Eref) as [w4 [Hq ->]];
      [rewrite Eval; discriminate|].
    destruct Hq as [Hstore _]. destruct (model_dim =? _).
    + rewrite save_store, report_store. cbn [with_store embed_store].
      eexists _, _. split; [apply vectors_grown|]. split; [reflexivity|].
      apply paired_batch.
    + cbn [snd]. now apply appended_after_refusal with (w := w).
Qed.

Lemma total_chunks_vectors s : total_chunks s = len (vectors s).
Proof. unfold total_chunks, vectors, ntotal. now destruct (index s). Qed.

Lemma appended_in_step s s' :
  appended s s' -> total_chunks s = len (meta s) ->
  total_chunks s' = len (meta s').
Proof.
  intros [rows [records [Hv [Hm Hp]]]] Hs.
  rewrite total_chunks_vectors in *. rewrite Hv, Hm, !len_app, Hs.
  now rewrite (Forall2_len Hp).
Qed.

Lemma perform_all_in_step (calls : list call) (w : World) :
  total_chunks (embed_store w) = len (meta (embed_store w)) ->
  total_chunks (embed_store (perform_all calls w))
  = len (meta (embed_store (perform_all calls w))).
Proof.
  revert w. induction calls as [|c calls IH]; intros w Hw; [exact Hw|].
  cbn [perform_all]. apply IH.
  exact (appended_in_step (perform_appends c w) Hw).
Qed.

(** C1. From a store started on an empty disk, after any sequence of [add]
    and [add_batch] calls the index holds as many vectors as there are
    metadata records; and every further call leaves the vectors and the
    records already there in place and appends to both, pairwise and in the
    same order. *)
Theorem sizes_move_in_lockstep (dimension : Z) (calls : list call) :
  let w := perform_all calls (fresh_world dimension) in
  total_chunks (embed_store w) = len (meta (embed_store w))
  /\ forall c, appended (embed_store w) (embed_store (snd (perform c w))).
Proof.
  split; [|intros c; apply perform_appends].
  apply perform_all_in_step. reflexivity.
Qed.

(** *** Batches the store does not take *)

(** C3, as the code has it.  A batch whose two lists differ in length is
    dropped without an exception, and nothing changes: the store, the files
    and the progress log are as before.  With matching lengths a blank chunk
    does not fail the batch: when the index accepts the rows, the call returns
    and the store grows by the entries that are not blank. *)
Theorem add_batch_mismatch_is_dropped chunks metadata_list cb (w : World) :
  (len chunks <> len metadata_list ->
   add_batch chunks metadata_list cb w = (Returned tt, w))
  /\ (len chunks = len metadata_list ->
      model_dim = d (index_in_use (embed_store w)) ->
      let r := add_batch chunks metadata_list cb w in
      let grew := len (valid_entries chunks metadata_list) in
      fst r = Returned tt
      /\ total_chunks (embed_store (snd r)) = total_chunks (embed_store w) + grew
      /\ len (meta (embed_store (snd r))) = len (meta (embed_store w)) + grew).
Proof.
  split.
  - intros Hne. unfold add_batch.
    apply Z.eqb_neq in Hne. rewrite Hne. cbn [negb]. rewrite orb_true_r.
    reflexivity.
  - intros Heq Hdim. cbv zeta.
    destruct (batch_refused chunks metadata_list) eqn:Eref.
    { assert (Hnil : chunks = []).
      { unfold batch_refused in Eref. apply Z.eqb_eq in Heq.
        rewrite Heq in Eref. destruct chunks; [reflexivity | discriminate]. }
      subst chunks. cbn. repeat split; lia. }
    destruct (valid_entries chunks metadata_list) as [|cm0 valid0] eqn:Eval.
    { unfold add_batch. unfold batch_refused in Eref. rewrite Eref.
      unfold valid_entries in Eval. rewrite Eval. cbn. repeat split; lia. }
    destruct (@add_batch_run chunks metadata_list cb w Eref) as [w4 [Hq ->]];
      [rewrite Eval; discriminate|].
    rewrite <- Hdim, Z.eqb_refl. rewrite save_store, report_store, Eval.
    cbn [with_store embed_store fst]. split; [reflexivity|].
    rewrite !total_chunks_vectors, vectors_grown, len_app, len_map.
    split; [reflexivity|]. cbn [grown meta]. now rewrite len_app, len_map.
Qed.

(** *** Blank queries *)

(** C10. A query that is empty or only whitespace gets the empty list and the
    world, store included, is as before, whatever the index holds. *)
Theorem search_blank_query_is_empty query top_k (w : World) :
  blank query = true -> search query top_k w = (Returned [], w).
Proof.
  intros Hb. unfold search. run.
  destruct (index (embed_store w)) as [ix|]; [|reflexivity].
  destruct (ntotal ix =? 0); [reflexivity|]. now rewrite Hb.
Qed.

Lemma search_empty_index query top_k (w : World) :
  total_chunks (embed_store w) = 0 -> search query top_k w = (Returned [], w).
Proof.
  unfold total_chunks, search. run.
  destruct (index (embed_store w)) as [ix|]; [|reflexivity].
  intros ->. reflexivity.
Qed.

(** [search] reads the store and never raises. *)
Lemma search_reads_only query top_k (w : World) :
  exists results, search query top_k w = (Returned results, w).
Proof.
  unfold search. run.
  destruct (index (embed_store w)) as [ix|]; [|eauto].
  destruct (ntotal ix =? 0); [eauto|]. destruct (blank query); [eauto|].
  destruct (_ && _)%bool; eauto.
Qed.

(** A hit contributes at most one result, so there are never more results
    than the index search returned labels. *)
Lemma collect_hits_bounded (ms : list metadata) (hits : list (float * Z)) :
  len (flat_map (collect_hit ms) hits) <= len hits.
Proof.
  induction hits as [|[dist idx] hits IH]; [cbn; lia|].
  cbn [flat_map]. rewrite len_app, len_cons.
  assert (len (collect_hit ms (dist, idx)) <= 1); [|lia].
  unfold collect_hit. destruct (_ || _)%bool; [cbn; lia|].
  destruct (nth_error ms (Z.to_nat idx)); cbn; lia.
Qed.

(** With a non-blank query on a non-empty index of the model's width, the
    results are the records of the labels the index search returned, in the
    order it returned them, each with its distance as score; the ranking is
    the library's. *)
Lemma search_forwards_hits query top_k (w : World) (ix : IndexFlatIP) :
  index (embed_store w) = Some ix ->
  ntotal ix <> 0 -> blank query = false -> model_dim = d ix -> 1 <= top_k ->
  let hits :=
    index_search (d ix) (xb ix) (_normalize (encode query))
      (Z.min top_k (ntotal ix)) in
  Forall (fun hit => 0 <= snd hit < len (meta (embed_store w))) hits ->
  fst (search query top_k w)
  = Returned
      (map (fun hit => dict_set (nth (Z.to_nat (snd hit)) (meta (embed_store w)) [])
                         SCORE (PFloat (fst hit)))
         hits).
Proof.
  intros Hix Hn Hb Hd Hk hits Hin. unfold search. run. rewrite Hix.
  apply Z.eqb_neq in Hn. rewrite Hn, Hb, <- Hd, Z.eqb_refl. cbn [andb].
  assert (Hpos : (0 <? Z.min top_k (ntotal ix)) = true).
  { apply Z.ltb_lt. apply Z.eqb_neq in Hn.
    pose proof (len_nonneg (xb ix)). unfold ntotal in *. lia. }
  rewrite Hpos. cbn [fst]. f_equal. rewrite Hd. fold hits.
  induction Hin as [|[dist idx] rest Hhit _ IH]; [reflexivity|].
  cbn [flat_map map fst snd] in *. rewrite IH. unfold collect_hit.
  assert (Hlo : (idx <? 0) = false) by (apply Z.ltb_ge; lia).
  assert (Hhi : (idx >=? len (meta (embed_store w))) = false).
  { rewrite Z.geb_leb. apply Z.leb_gt. lia. }
  rewrite Hlo, Hhi. cbn [orb].
  destruct (nth_error (meta (embed_store w)) (Z.to_nat idx)) as [m|] eqn:E.
  - cbn [app]. f_equal. f_equal. symmetry. exact (nth_error_nth _ _ _ E).
  - apply nth_error_None in E. unfold len in Hhit. lia.
Qed.

(** *** Normalisation *)

(** The guard of [_normalize]: a vector whose computed norm is not above
    zero is returned as it is; any other is divided by that norm. *)
Lemma normalize_guard (v : vec) :
  _normalize v
  = if (0 <? linalg_norm v)%float then divide v (linalg_norm v) else v.
Proof. reflexivity. Qed.

(** *** Loading *)

Definition persisted_index (dimension : Z) (w : World) : IndexFlatIP :=
  match VEC_FILE w with Holds ix => ix | _ => new_index dimension end.

Definition persisted_records (w : World) : list metadata :=
  match META_FILE w with Holds ms => ms | _ => [] end.

(** What [_load] makes of the records it read, next to the index it read. *)
Definition repaired (ix : IndexFlatIP) (loaded : list metadata) : list metadata :=
  if ntotal ix >? len loaded then
    loaded ++ repeat [] (Z.to_nat (ntotal ix - len loaded))
  else if ntotal ix <? len loaded then firstn (Z.to_nat (ntotal ix)) loaded
  else loaded.

Lemma repaired_len ix loaded : len (repaired ix loaded) = ntotal ix.
Proof.
  unfold repaired. pose proof (len_nonneg (xb ix)) as Hix. fold (ntotal ix) in Hix.
  destruct (ntotal ix >? len loaded) eqn:E1.
  - rewrite Z.gtb_ltb in E1. apply Z.ltb_lt in E1.
    rewrite len_app. unfold len at 2. rewrite repeat_length. lia.
  - rewrite Z.gtb_ltb in E1. apply Z.ltb_ge in E1.
    destruct (ntotal ix <? len loaded) eqn:E2.
    + apply Z.ltb_lt in E2. unfold len at 1. rewrite length_firstn.
      unfold len in E2. lia.
    + apply Z.ltb_ge in E2. lia.
Qed.

Lemma repaired_cases ix loaded :
  (len loaded < ntotal ix ->
   repaired ix loaded = loaded ++ repeat [] (Z.to_nat (ntotal ix - len loaded)))
  /\ (ntotal ix < len loaded ->
      repaired ix loaded = firstn (Z.to_nat (ntotal ix)) loaded)
  /\ (ntotal ix = len loaded -> repaired ix loaded = loaded).
Proof.
  unfold repaired. repeat split; intros Hc.
  - destruct (ntotal ix >? len loaded) eqn:E1; [reflexivity|].
    rewrite Z.gtb_ltb in E1. apply Z.ltb_ge in E1. lia.
  - destruct (ntotal ix >? len loaded) eqn:E1.
    + rewrite Z.gtb_ltb in E1. apply Z.ltb_lt in E1. lia.
    + destruct (ntotal ix <? len loaded) eqn:E2; [reflexivity|].
      apply Z.ltb_ge in E2. lia.
  - destruct (ntotal ix >? len loaded) eqn:E1.
    + rewrite Z.gtb_ltb in E1. apply Z.ltb_lt in E1. lia.
    + destruct (ntotal ix <? len loaded) eqn:E2; [|reflexivity].
      apply Z.ltb_lt in E2. lia.
Qed.

Lemma load_files_readable dimension vec_file meta_file meta0 :
  vec_file <> Corrupt -> meta_file <> Corrupt ->
  let ix := match vec_file with Holds ix => ix | _ => new_index dimension end in
  let loaded := match meta_file with Holds ms => ms | _ => meta0 end in
  load_files dimension vec_file meta_file meta0 = Returned (ix, repaired ix loaded).
Proof.
  intros Hv Hm. cbv zeta. unfold load_files, repaired.
  destruct vec_file as [|ix|]; [| |contradiction];
    (destruct meta_file as [|ms|]; [| |contradiction]);
    repeat match goal with |- context [if ?b then _ else _] => destruct b end;
    reflexivity.
Qed.

Lemma load_files_unreadable dimension vec_file meta_file meta0 :
  vec_file = Corrupt \/ meta_file = Corrupt ->
  exists e, load_files dimension vec_file meta_file meta0 = Raised e.
Proof.
  unfold load_files. intros [->| ->]; [eauto|].
  destruct vec_file; eauto.
Qed.

Lemma file_corrupt_dec {A} (f : file A) : f = Corrupt \/ f <> Corrupt.
Proof. destruct f; [right | right | left]; congruence. Qed.

(** C6. Start-up never fails on the index files and leaves as many records
    as vectors.  When both files are readable (or absent), the index is the
    persisted one; more vectors than records pads the records with empty ones
    up to the vector count, fewer truncates the records to the vector
    count. *)
Theorem load_repairs_count_mismatch (dimension : Z) (w : World) :
  let r := __init__ dimension w in
  let self := embed_store (snd r) in
  fst r = Returned tt
  /\ total_chunks self = len (meta self)
  /\ (VEC_FILE w <> Corrupt -> META_FILE w <> Corrupt ->
      let ix := persisted_index dimension w in
      let ms := persisted_records w in
      index self = Some ix
      /\ (len ms < ntotal ix ->
          meta self = ms ++ repeat [] (Z.to_nat (ntotal ix - len ms)))
      /\ (ntotal ix < len ms -> meta self = firstn (Z.to_nat (ntotal ix)) ms)
      /\ (ntotal ix = len ms -> meta self = ms)).
Proof.
  cbv zeta. unfold __init__, _load. run.
  cbn [with_store embed_store VEC_FILE META_FILE dim meta].
  destruct (file_corrupt_dec (VEC_FILE w)) as [Hv|Hv];
    [|destruct (file_corrupt_dec (META_FILE w)) as [Hm|Hm]].
  - destruct (@load_files_unreadable dimension (VEC_FILE w) (META_FILE w) []
                (or_introl Hv))
      as [e ->].
    cbn. split; [reflexivity|]. split; [reflexivity|]. intros; contradiction.
  - destruct (@load_files_unreadable dimension (VEC_FILE w) (META_FILE w) []
                (or_intror Hm))
      as [e ->].
    cbn. split; [reflexivity|]. split; [reflexivity|]. intros; contradiction.
  - rewrite (@load_files_readable dimension (VEC_FILE w) (META_FILE w) [] Hv Hm).
    cbn [fst snd with_store embed_store index meta].
    split; [reflexivity|]. split.
    + unfold total_chunks. cbn [index]. now rewrite repaired_len.
    + intros _ _. split; [reflexivity|].
      unfold persisted_index, persisted_records.
      destruct (META_FILE w); try contradiction; apply repaired_cases.
Qed.

End StoreProps.

(** *** A concrete store *)

(** Two-dimensional rows: the length of the text and a one; norms are taken
    as one, and a search lists the first [k] labels. *)
Definition toy_backend : Backend :=
  {| vec := list Z;
     encode := fun s => [len s; 1];
     model_dim := 2;
     linalg_norm := fun _ => 1%float;
     row_norm := fun _ => 1%float;
     divide := fun v _ => v;
     index_search := fun _ _ _ k =>
       map (fun i => (1%float, Z.of_nat i)) (seq 0 (Z.to_nat k)) |}.

(** [int((a / b) * c)] without rounding. *)
Definition exact_arith : FloatArith :=
  {| int_scaled := fun a b c => (a * c) / b |}.

(** A disk that takes every write, and one that tears the records file. *)
Definition reliable_disk : Disk (@World toy_backend) :=
  {| write_index := fun _ => Done; dump_meta := fun _ => Done |}.

Definition tearing_disk : Disk (@World toy_backend) :=
  {| write_index := fun _ => Done; dump_meta := fun _ => Torn |}.

Definition toy_world : @World toy_backend := @fresh_world toy_backend 2.

Definition page_record (page : Z) : metadata := [(lit "page", PInt page)].

Definition five_chunks : list str :=
  [lit "one"; lit "two"; lit "three"; lit "four"; lit "five"].

Definition four_records : list metadata :=
  [page_record 1; page_record 2; page_record 3; page_record 4].

(** C3 as stated fails: five chunks with four records raise nothing; the call
    returns and leaves the world as it was. *)
Lemma add_batch_mismatch_raises_nothing :
  len five_chunks <> len four_records
  /\ @add_batch toy_backend exact_arith reliable_disk five_chunks four_records false toy_world
     = (Returned tt, toy_world)
  /\ forall e,
       fst (@add_batch toy_backend exact_arith reliable_disk five_chunks four_records false
              toy_world) <> Raised e.
Proof.
  split; [vm_compute; discriminate|]. split; [reflexivity|].
  intros e. vm_compute. discriminate.
Qed.

Lemma add_batch_mismatch_is_dropped_witness :
  len five_chunks <> len four_records
  /\ @add_batch toy_backend exact_arith reliable_disk five_chunks four_records true toy_world
     = (Returned tt, toy_world).
Proof.
  assert (Hne : len five_chunks <> len four_records) by (vm_compute; discriminate).
  split; [exact Hne|].
  exact (proj1 (@add_batch_mismatch_is_dropped toy_backend exact_arith reliable_disk
                  five_chunks four_records true toy_world) Hne).
Defined.

(** A store holding one entry. *)
Definition one_entry_world : @World toy_backend :=
  snd (@add toy_backend reliable_disk (lit "a first chunk of text") (page_record 1) toy_world).

Lemma search_blank_query_is_empty_witness :
  @total_chunks toy_backend (embed_store one_entry_world) = 1
  /\ blank (lit "   ") = true
  /\ @search toy_backend (lit "   ") 5 one_entry_world
     = (Returned [], one_entry_world).
Proof.
  assert (Hb : blank (lit "   ") = true) by reflexivity.
  split; [reflexivity|]. split; [exact Hb|].
  exact (@search_blank_query_is_empty toy_backend (lit "   ") 5
           one_entry_world Hb).
Defined.

(** A disk whose index holds three rows and whose metadata file holds one
    record. *)
Definition lopsided_disk : @World toy_backend :=
  @boot toy_backend
    (Holds (@mkIndex toy_backend 2 [[1; 1]; [2; 1]; [3; 1]]))
    (Holds [page_record 1]).

Lemma load_repairs_count_mismatch_witness :
  VEC_FILE lopsided_disk <> Corrupt
  /\ META_FILE lopsided_disk <> Corrupt
  /\ meta (embed_store (snd (@__init__ toy_backend 2 lopsided_disk)))
     = [page_record 1; []; []].
Proof.
  assert (Hv : VEC_FILE lopsided_disk <> Corrupt) by discriminate.
  assert (Hm : META_FILE lopsided_disk <> Corrupt) by discriminate.
  split; [exact Hv|]. split; [exact Hm|].
  destruct (@load_repairs_count_mismatch toy_backend 2 lopsided_disk)
    as [_ [_ Hrepair]].
  destruct (Hrepair Hv Hm) as [_ [Hpad _]].
  rewrite Hpad; [reflexivity | vm_compute; reflexivity].
Defined.

(** Fewer vectors than records: the records are cut to the vector count. *)
Example load_truncates_extra_records :
  let disk :=
    @boot toy_backend (Holds (@mkIndex toy_backend 2 [[1; 1]]))
      (Holds [page_record 1; page_record 2; page_record 3]) in
  meta (embed_store (snd (@__init__ toy_backend 2 disk))) = [page_record 1]
  /\ total_chunks (embed_store (snd (@__init__ toy_backend 2 disk))) = 1.
Proof. vm_compute. split; reflexivity. Qed.

(** A batch with a blank chunk between two others: the blank one is skipped
    and the other two are stored, rows and records side by side. *)
Example add_batch_skips_blank_chunk :
  let w :=
    snd (@add_batch toy_backend exact_arith reliable_disk
           [lit "alpha"; lit "   "; lit "gamma delta"]
           [page_record 1; page_record 2; page_record 3] false toy_world) in
  vectors (embed_store w) = [[5; 1]; [11; 1]]
  /\ map (fun m => dict_get m (lit "page")) (meta (embed_store w))
     = [Some (PInt 1); Some (PInt 3)]
  /\ META_FILE w = Holds (meta (embed_store w)).
Proof. vm_compute. repeat split; reflexivity. Qed.

End EmbedStoreFacts.

(** ** Normalisation in float32 *)

Module NormalizeFacts.
Import Py EmbedStoreModel SpecFloat Numpy.

(** The dot product of a row of zeros with itself is [+0], whatever the signs
    of the zeros. *)
Lemma dot_zeros (signs : list bool) :
  dot (map S754_zero signs) (map S754_zero signs) = S754_zero false.
Proof.
  unfold dot. generalize (eq_refl (S754_zero false)).
  generalize (S754_zero false) at 1 3 as acc.
  induction signs as [|s signs IH]; intros acc Hacc; [now subst|].
  cbn [map combine fold_left fst snd]. apply IH. subst acc.
  now destruct s.
Qed.

Section Normalize.

Variable encoder : str -> list float32.
Variable width : Z.
Variable searcher :
  Z -> list (list float32) -> list float32 -> Z -> list (float * Z).

Local Notation normalize :=
  (@_normalize (numpy_backend encoder width searcher)).


End Normalize.

(** *** Concrete rows *)

(** The encoder and the index take no part in [_normalize]: an instance
    without them. *)
Definition bare_numpy : Backend :=
  numpy_backend (fun _ => []) 0 (fun _ _ _ _ => []).

(** [1], the next float32 above it, [2**-100], [2**100] and
    [(1 + 2**-23) * 2**-70]. *)
Definition f32_one : float32 := S754_finite false 8388608 (-23).
Definition f32_above_one : float32 := S754_finite false 8388609 (-23).
Definition f32_tiny : float32 := S754_finite false 8388608 (-123).
Definition f32_huge : float32 := S754_finite false 8388608 77.
Definition f32_slanted : float32 := S754_finite false 8388609 (-93).


(** The row [[3, 4]] has norm 5 and is normalised to the float32 numbers
    nearest to 0.6 and 0.8; here a second normalisation changes nothing. *)
Example normalize_three_four :
  let v := [narrow 3%float; narrow 4%float] in
  norm v = narrow 5%float
  /\ @_normalize bare_numpy v
     = [S754_finite false 10066330 (-24); S754_finite false 13421773 (-24)]
  /\ @_normalize bare_numpy (@_normalize bare_numpy v) = @_normalize bare_numpy v.
Proof. vm_compute. repeat split. Qed.

End NormalizeFacts.

(** ** Properties of the ingestion run *)

Module IngestFacts.
Import Py PyFacts Progress TextUtils EmbedStoreModel EmbedStoreFacts IngestModel.
Local Open Scope py_scope.

(** [ps] never decreases, starts at [lo] or above and stays at [hi] or
    below. *)
Fixpoint rising (lo hi : Z) (ps : list Z) : Prop :=
  match ps with
  | [] => True
  | p :: rest => lo <= p <= hi /\ rising p hi rest
  end.

Lemma rising_weaken lo lo' hi hi' ps :
  lo' <= lo -> hi <= hi' -> rising lo hi ps -> rising lo' hi' ps.
Proof.
  revert lo lo'. induction ps as [|p ps IH]; intros lo lo' Hlo Hhi; [trivial|].
  cbn. intros [Hp Hrest]. split; [lia|].
  apply (IH p p); [lia | exact Hhi | exact Hrest].
Qed.

Lemma rising_app lo mid hi ps qs :
  lo <= mid <= hi -> rising lo mid ps -> rising mid hi qs ->
  rising lo hi (ps ++ qs).
Proof.
  revert lo. induction ps as [|p ps IH]; intros lo Hb Hps Hqs; cbn.
  - apply (rising_weaken (lo := mid) (hi := hi)); [lia | lia | exact Hqs].
  - destruct Hps as [Hp Hrest]. split; [lia|].
    apply IH; [lia | exact Hrest | exact Hqs].
Qed.

Lemma rising_sorted lo hi ps :
  rising lo hi ps ->
  StronglySorted Z.le ps /\ Forall (fun p => lo <= p <= hi) ps.
Proof.
  revert lo. induction ps as [|p ps IH]; intros lo; cbn.
  - intros _. split; constructor.
  - intros [Hp Hrest]. destruct (IH p Hrest) as [Hs Hf]. split.
    + constructor; [exact Hs|].
      apply Forall_impl with (2 := Hf). intros q Hq. lia.
    + constructor; [exact Hp|].
      apply Forall_impl with (2 := Hf). intros q Hq. lia.
Qed.

Section IngestProps.
Context `{PyLib} `{Backend} `{FloatArith} `{Disk World}.

(** What the run needs of [int((a / b) * c)]: it does not decrease when [a]
    grows, and for [0 <= a <= b] it lies between [0] and [c].  Binary64
    division and multiplication round monotonically, [1.0] and the small
    integers [c] are exact, and truncation is monotone. *)
Definition scaling_monotone : Prop :=
  (forall a a' b c,
      0 <= a <= a' -> 0 < b -> 0 <= c -> int_scaled a b c <= int_scaled a' b c)
  /\ (forall a b c,
         0 <= a <= b -> 0 < b -> 0 <= c -> 0 <= int_scaled a b c <= c).

(** The reports [m] delivers, whatever its outcome, extend the log by a
    rising sequence between [lo] and [hi]. *)
Definition emits {A} (m : M World A) (lo hi : Z) : Prop :=
  forall w, exists evs,
    delivered (snd (m w)) = delivered w ++ evs /\ rising lo hi (map fst evs).

Definition silent {A} (m : M World A) : Prop :=
  forall w, delivered (snd (m w)) = delivered w.

Lemma silent_emits {A} (m : M World A) lo hi : silent m -> emits m lo hi.
Proof.
  intros Hs w. exists []. rewrite app_nil_r. split; [apply Hs | exact I].
Qed.

Lemma emits_weaken {A} (m : M World A) lo lo' hi hi' :
  lo' <= lo -> hi <= hi' -> emits m lo hi -> emits m lo' hi'.
Proof.
  intros Hlo Hhi Hm w. destruct (Hm w) as [evs [E R]].
  exists evs. split; [exact E|]. exact (rising_weaken _ Hlo Hhi R).
Qed.

Lemma emits_bind {A B} (m : M World A) (f : A -> M World B) lo mid hi :
  lo <= mid <= hi -> emits m lo mid -> (forall a, emits (f a) mid hi) ->
  emits (bind m f) lo hi.
Proof.
  intros Hb Hm Hf w. unfold bind. destruct (Hm w) as [evs [E R]].
  destruct (m w) as [[a|e] w1]; cbn [snd] in *.
  - destruct (Hf a w1) as [evs' [E' R']].
    exists (evs ++ evs'). rewrite E', E, app_assoc. split; [reflexivity|].
    rewrite map_app. exact (rising_app _ _ Hb R R').
  - exists evs. split; [exact E|].
    apply (rising_weaken (lo := lo) (hi := mid)); [lia | lia | exact R].
Qed.

Lemma emits_try_except {A} (m : M World A) (h : exn -> M World A) lo mid hi :
  lo <= mid <= hi -> emits m lo mid -> (forall e, emits (h e) mid hi) ->
  emits (try_except m h) lo hi.
Proof.
  intros Hb Hm Hh w. unfold try_except. destruct (Hm w) as [evs [E R]].
  destruct (m w) as [[a|e] w1]; cbn [snd] in *.
  - exists evs. split; [exact E|].
    apply (rising_weaken (lo := lo) (hi := mid)); [lia | lia | exact R].
  - destruct (Hh e w1) as [evs' [E' R']].
    exists (evs ++ evs'). rewrite E', E, app_assoc. split; [reflexivity|].
    rewrite map_app. exact (rising_app _ _ Hb R R').
Qed.

Lemma emits_report cb p msg lo hi :
  lo <= p <= hi -> emits (report cb p msg) lo hi.
Proof.
  intros Hp w. unfold report. destruct cb; cbn.
  - exists [(p, msg)]. split; [reflexivity|]. cbn. split; [exact Hp | exact I].
  - exists []. rewrite app_nil_r. split; [reflexivity | exact I].
Qed.

Lemma silent_ret {A} (a : A) : silent (ret a).
Proof. intros w. reflexivity. Qed.

Lemma silent_lift {A} (o : outcome A) : silent (lift o).
Proof. intros w. reflexivity. Qed.

Lemma silent_raise {A} (e : exn) : silent (@raise World A e).
Proof. intros w. reflexivity. Qed.

Lemma silent_bind {A B} (m : M World A) (f : A -> M World B) :
  silent m -> (forall a, silent (f a)) -> silent (bind m f).
Proof.
  intros Hm Hf w. unfold bind. specialize (Hm w).
  destruct (m w) as [[a|e] w1]; cbn [snd] in *; [|exact Hm].
  now rewrite Hf.
Qed.

Lemma silent_ensure_index : silent ensure_index.
Proof.
  intros w. rewrite ensure_index_spec. cbn [snd].
  now destruct (index (embed_store w)).
Qed.

Lemma silent_save : silent _save.
Proof. intros w. reflexivity. Qed.

Lemma silent_save_page_images book_id page_images :
  silent (_save_page_images book_id page_images).
Proof. intros w. unfold _save_page_images. now destruct page_images. Qed.

Lemma silent_get_store : silent get_store.
Proof. intros w. reflexivity. Qed.

Lemma silent_put_store s : silent (put_store s).
Proof. intros w. reflexivity. Qed.

Section Rising.
Hypothesis scaling : scaling_monotone.

Lemma scaled_mono a a' b c :
  0 <= a <= a' -> 0 < b -> 0 <= c -> int_scaled a b c <= int_scaled a' b c.
Proof. apply scaling. Qed.

Lemma scaled_bounds a b c :
  0 <= a <= b -> 0 < b -> 0 <= c -> 0 <= int_scaled a b c <= c.
Proof. apply scaling. Qed.

(** Page extraction reports between 10 and 40. *)
Lemma emits_extract_pages cb total pages :
  forall pno pages_text page_images lo,
    0 <= pno ->
    (pages <> [] ->
     pno + len pages = total /\ lo <= 10 + int_scaled pno total 30) ->
    lo <= 40 ->
    emits (extract_pages cb total pno pages pages_text page_images) lo 40.
Proof.
  induction pages as [|page rest IH]; intros pno pt pi lo Hpno Hinv Hlo.
  - apply silent_emits, silent_ret.
  - destruct Hinv as [Htot Hlow]; [discriminate|].
    rewrite len_cons in Htot. pose proof (len_nonneg rest) as Hrest.
    set (p := 10 + int_scaled pno total 30) in *.
    assert (Hp : p <= 40).
    { subst p. pose proof (@scaled_bounds pno total 30). lia. }
    assert (Hnext : forall pt' pi',
               emits (extract_pages cb total (pno + 1) rest pt' pi') p 40).
    { intros pt' pi'. apply IH; [lia | | exact Hp].
      intros Hne. split.
      - destruct rest; [contradiction|]. lia.
      - subst p. pose proof (@scaled_mono pno (pno + 1) total 30). lia. }
    cbn [extract_pages]. fold p.
    apply emits_bind with (mid := p); [lia | apply emits_report; lia|].
    intros _. destruct (blank (page_text page)); [|apply Hnext].
    apply emits_bind with (mid := p); [lia | apply emits_report; lia|].
    intros _.
    apply emits_bind with (mid := p); [lia | apply silent_emits, silent_lift|].
    intros text_ocr. apply Hnext.
Qed.

(** Chunking reports between 40 and 48. *)
Lemma emits_chunk_pages cb max_chars total pages_text :
  forall idx all_chunks parts lo,
    0 <= idx ->
    (pages_text <> [] ->
     idx + len pages_text = total /\ lo <= 40 + int_scaled (idx + 1) total 8) ->
    lo <= 48 ->
    emits (chunk_pages cb max_chars total idx pages_text all_chunks parts) lo 48.
Proof.
  induction pages_text as [|[text page_num] rest IH];
    intros idx all_chunks parts lo Hidx Hinv Hlo.
  - apply silent_emits, silent_ret.
  - destruct Hinv as [Htot Hlow]; [discriminate|].
    rewrite len_cons in Htot. pose proof (len_nonneg rest) as Hrest.
    set (p := 40 + int_scaled (idx + 1) total 8) in *.
    assert (Hp : p <= 48).
    { subst p. pose proof (@scaled_bounds (idx + 1) total 8). lia. }
    cbn [chunk_pages]. fold p.
    apply emits_bind with (mid := lo); [lia | apply silent_emits|].
    { destruct (truthy (clean_text text)); [|apply silent_ret].
      apply silent_bind; [apply silent_lift | intros; apply silent_ret]. }
    intros acc.
    apply emits_bind with (mid := p); [lia | |].
    { destruct (cb && ((idx + 1) mod 10 =? 0))%bool;
        [apply emits_report; lia | apply silent_emits, silent_ret]. }
    intros _. apply IH; [lia | | exact Hp].
    intros Hne. split.
    + destruct rest; [contradiction|]. lia.
    + subst p. pose proof (@scaled_mono (idx + 1) (idx + 1 + 1) total 8). lia.
Qed.

Lemma emits_extract_and_chunk_pdf path max_chars cb :
  emits (extract_and_chunk_pdf path max_chars cb) 10 48.
Proof.
  unfold extract_and_chunk_pdf.
  apply emits_try_except with (mid := 48); [lia | |
    intros; apply silent_emits, silent_ret].
  apply emits_bind with (mid := 10); [lia | apply silent_emits, silent_lift|].
  intros doc.
  apply emits_bind with (mid := 40); [lia | |].
  { apply emits_extract_pages; [lia | | lia].
    intros Hne. split; [lia|].
    assert (0 < len doc) by (destruct doc; [contradiction|]; rewrite len_cons;
                             pose proof (len_nonneg doc); lia).
    pose proof (@scaled_bounds 0 (len doc) 30). lia. }
  intros extracted.
  apply emits_bind with (mid := 40); [lia | apply emits_report; lia|].
  intros _.
  apply emits_bind with (mid := 48); [lia | | intros; apply silent_emits, silent_ret].
  apply emits_chunk_pages; [lia | | lia].
  intros Hne. split; [lia|].
  assert (0 < len (fst extracted)).
  { destruct (fst extracted) as [|x l]; [contradiction|]. rewrite len_cons.
    pose proof (len_nonneg l). lia. }
  pose proof (@scaled_bounds (0 + 1) (len (fst extracted)) 8). lia.
Qed.

(** Embedding reports between 65 and 80. *)
Lemma emits_embed_batches cb total fuel :
  forall i remaining lo,
    0 <= i ->
    (remaining <> [] ->
     i + len remaining = total /\ lo <= 65 + int_scaled i total 15) ->
    lo <= 80 ->
    emits (embed_batches fuel cb total i remaining) lo 80.
Proof.
  induction fuel as [|fuel IH]; intros i remaining lo Hi Hinv Hlo.
  - apply silent_emits. destruct remaining; apply silent_ret.
  - destruct remaining as [|c rest]; [apply silent_emits, silent_ret|].
    destruct Hinv as [Htot Hlow]; [discriminate|].
    rewrite len_cons in Htot. pose proof (len_nonneg rest) as Hrest.
    set (p := 65 + int_scaled i total 15) in *.
    assert (Hp : p <= 80).
    { subst p. pose proof (@scaled_bounds i total 15). lia. }
    cbn [embed_batches]. fold p.
    apply emits_bind with (mid := p); [lia | |].
    { destruct (cb && (0 <? i))%bool;
        [apply emits_report; lia | apply silent_emits, silent_ret]. }
    intros _.
    apply emits_bind with (mid := 80); [lia | | intros; apply silent_emits, silent_ret].
    apply IH; [lia | | exact Hp].
    intros Hne. split.
    + assert (Hlen : len (skipn 100 (c :: rest)) = len (c :: rest) - 100).
      { unfold len. rewrite length_skipn.
        destruct (skipn 100 (c :: rest)) eqn:E; [contradiction|].
        assert (List.length (skipn 100 (c :: rest)) <> 0%nat)
          by (rewrite E; discriminate).
        rewrite length_skipn in *. lia. }
      fold (skipn 100 (c :: rest)) in *. rewrite Hlen, len_cons. lia.
    + subst p. pose proof (@scaled_mono i (i + 100) total 15). lia.
Qed.

Lemma emits_add_batch chunks metadata_list cb :
  emits (add_batch chunks metadata_list cb) 65 90.
Proof.
  unfold add_batch. destruct (_ || _)%bool; [apply silent_emits, silent_ret|].
  set (valid := filter _ _).
  destruct (map fst valid) as [|c0 cs0] eqn:Hmap;
    [apply silent_emits, silent_ret|].
  rewrite <- Hmap.
  apply emits_bind with (mid := 65); [lia | apply emits_report; lia|].
  intros _.
  apply emits_bind with (mid := 80); [lia | |].
  { apply emits_embed_batches; [lia | | lia].
    intros Hne. split; [lia|].
    assert (0 < len (map fst valid)).
    { rewrite Hmap, len_cons. pose proof (len_nonneg cs0). lia. }
    pose proof (@scaled_bounds 0 (len (map fst valid)) 15). lia. }
  intros all_embeddings.
  apply emits_bind with (mid := 80); [lia | apply emits_report; lia|].
  intros _.
  apply emits_bind with (mid := 85); [lia | apply emits_report; lia|].
  intros _.
  apply emits_bind with (mid := 85);
    [lia | apply silent_emits, silent_ensure_index|].
  intros ix.
  apply emits_bind with (mid := 85); [lia | apply silent_emits, silent_lift|].
  intros ix'.
  apply emits_bind with (mid := 85);
    [lia | apply silent_emits, silent_get_store|].
  intros self.
  apply emits_bind with (mid := 85);
    [lia | apply silent_emits, silent_put_store|].
  intros _.
  apply emits_bind with (mid := 90); [lia | apply emits_report; lia|].
  intros _. apply silent_emits, silent_save.
Qed.

Lemma emits_ingest_pdf book_id path book_title cb :
  emits (ingest_pdf book_id path book_title cb) 10 95.
Proof.
  unfold ingest_pdf.
  apply emits_bind with (mid := 10); [lia | apply emits_report; lia|].
  intros _.
  apply emits_bind with (mid := 48);
    [lia | apply emits_extract_and_chunk_pdf|].
  intros extracted.
  destruct (snd (fst extracted)) as [|cp cps] eqn:E;
    [apply silent_emits, silent_raise|].
  apply emits_bind with (mid := 50); [lia | apply emits_report; lia|].
  intros _.
  apply emits_bind with (mid := 60); [lia | apply emits_report; lia|].
  intros _.
  apply emits_bind with (mid := 90);
    [lia | apply emits_weaken with (lo := 65) (hi := 90);
           [lia | lia | apply emits_add_batch]|].
  intros _.
  apply emits_bind with (mid := 90); [lia | apply emits_report; lia|].
  intros _.
  apply emits_bind with (mid := 90); [lia | apply emits_report; lia|].
  intros _.
  apply emits_bind with (mid := 90); [lia | apply silent_emits|].
  { destruct (snd extracted);
      [apply silent_ret | apply silent_save_page_images]. }
  intros _.
  apply emits_bind with (mid := 95); [lia | apply emits_report; lia|].
  intros _. apply silent_emits, silent_ret.
Qed.

(** C8. In one ingestion run, successful or not, the percentages delivered to
    the progress callback never decrease and lie between 0 and 100 (between
    10 and 95, in fact). *)
Theorem progress_never_decreases book_id path book_title cb (w : World) :
  exists reports,
    delivered (snd (ingest_pdf book_id path book_title cb w))
    = delivered w ++ reports
    /\ StronglySorted Z.le (map fst reports)
    /\ Forall (fun p => 0 <= p <= 100) (map fst reports).
Proof.
  destruct (emits_ingest_pdf book_id path book_title cb w) as [evs [E R]].
  exists evs. split; [exact E|].
  destruct (rising_sorted _ _ _ R) as [Hs Hf]. split; [exact Hs|].
  apply Forall_impl with (2 := Hf). intros p Hp. lia.
Qed.

End Rising.

End IngestProps.

(** *** A concrete run *)

Lemma exact_arith_monotone : @scaling_monotone exact_arith.
Proof.
  split; cbn.
  - intros a a' b c Ha Hb Hc. apply Z.div_le_mono; [lia | nia].
  - intros a b c Ha Hb Hc. split.
    + apply Z.div_pos; nia.
    + apply Z.div_le_upper_bound; nia.
Qed.

(** Two pages with a text layer, each one paragraph of more than fifty
    characters. *)
Definition sample_pdf : PdfFile :=
  {| file_name := lit "guide.pdf";
     file_stem := lit "guide";
     document :=
       Returned
         [ {| page_text := lit "The first page explains how the index is built from chunks.";
              page_ocr := Returned [];
              page_png := fun _ => [137; 80; 78; 71] |};
           {| page_text := lit "The second page explains how a query is answered from it.";
              page_ocr := Returned [];
              page_png := fun _ => [137; 80; 78; 71] |} ] |}.

Definition sample_run : outcome str * @World toy_backend :=
  @ingest_pdf TextUtilsFacts.ascii_lib toy_backend exact_arith reliable_disk
    (lit "book-1") sample_pdf None true toy_world.

Example sample_run_reports :
  fst sample_run = Returned (lit "book-1")
  /\ map fst (delivered (snd sample_run))
     = [10; 10; 25; 40; 50; 60; 65; 80; 85; 90; 90; 90; 95]
  /\ total_chunks (embed_store (snd sample_run)) = 2
  /\ map (fun m => dict_get m (lit "book_title")) (meta (embed_store (snd sample_run)))
     = [Some (PStr (lit "guide")); Some (PStr (lit "guide"))].
Proof. vm_compute. repeat split; reflexivity. Qed.

Lemma progress_never_decreases_witness :
  @scaling_monotone exact_arith
  /\ exists reports,
       delivered (snd sample_run) = delivered toy_world ++ reports
       /\ StronglySorted Z.le (map fst reports)
       /\ Forall (fun p => 0 <= p <= 100) (map fst reports).
Proof.
  split; [exact exact_arith_monotone|].
  exact (@progress_never_decreases TextUtilsFacts.ascii_lib toy_backend
           exact_arith reliable_disk exact_arith_monotone (lit "book-1") sample_pdf None true
           toy_world).
Defined.

End IngestFacts.

(** ** More on the chunker *)

Module ChunkerProps.
Import Py PyFacts TextUtils.

(** *** Trimming *)

Lemma lstrip_idem (s : str) : lstrip (lstrip s) = lstrip s.
Proof.
  induction s as [|c s IH]; [reflexivity|]. cbn.
  destruct (isspace c) eqn:E; [exact IH|]. cbn. now rewrite E.
Qed.

Lemma lstrip_app_last (a : str) (c : char) :
  isspace c = false -> lstrip (a ++ [c]) = lstrip a ++ [c].
Proof.
  intros Hc. induction a as [|x a IH]; cbn; [now rewrite Hc|].
  destruct (isspace x); [exact IH | reflexivity].
Qed.

Lemma rstrip_idem (s : str) : rstrip (rstrip s) = rstrip s.
Proof. unfold rstrip. now rewrite rev_involutive, lstrip_idem. Qed.

Lemma lstrip_rstrip_commute (s : str) : lstrip (rstrip (lstrip s)) = rstrip (lstrip s).
Proof.
  destruct (lstrip s) as [|c t] eqn:E; [reflexivity|].
  assert (Hc : isspace c = false).
  { clear -E. induction s as [|x s IH]; [discriminate|]. cbn in E.
    destruct (isspace x) eqn:Ex; [auto|]. now injection E as <- _. }
  unfold rstrip. cbn [rev]. rewrite (@lstrip_app_last _ c Hc), rev_app_distr.
  cbn. now rewrite Hc.
Qed.

(** [s.strip().strip() == s.strip()] *)
Lemma strip_idem (s : str) : strip (strip s) = strip s.
Proof.
  unfold strip. now rewrite lstrip_rstrip_commute, rstrip_idem.
Qed.

Lemma lstrip_len (s : str) : len (lstrip s) <= len s.
Proof.
  induction s as [|c s IH]; [cbn; lia|]. cbn [lstrip].
  destruct (isspace c); [rewrite len_cons; lia | lia].
Qed.

Lemma len_rev {A} (l : list A) : len (rev l) = len l.
Proof. unfold len. now rewrite length_rev. Qed.

Lemma strip_len (s : str) : len (strip s) <= len s.
Proof.
  unfold strip, rstrip. rewrite len_rev.
  pose proof (lstrip_len (rev (lstrip s))) as H1. rewrite len_rev in H1.
  pose proof (lstrip_len s). lia.
Qed.

(** *** Sentences *)

(** What a scanner mode has read and not yet given out. *)
Definition pending (m : split_mode) : str :=
  match m with
  | InText t => rev t
  | InTerminals t r => rev t ++ rev r
  | InSeparator t sep => rev t ++ rev sep
  end.

Lemma split_sentences_concat (s : str) :
  forall m, List.concat (split_sentences_from m s) = pending m ++ s.
Proof.
  induction s as [|c s IH]; intros m.
  - destruct m; cbn; rewrite ?app_nil_r, ?rev_app_distr; reflexivity.
  - cbn [split_sentences_from].
    destruct m as [t|t r|t sep]; cbn [split_step].
    + destruct (is_terminal c); cbn [app]; rewrite IH; cbn [pending rev];
        rewrite <- ?app_assoc; reflexivity.
    + destruct (is_terminal c); [|destruct (isspace c)]; cbn [app];
        rewrite IH; cbn [pending rev]; rewrite ?rev_app_distr, <- ?app_assoc;
        reflexivity.
    + destruct (isspace c); [|destruct (is_terminal c)];
        cbn [app List.concat]; rewrite ?concat_app; cbn [List.concat];
        rewrite IH; cbn [pending rev]; rewrite <- ?app_assoc, ?app_nil_r;
        reflexivity.
Qed.

Lemma sentence_pairs_concat (parts : list str) :
  List.concat (sentence_pairs parts) = List.concat parts
  /\ forall a, List.concat (sentence_pairs (a :: parts)) = List.concat (a :: parts).
Proof.
  induction parts as [|b parts [IH1 IH2]].
  - split; [reflexivity|]. intros a. reflexivity.
  - split; [apply IH2|]. intros a. cbn [sentence_pairs List.concat].
    rewrite IH1. now rewrite app_assoc.
Qed.

(** X1. Cutting a paragraph into sentences loses nothing: the sentences,
    each with the separator that followed it, laid end to end are the
    paragraph. *)
Theorem sentences_rebuild_paragraph (para : str) :
  List.concat (sentence_pairs (re_split_sentences para)) = para.
Proof.
  rewrite (proj1 (sentence_pairs_concat _)).
  unfold re_split_sentences. now rewrite split_sentences_concat.
Qed.

(** *** What the chunks are *)

Section Chunks.
Context `{PyLib}.
Variable max_chars : Z.

(** A property holds of every chunk as soon as it holds of the three kinds of
    chunk the loops append: a paragraph within the limit, the trimmed running
    buffer, and a trimmed line of a wrapped sentence. *)
Section Each.
Variable P : str -> Prop.
Hypothesis P_paragraph :
  forall para,
    strip para = para -> truthy para = true -> len para <= max_chars -> P para.
Hypothesis P_buffer :
  forall buffer, len buffer <= max_chars -> truthy (strip buffer) = true ->
                 P (strip buffer).
Hypothesis P_wrapped :
  forall sentence line,
    max_chars < len sentence -> In line (wrap_words sentence max_chars) ->
    truthy (strip line) = true -> P (strip line).

Lemma pack_sentences_each sentences :
  forall chunks current chunks' current',
    Forall P chunks -> (current = [] \/ len current <= max_chars) ->
    pack_sentences max_chars sentences chunks current = Returned (chunks', current') ->
    Forall P chunks' /\ (current' = [] \/ len current' <= max_chars).
Proof.
  induction sentences as [|sentence rest IH];
    intros chunks current chunks' current' Hchunks Hcur Hrun;
    cbn [pack_sentences] in Hrun.
  - injection Hrun as <- <-. now split.
  - destruct (len current + len sentence <=? max_chars) eqn:Efit.
    + apply Z.leb_le in Efit. apply (IH _ _ _ _ Hchunks) in Hrun; [exact Hrun|].
      right. rewrite len_app. exact Efit.
    + assert (Hflushed :
        Forall P (if truthy (strip current)
                  then chunks ++ [strip current] else chunks)).
      { destruct (truthy (strip current)) eqn:Et; [|exact Hchunks].
        apply Forall_app. split; [exact Hchunks|]. constructor; [|constructor].
        apply P_buffer; [|exact Et].
        destruct Hcur as [->|Hle]; [discriminate | exact Hle]. }
      destruct (len sentence >? max_chars) eqn:Elong.
      * unfold textwrap_wrap in Hrun.
        destruct (max_chars <=? 0); [discriminate|].
        apply IH in Hrun; [exact Hrun | | now left].
        apply Forall_app. split; [exact Hflushed|].
        apply Forall_forall. intros c Hc. apply in_map_iff in Hc.
        destruct Hc as [line [<- Hline]]. apply filter_In in Hline.
        destruct Hline as [Hin Ht].
        apply (P_wrapped sentence); [|exact Hin | exact Ht].
        rewrite Z.gtb_ltb in Elong. now apply Z.ltb_lt in Elong.
      * apply IH in Hrun; [exact Hrun | exact Hflushed|].
        right. rewrite Z.gtb_ltb in Elong. now apply Z.ltb_ge in Elong.
Qed.

Lemma chunk_paragraph_each chunks para chunks' :
  strip para = para -> Forall P chunks ->
  chunk_paragraph max_chars chunks para = Returned chunks' -> Forall P chunks'.
Proof.
  intros Hpara Hchunks Hrun. unfold chunk_paragraph in Hrun.
  destruct (len para <=? max_chars) eqn:Efit.
  - apply Z.leb_le in Efit. injection Hrun as <-. rewrite Hpara.
    destruct (truthy para) eqn:Et; [|exact Hchunks].
    apply Forall_app. split; [exact Hchunks|]. constructor; [|constructor].
    now apply P_paragraph.
  - destruct (pack_sentences _ _ _ _) as [[chunks1 current]|e] eqn:Epack;
      [|discriminate].
    injection Hrun as <-.
    destruct (@pack_sentences_each _ _ _ _ _ Hchunks (or_introl eq_refl) Epack)
      as [H1 Hcur].
    destruct (truthy (strip current)) eqn:Et; [|exact H1].
    apply Forall_app. split; [exact H1|]. constructor; [|constructor].
    apply P_buffer; [|exact Et].
    destruct Hcur as [->|Hle]; [discriminate | exact Hle].
Qed.

Lemma chunk_paragraphs_each paragraphs :
  forall chunks chunks',
    Forall (fun para => strip para = para) paragraphs -> Forall P chunks ->
    chunk_paragraphs max_chars paragraphs chunks = Returned chunks' ->
    Forall P chunks'.
Proof.
  induction paragraphs as [|para rest IH];
    intros chunks chunks' Hparas Hchunks Hrun; cbn [chunk_paragraphs] in Hrun.
  - now injection Hrun as <-.
  - destruct (chunk_paragraph max_chars chunks para) as [chunks1|e] eqn:E;
      [|discriminate].
    inversion Hparas as [|? ? Hpara Hrest]; subst.
    exact (IH _ _ Hrest (@chunk_paragraph_each _ _ _ Hpara Hchunks E) Hrun).
Qed.

(** The paragraphs the chunker works on are trimmed. *)
Lemma paragraphs_trimmed (text : str) :
  Forall (fun para => strip para = para)
    (map strip (filter (fun p => truthy (strip p)) (split_paragraphs text))).
Proof.
  apply Forall_forall. intros para Hin. apply in_map_iff in Hin.
  destruct Hin as [p [<- _]]. apply strip_idem.
Qed.

Lemma chunk_text_each text chunks :
  _chunk_text text max_chars = Returned chunks -> Forall P chunks.
Proof.
  unfold _chunk_text. destruct (blank text).
  - intros Hrun. injection Hrun as <-. constructor.
  - destruct (chunk_paragraphs _ _ _) as [cs|e] eqn:E; [|discriminate].
    intros Hrun. injection Hrun as <-.
    pose proof (@chunk_paragraphs_each _ _ _ (paragraphs_trimmed text)
                  (Forall_nil P) E) as Hall.
    apply Forall_forall. intros c Hc. apply filter_In in Hc.
    destruct Hc as [Hc _]. revert c Hc. now apply Forall_forall.
Qed.

End Each.

(** X2. Every chunk comes back trimmed ([c.strip() == c]), and no longer than
    [max_chars] unless it is a line [textwrap.wrap] made of a sentence that
    is itself longer than [max_chars]. *)
Theorem chunks_trimmed_and_bounded text chunks :
  _chunk_text text max_chars = Returned chunks ->
  Forall (fun c =>
            strip c = c
            /\ (len c <= max_chars
                \/ exists sentence line,
                     max_chars < len sentence
                     /\ In line (wrap_words sentence max_chars)
                     /\ c = strip line))
    chunks.
Proof.
  apply chunk_text_each.
  - intros para Hpara _ Hlen. split; [exact Hpara | now left].
  - intros buffer Hlen _. split; [apply strip_idem|].
    left. pose proof (strip_len buffer). lia.
  - intros sentence line Hlong Hin _. split; [apply strip_idem|].
    right. now exists sentence, line.
Qed.

Lemma chunk_paragraphs_short paragraphs :
  forall chunks,
    Forall (fun p => strip p = p /\ truthy p = true /\ len p <= max_chars)
      paragraphs ->
    chunk_paragraphs max_chars paragraphs chunks = Returned (chunks ++ paragraphs).
Proof.
  induction paragraphs as [|para rest IH]; intros chunks Hall;
    cbn [chunk_paragraphs].
  - now rewrite app_nil_r.
  - inversion Hall as [|? ? [Hs [Ht Hl]] Hrest]; subst.
    unfold chunk_paragraph. apply Z.leb_le in Hl. rewrite Hl, Hs, Ht.
    rewrite (IH _ Hrest), <- app_assoc. reflexivity.
Qed.

(** X3. When no paragraph is longer than [max_chars], the chunks are the
    paragraphs themselves (the non-blank pieces between blank lines, trimmed),
    in order, less those shorter than 50 characters. *)
Theorem short_paragraphs_pass_through text :
  let paragraphs :=
    map strip (filter (fun p => truthy (strip p)) (split_paragraphs text)) in
  blank text = false ->
  Forall (fun p => len p <= max_chars) paragraphs ->
  _chunk_text text max_chars
  = Returned (filter (fun p => MIN_CHUNK_CHARS <=? len p) paragraphs).
Proof.
  intros paragraphs Hb Hshort. unfold _chunk_text. rewrite Hb.
  fold paragraphs. rewrite chunk_paragraphs_short.
  - cbn [app]. f_equal. apply filter_ext_in. intros p Hin.
    assert (Hp : strip p = p).
    { pose proof (paragraphs_trimmed text) as Ht.
      rewrite Forall_forall in Ht. now apply Ht. }
    now rewrite Hp.
  - apply Forall_forall. intros p Hin. split; [|split].
    + pose proof (paragraphs_trimmed text) as Ht.
      rewrite Forall_forall in Ht. now apply Ht.
    + unfold paragraphs in Hin. apply in_map_iff in Hin.
      destruct Hin as [p0 [<- Hin0]]. apply filter_In in Hin0. tauto.
    + rewrite Forall_forall in Hshort. now apply Hshort.
Qed.

(** *** A width that is not positive *)

Lemma pack_sentences_bad_width sentences :
  forall chunks,
    max_chars <= 0 -> List.concat sentences <> [] ->
    pack_sentences max_chars sentences chunks []
    = Raised (ValueError "invalid width (must be > 0)").
Proof.
  induction sentences as [|sentence rest IH]; intros chunks Hmax Hne;
    [contradiction|].
  cbn [pack_sentences]. change (len (@nil char)) with 0.
  destruct (0 + len sentence <=? max_chars) eqn:Efit.
  - apply Z.leb_le in Efit.
    assert (sentence = []) by (apply len_nil_inv; lia). subst sentence.
    cbn [app]. apply IH; [exact Hmax | exact Hne].
  - apply Z.leb_gt in Efit. cbn [strip lstrip rstrip rev truthy].
    assert (Hlong : (len sentence >? max_chars) = true).
    { rewrite Z.gtb_ltb. apply Z.ltb_lt. lia. }
    rewrite Hlong. unfold textwrap_wrap.
    apply Z.leb_le in Hmax. now rewrite Hmax.
Qed.

End Chunks.

Lemma lstrip_cons_inv (s : str) c t :
  lstrip s = c :: t -> isspace c = false /\ In c s.
Proof.
  induction s as [|x s IH]; [discriminate|]. cbn.
  destruct (isspace x) eqn:E.
  - intros Hs. destruct (IH Hs) as [Hc Hin]. split; [exact Hc | now right].
  - intros Hs. injection Hs as <- _. split; [exact E | now left].
Qed.

Lemma In_lstrip (s : str) c : In c s -> isspace c = false -> In c (lstrip s).
Proof.
  intros Hin Hc. induction s as [|x s IH]; [contradiction|]. cbn.
  destruct (isspace x) eqn:E; [|exact Hin].
  destruct Hin as [->|Hin]; [congruence | now apply IH].
Qed.

Lemma In_strip (s : str) c : In c s -> isspace c = false -> In c (strip s).
Proof.
  intros Hin Hc. unfold strip, rstrip. apply in_rev. rewrite rev_involutive.
  apply In_lstrip; [|exact Hc]. apply -> in_rev. now apply In_lstrip.
Qed.

(** A text that is not blank has a character that is not whitespace. *)
Lemma nonblank_has_ink (text : str) :
  blank text = false -> exists c, In c text /\ isspace c = false.
Proof.
  unfold blank, has_text. intros Hb. apply negb_false_iff in Hb.
  apply andb_true_iff in Hb. destruct Hb as [_ Hs].
  unfold strip, rstrip in Hs.
  destruct (lstrip text) as [|c t] eqn:E; [discriminate|].
  exists c. destruct (lstrip_cons_inv _ E). now split.
Qed.

(** Every character that is not a newline lands in one of the pieces. *)
Lemma split_paragraphs_covers (c : char) (n : nat) :
  forall s cur,
    (List.length s <= n)%nat -> c <> NL -> In c (rev cur ++ s) ->
    exists piece, In piece (split_paragraphs_from cur s) /\ In c piece.
Proof.
  induction n as [|n IH]; intros s cur Hn Hc Hin.
  - destruct s; [|cbn in Hn; lia]. cbn. exists (rev cur).
    rewrite app_nil_r in Hin. split; [now left | exact Hin].
  - destruct s as [|x s']; [cbn; exists (rev cur); rewrite app_nil_r in Hin;
                             split; [now left | exact Hin]|].
    cbn [split_paragraphs_from]. destruct s' as [|y s''].
    + exists (rev (x :: cur)). split; [now left | exact Hin].
    + destruct (N.eqb x NL && N.eqb y NL)%bool eqn:E.
      * apply andb_true_iff in E. destruct E as [Ex Ey].
        apply N.eqb_eq in Ex, Ey. subst x y.
        apply in_app_or in Hin. destruct Hin as [Hin|Hin].
        -- exists (rev cur). split; [now left | exact Hin].
        -- destruct Hin as [Hx|[Hy|Hin]]; [congruence | congruence|].
           destruct (IH s'' [] ltac:(cbn in Hn; lia) Hc Hin) as [piece [Hp Hcp]].
           exists piece. split; [now right | exact Hcp].
      * apply IH; [cbn in Hn |- *; lia | exact Hc|].
        cbn [rev]. now rewrite <- app_assoc.
Qed.

Section BadWidth.
Context `{PyLib}.

(** With a positive [max_chars] the chunker returns. *)
Lemma chunk_text_returns text max_chars :
  0 < max_chars -> exists chunks, _chunk_text text max_chars = Returned chunks.
Proof.
  intros Hpos. unfold _chunk_text. destruct (blank text); [eauto|].
  destruct (TextUtilsFacts.chunk_paragraphs_returns
              (map strip (filter (fun p => truthy (strip p)) (split_paragraphs text)))
              [] Hpos) as [cs ->].
  eauto.
Qed.

(** X4. With a [max_chars] that is not positive, every text that is not blank
    makes [_chunk_text] raise [ValueError]: the first paragraph is longer than
    the limit, and so is its first non-empty sentence, which goes to
    [textwrap.wrap] with that width. *)
Theorem nonpositive_width_raises text max_chars :
  max_chars <= 0 -> blank text = false ->
  exists msg, _chunk_text text max_chars = Raised (ValueError msg).
Proof.
  intros Hmax Hb. eexists. unfold _chunk_text. rewrite Hb.
  destruct (nonblank_has_ink _ Hb) as [c [Hin Hc]].
  assert (HcNL : c <> NL) by (intros ->; discriminate).
  destruct (@split_paragraphs_covers c (List.length text) text [] (le_n _) HcNL Hin)
    as [piece [Hpiece Hcp]].
  fold (split_paragraphs text) in Hpiece.
  assert (Hkept : In piece (filter (fun p => truthy (strip p)) (split_paragraphs text))).
  { apply filter_In. split; [exact Hpiece|].
    pose proof (In_strip _ _ Hcp Hc) as Hs. now destruct (strip piece). }
  destruct (filter _ (split_paragraphs text)) as [|p0 rest] eqn:Ef;
    [contradiction|].
  assert (Hp0 : truthy (strip p0) = true).
  { assert (Hin0 : In p0 (filter (fun p => truthy (strip p)) (split_paragraphs text)))
      by (rewrite Ef; now left).
    apply filter_In in Hin0. tauto. }
  cbn [map chunk_paragraphs]. unfold chunk_paragraph.
  assert (Hlong : (len (strip p0) <=? max_chars) = false).
  { apply Z.leb_gt. destruct (strip p0) as [|x0 l0]; [discriminate|].
    rewrite len_cons. pose proof (len_nonneg l0). lia. }
  rewrite Hlong, pack_sentences_bad_width; [reflexivity | exact Hmax|].
  rewrite (proj1 (sentence_pairs_concat _)). unfold re_split_sentences.
  rewrite split_sentences_concat. cbn [pending rev app].
  now destruct (strip p0).
Qed.

End BadWidth.

(** A run on the sample text, for the statements above. *)
Lemma chunks_trimmed_and_bounded_witness :
  @_chunk_text TextUtilsFacts.ascii_lib TextUtilsFacts.sample_text 800
  = Returned [lit "The quick brown fox jumps over the lazy dog near the river."]
  /\ Forall (fun c => strip c = c)
       [lit "The quick brown fox jumps over the lazy dog near the river."].
Proof.
  assert (Hrun : @_chunk_text TextUtilsFacts.ascii_lib TextUtilsFacts.sample_text 800
                 = Returned [lit "The quick brown fox jumps over the lazy dog near the river."])
    by (vm_compute; reflexivity).
  split; [exact Hrun|].
  apply Forall_impl
    with (2 := @chunks_trimmed_and_bounded TextUtilsFacts.ascii_lib 800 _ _ Hrun).
  intros c Hc. apply Hc.
Defined.

Lemma short_paragraphs_pass_through_witness :
  blank TextUtilsFacts.sample_text = false
  /\ @_chunk_text TextUtilsFacts.ascii_lib TextUtilsFacts.sample_text 800
     = Returned [lit "The quick brown fox jumps over the lazy dog near the river."].
Proof.
  assert (Hb : blank TextUtilsFacts.sample_text = false) by reflexivity.
  split; [exact Hb|].
  rewrite (@short_paragraphs_pass_through TextUtilsFacts.ascii_lib 800
             TextUtilsFacts.sample_text Hb).
  - vm_compute. reflexivity.
  - vm_compute. repeat constructor; discriminate.
Defined.

Lemma nonpositive_width_raises_witness :
  exists msg,
    @_chunk_text TextUtilsFacts.ascii_lib TextUtilsFacts.sample_text 0
    = Raised (ValueError msg).
Proof.
  apply (@nonpositive_width_raises TextUtilsFacts.ascii_lib); [lia | reflexivity].
Defined.

End ChunkerProps.

(** ** [clean_text] *)

Module CleanTextProps.
Import Py PyFacts TextUtils ChunkerProps.

Lemma lstrip_suffix (s : str) : exists pre, s = pre ++ lstrip s.
Proof.
  induction s as [|c s [pre IH]]; [now exists []|]. cbn.
  destruct (isspace c); [|now exists []].
  exists (c :: pre). cbn. now rewrite <- IH.
Qed.

(** [s.strip()] is a stretch of [s]. *)
Lemma strip_infix (s : str) : exists pre post, s = pre ++ strip s ++ post.
Proof.
  unfold strip, rstrip.
  destruct (lstrip_suffix s) as [pre Hpre].
  destruct (lstrip_suffix (rev (lstrip s))) as [post Hpost].
  exists pre, (rev post). rewrite <- rev_app_distr, <- Hpost, rev_involutive.
  exact Hpre.
Qed.

Lemma In_strip_inv (s : str) c : In c (strip s) -> In c s.
Proof.
  destruct (strip_infix s) as [pre [post E]]. intros Hin. rewrite E.
  apply in_or_app. right. apply in_or_app. now left.
Qed.

(** [s] has no space right after a space; [after_space] tells whether the
    character before [s] is a space. *)
Fixpoint single_spaced (after_space : bool) (s : str) : Prop :=
  match s with
  | [] => True
  | c :: rest =>
      (after_space = true -> c <> SP) /\ single_spaced (N.eqb c SP) rest
  end.

Lemma single_spaced_no_pair (s : str) :
  forall b, single_spaced b s -> forall l1 l2, s <> l1 ++ SP :: SP :: l2.
Proof.
  induction s as [|c s IH]; intros b Hs l1 l2 E.
  - destruct l1; discriminate.
  - destruct Hs as [_ Hrest]. destruct l1 as [|x l1].
    + cbn in E. injection E as -> ->. cbn in Hrest.
      destruct Hrest as [Hc _]. now apply Hc.
    + cbn in E. injection E as -> ->. exact (IH _ Hrest l1 l2 eq_refl).
Qed.

Lemma sub_space_runs_single (s : str) :
  forall b, single_spaced b (sub_space_runs b s).
Proof.
  induction s as [|c s IH]; intros b; cbn [sub_space_runs]; [exact I|].
  destruct (N.eqb c SP) eqn:E.
  - apply N.eqb_eq in E. subst c. destruct b.
    + apply IH.
    + cbn. split; [discriminate|]. apply IH.
  - cbn. rewrite E. split; [|apply IH].
    intros _ ->. discriminate.
Qed.

Section Cleaning.
Context `{PyLib}.

Lemma In_sub_newline_runs c (s : str) :
  forall run, In c (sub_newline_runs run s) -> c = NL \/ In c s.
Proof.
  induction s as [|x s IH]; intros run Hin; cbn [sub_newline_runs] in Hin.
  - left. unfold flush_newlines in Hin. now apply repeat_spec in Hin.
  - destruct (N.eqb x NL).
    + destruct (IH _ Hin) as [->|Hs]; [now left | right; now right].
    + apply in_app_or in Hin. destruct Hin as [Hin|[->|Hin]].
      * left. unfold flush_newlines in Hin. now apply repeat_spec in Hin.
      * right. now left.
      * destruct (IH _ Hin) as [->|Hs]; [now left | right; now right].
Qed.

Lemma In_sub_hyphen_breaks c (n : nat) :
  forall s, (List.length s <= n)%nat -> In c (sub_hyphen_breaks s) -> In c s.
Proof.
  induction n as [|n IH]; intros s Hn Hin.
  - destruct s; [exact Hin | cbn in Hn; lia].
  - destruct s as [|a rest]; [exact Hin|]. cbn [sub_hyphen_breaks] in Hin.
    assert (Hplain : In c (a :: sub_hyphen_breaks rest) -> In c (a :: rest)).
    { intros [->|Hr]; [now left | right]. apply IH; [cbn in Hn; lia | exact Hr]. }
    destruct rest as [|h [|nl [|b rest']]]; try (now apply Hplain).
    destruct (is_word a && N.eqb h HYPHEN && N.eqb nl NL && is_word b)%bool;
      [|now apply Hplain].
    destruct Hin as [->|[->|Hr]]; [now left | now do 3 right; left|].
    do 4 right. apply IH; [cbn in Hn; lia | exact Hr].
Qed.

Lemma In_sub_space_runs c (s : str) :
  forall b, In c (sub_space_runs b s) -> In c s.
Proof.
  induction s as [|x s IH]; intros b Hin; cbn [sub_space_runs] in Hin;
    [exact Hin|].
  destruct (N.eqb x SP) eqn:E.
  - apply N.eqb_eq in E. subst x. destruct b.
    + right. exact (IH _ Hin).
    + destruct Hin as [<-|Hin]; [now left | right; exact (IH _ Hin)].
  - destruct Hin as [<-|Hin]; [now left | right; exact (IH _ Hin)].
Qed.

(** X5. Cleaned text holds no carriage return and no two spaces in a row,
    and has no whitespace at either end. *)
Theorem clean_text_is_tidy (text : str) :
  ~ In CR (clean_text text)
  /\ (forall l1 l2, clean_text text <> l1 ++ SP :: SP :: l2)
  /\ strip (clean_text text) = clean_text text.
Proof.
  unfold clean_text. split; [|split].
  - intros Hin. apply In_strip_inv, In_sub_space_runs in Hin.
    apply (@In_sub_hyphen_breaks _ _ _ (le_n _)) in Hin.
    apply In_sub_newline_runs in Hin. destruct Hin as [Hin|Hin]; [discriminate|].
    unfold sub_carriage_returns in Hin. apply in_map_iff in Hin.
    destruct Hin as [x [Hx _]]. destruct (N.eqb x CR) eqn:E; [discriminate|].
    apply N.eqb_neq in E. congruence.
  - intros l1 l2 E.
    set (body := sub_space_runs false _) in *.
    destruct (strip_infix body) as [pre [post Hbody]].
    pose proof (sub_space_runs_single
                  (sub_hyphen_breaks
                     (sub_newline_runs 0 (sub_carriage_returns text))) false)
      as Hsingle.
    fold body in Hsingle.
    apply (@single_spaced_no_pair body false Hsingle (pre ++ l1) (l2 ++ post)).
    rewrite Hbody at 1. rewrite E, <- !app_assoc. reflexivity.
  - apply strip_idem.
Qed.

End Cleaning.

End CleanTextProps.

(** ** Page extraction *)

Module ExtractionProps.
Import Py PyFacts Progress TextUtils ChunkerProps.
Local Open Scope py_scope.

(** The text a page contributes: its text layer, or what OCR reads when the
    layer is blank. *)
Definition page_source (page : Page) : outcome str :=
  if blank (page_text page) then page_ocr page else Returned (page_text page).

(** The preview kept for a page: rendered at 200 dpi when OCR ran, at 100
    otherwise. *)
Definition page_preview (page : Page) : list Z :=
  if blank (page_text page) then page_png page 200 else page_png page 100.

Section Extraction.
Context {S : Type} `{Reporter S} `{FloatArith} `{PyLib}.

(** The chunks of one page, tagged with its number. *)
Definition page_chunks (max_chars : Z) (text : str) (page_num : Z)
    : list (str * Z) :=
  if truthy (clean_text text) then
    match _chunk_text (clean_text text) max_chars with
    | Returned chunks => map (fun c => (c, page_num)) chunks
    | Raised _ => []
    end
  else [].

Definition document_chunks (max_chars : Z) (pages_text : list (str * Z))
    : list (str * Z) :=
  flat_map (fun tp => page_chunks max_chars (fst tp) (snd tp)) pages_text.

Definition cleaned_pages (pages_text : list (str * Z)) : list str :=
  filter truthy (map (fun tp => clean_text (fst tp)) pages_text).

(** Pages numbered from [pno + 1]. *)
Fixpoint numbered {A} (pno : Z) (items : list A) : list (A * Z) :=
  match items with
  | [] => []
  | a :: rest => (a, pno + 1) :: numbered (pno + 1) rest
  end.

Lemma report_returns cb p msg (s : S) :
  exists s', report cb p msg s = (Returned tt, s').
Proof. unfold report. eauto. Qed.

Lemma extract_pages_reads cb total pages :
  forall texts pno pages_text page_images (s : S),
    Forall2 (fun page text => page_source page = Returned text) pages texts ->
    exists s',
      extract_pages cb total pno pages pages_text page_images s
      = (Returned
           (pages_text ++ numbered pno texts,
            if cb
            then page_images
                 ++ map (fun pn => (snd pn, page_preview (fst pn))) (numbered pno pages)
            else page_images),
         s').
Proof.
  induction pages as [|page rest IH];
    intros texts pno pages_text page_images s Hall;
    inversion Hall as [|? text ? texts' Hsrc Hrest]; subst.
  - exists s. cbn. rewrite !app_nil_r. now destruct cb.
  - cbn [extract_pages numbered map fst snd]. unfold bind at 1.
    destruct (report_returns cb (10 + int_scaled pno total 30)
                (ExtractingPage (pno + 1) total) s) as [s1 ->].
    unfold page_source in Hsrc. unfold page_preview at 1.
    destruct (blank (page_text page)).
    + unfold bind at 1.
      destruct (report_returns cb (10 + int_scaled pno total 30)
                  (RunningOCR (pno + 1) total) s1) as [s2 ->].
      unfold bind at 1, lift. rewrite Hsrc.
      destruct (IH texts' (pno + 1) (pages_text ++ [(text, pno + 1)])
                  (if cb then page_images ++ [(pno + 1, page_png page 200)]
                   else page_images) s2 Hrest) as [s' ->].
      exists s'. destruct cb; rewrite <- ?app_assoc; reflexivity.
    + injection Hsrc as <-.
      destruct (IH texts' (pno + 1) (pages_text ++ [(page_text page, pno + 1)])
                  (if cb then page_images ++ [(pno + 1, page_png page 100)]
                   else page_images) s1 Hrest) as [s' ->].
      exists s'. destruct cb; rewrite <- ?app_assoc; reflexivity.
Qed.

Lemma extract_pages_fails cb total pages :
  forall pno pages_text page_images (s : S),
    Exists (fun page => exists e, page_source page = Raised e) pages ->
    exists e s',
      extract_pages cb total pno pages pages_text page_images s = (Raised e, s').
Proof.
  induction pages as [|page rest IH]; intros pno pages_text page_images s Hex;
    [inversion Hex|].
  cbn [extract_pages]. unfold bind at 1.
  destruct (report_returns cb (10 + int_scaled pno total 30)
              (ExtractingPage (pno + 1) total) s) as [s1 ->].
  unfold page_source in *.
  destruct (blank (page_text page)) eqn:Eb.
  - unfold bind at 1.
    destruct (report_returns cb (10 + int_scaled pno total 30)
                (RunningOCR (pno + 1) total) s1) as [s2 ->].
    unfold bind at 1, lift.
    destruct (page_ocr page) as [text|e] eqn:Eocr; [|eauto].
    apply IH. inversion Hex as [? ? [e He]|? ? Hrest]; subst; [|exact Hrest].
    rewrite ?Eb, ?Eocr in He. congruence.
  - apply IH. inversion Hex as [? ? [e He]|? ? Hrest]; subst; [|exact Hrest].
    rewrite Eb in He. discriminate.
Qed.

Lemma chunk_pages_returns cb max_chars total pages_text :
  forall idx all_chunks parts (s : S),
    0 < max_chars ->
    exists s',
      chunk_pages cb max_chars total idx pages_text all_chunks parts s
      = (Returned (all_chunks ++ document_chunks max_chars pages_text,
                   parts ++ cleaned_pages pages_text),
         s').
Proof.
  induction pages_text as [|[text page_num] rest IH];
    intros idx all_chunks parts s Hmax.
  - exists s. cbn. now rewrite !app_nil_r.
  - cbn [chunk_pages]. unfold document_chunks, cleaned_pages, page_chunks.
    cbn [flat_map map filter fst snd].
    destruct (chunk_text_returns (clean_text text) Hmax) as [chunks Hchunks].
    unfold bind at 1.
    destruct (truthy (clean_text text)) eqn:Et.
    + unfold bind at 1, lift. rewrite Hchunks. unfold ret at 1.
      unfold bind at 1.
      set (step := if (cb && ((idx + 1) mod 10 =? 0))%bool then _ else _).
      assert (Hstep : exists s1, step s = (Returned tt, s1)).
      { subst step. destruct (cb && _)%bool;
          [apply report_returns | exists s; reflexivity]. }
      destruct Hstep as [s1 ->]. cbn [fst snd].
      destruct (IH (idx + 1)
                  (all_chunks ++ map (fun c => (c, page_num)) chunks)
                  (parts ++ [clean_text text]) s1 Hmax) as [s' ->].
      exists s'. unfold document_chunks, cleaned_pages, page_chunks.
      now rewrite <- !app_assoc.
    + unfold ret at 1. unfold bind at 1.
      set (step := if (cb && ((idx + 1) mod 10 =? 0))%bool then _ else _).
      assert (Hstep : exists s1, step s = (Returned tt, s1)).
      { subst step. destruct (cb && _)%bool;
          [apply report_returns | exists s; reflexivity]. }
      destruct Hstep as [s1 ->]. cbn [fst snd].
      destruct (IH (idx + 1) all_chunks parts s1 Hmax) as [s' ->].
      exists s'. reflexivity.
Qed.

(** A document whose pages all yield text. *)
Lemma extract_run path max_chars cb doc texts (s : S) :
  document path = Returned doc ->
  Forall2 (fun page text => page_source page = Returned text) doc texts ->
  0 < max_chars ->
  fst (extract_and_chunk_pdf path max_chars cb s)
  = Returned
      (join [NL; NL] (cleaned_pages (numbered 0 texts)),
       document_chunks max_chars (numbered 0 texts),
       if cb
       then map (fun pn => (snd pn, page_preview (fst pn))) (numbered 0 doc)
       else []).
Proof.
  intros Hdoc Hall Hmax. unfold extract_and_chunk_pdf, try_except.
  unfold bind at 1, lift. rewrite Hdoc.
  unfold bind at 1.
  destruct (extract_pages_reads cb (len doc) 0 [] [] s Hall) as [s1 ->].
  cbn [fst snd app]. unfold bind at 1.
  destruct (report_returns cb 40 (ChunkingPages (len (numbered 0 texts))) s1)
    as [s2 ->].
  unfold bind at 1.
  destruct (chunk_pages_returns cb (len (numbered 0 texts)) (numbered 0 texts)
              0 [] [] s2 Hmax) as [s3 ->].
  cbn. now destruct cb.
Qed.

(** A document that does not open, or with a page that cannot be read. *)
Lemma extract_fails path max_chars cb (s : S) :
  (exists e, document path = Raised e)
  \/ (exists doc, document path = Returned doc
                  /\ Exists (fun page => exists e, page_source page = Raised e) doc) ->
  fst (extract_and_chunk_pdf path max_chars cb s) = Returned ([], [], []).
Proof.
  intros Hbad. unfold extract_and_chunk_pdf, try_except.
  unfold bind at 1, lift. destruct Hbad as [[e ->]|[doc [-> Hex]]];
    [reflexivity|].
  unfold bind at 1.
  destruct (extract_pages_fails cb (len doc) 0 [] [] s Hex) as [e [s1 ->]].
  reflexivity.
Qed.


(** X7. When the file does not open, or a page with a blank text layer
    cannot be read by OCR, the call still returns, with the empty text, no
    chunks and no previews: one unreadable page discards the whole
    document. *)
Theorem extract_gives_up_quietly path max_chars cb (s : S) :
  (exists e, document path = Raised e)
  \/ (exists doc, document path = Returned doc
                  /\ Exists (fun page => exists e, page_source page = Raised e) doc) ->
  fst (extract_and_chunk_pdf path max_chars cb s) = Returned ([], [], []).
Proof. apply extract_fails. Qed.

Lemma page_sources_decide (doc : list Page) :
  (exists texts, Forall2 (fun page text => page_source page = Returned text) doc texts)
  \/ Exists (fun page => exists e, page_source page = Raised e) doc.
Proof.
  induction doc as [|page rest [[texts IH]|IH]].
  - left. exists []. constructor.
  - destruct (page_source page) as [text|e] eqn:E.
    + left. exists (text :: texts). now constructor.
    + right. left. now exists e.
  - right. now right.
Qed.

Lemma page_chunks_tag max_chars text num c p :
  In (c, p) (page_chunks max_chars text num) ->
  p = num /\ MIN_CHUNK_CHARS <= len c /\ strip c = c.
Proof.
  unfold page_chunks. destruct (truthy (clean_text text)); [|contradiction].
  destruct (_chunk_text (clean_text text) max_chars) as [chunks|e] eqn:E;
    [|contradiction].
  intros Hin. apply in_map_iff in Hin. destruct Hin as [c' [Hc Hin]].
  injection Hc as -> ->. split; [reflexivity|].
  assert (Htrim : Forall (fun c => strip c = c) chunks).
  { apply (chunk_text_each (max_chars := max_chars)) with (text := clean_text text);
      [now intros | intros; apply strip_idem | intros; apply strip_idem | exact E]. }
  rewrite Forall_forall in Htrim. pose proof (Htrim _ Hin) as Hs.
  split; [|exact Hs].
  unfold _chunk_text in E. destruct (blank (clean_text text)).
  - injection E as <-. contradiction.
  - destruct (chunk_paragraphs _ _ _); [|discriminate]. injection E as <-.
    apply filter_In in Hin. destruct Hin as [_ Hlen]. apply Z.leb_le in Hlen.
    now rewrite Hs in Hlen.
Qed.

Lemma document_chunks_tags max_chars (texts : list str) :
  forall pno,
    Forall (fun cp => pno < snd cp <= pno + len texts
                      /\ MIN_CHUNK_CHARS <= len (fst cp)
                      /\ strip (fst cp) = fst cp)
      (document_chunks max_chars (numbered pno texts))
    /\ StronglySorted Z.le (map snd (document_chunks max_chars (numbered pno texts))).
Proof.
  induction texts as [|text rest IH]; intros pno; [split; constructor|].
  destruct (IH (pno + 1)) as [Htags Hsorted].
  pose proof (len_nonneg rest) as Hrest. rewrite len_cons.
  cbn [numbered document_chunks flat_map fst snd].
  fold (document_chunks max_chars (numbered (pno + 1) rest)).
  assert (Hhere : Forall (fun cp => snd cp = pno + 1
                                    /\ MIN_CHUNK_CHARS <= len (fst cp)
                                    /\ strip (fst cp) = fst cp)
                    (page_chunks max_chars text (pno + 1))).
  { apply Forall_forall. intros [c p] Hin. cbn [fst snd].
    exact (page_chunks_tag _ _ _ _ _ Hin). }
  split.
  - apply Forall_app. split.
    + apply Forall_impl with (2 := Hhere). intros cp [Hp Hq]. split; [lia | exact Hq].
    + apply Forall_impl with (2 := Htags). intros cp [Hp Hq]. split; [lia | exact Hq].
  - rewrite map_app. clear IH.
    induction (page_chunks max_chars text (pno + 1)) as [|[c p] here IHhere];
      [exact Hsorted|].
    inversion Hhere as [|? ? [Hp _] Hhere']; subst. cbn [fst snd] in *.
    cbn [map app snd]. constructor; [now apply IHhere|].
    apply Forall_app. split.
    + apply Forall_forall. intros q Hq. apply in_map_iff in Hq.
      destruct Hq as [[c' p'] [<- Hin]]. rewrite Forall_forall in Hhere'.
      destruct (Hhere' _ Hin) as [Hp' _]. cbn [snd] in *. lia.
    + apply Forall_forall. intros q Hq. apply in_map_iff in Hq.
      destruct Hq as [[c' p'] [<- Hin]]. rewrite Forall_forall in Htags.
      destruct (Htags _ Hin) as [Hp' _]. cbn [snd] in *. lia.
Qed.

(** The two ways a call can go, for a positive [max_chars]. *)
Lemma extract_cases path max_chars cb (s : S) :
  0 < max_chars ->
  (exists doc texts,
      document path = Returned doc
      /\ Forall2 (fun page text => page_source page = Returned text) doc texts
      /\ fst (extract_and_chunk_pdf path max_chars cb s)
         = Returned
             (join [NL; NL] (cleaned_pages (numbered 0 texts)),
              document_chunks max_chars (numbered 0 texts),
              if cb
              then map (fun pn => (snd pn, page_preview (fst pn))) (numbered 0 doc)
              else []))
  \/ fst (extract_and_chunk_pdf path max_chars cb s) = Returned ([], [], []).
Proof.
  intros Hmax.
  destruct (document path) as [doc|e] eqn:Hdoc;
    [|right; apply extract_fails; left; now exists e].
  destruct (page_sources_decide doc) as [[texts Hall]|Hex].
  - left. exists doc, texts. split; [reflexivity|]. split; [exact Hall|].
    now apply extract_run.
  - right. apply extract_fails. right. now exists doc.
Qed.

(** X8. Whatever the document, the chunks that come back carry page numbers
    between 1 and the number of pages, in reading order (page numbers never
    decrease along the list), and each chunk is trimmed and at least 50
    characters long. *)
Theorem extracted_chunks_are_ordered path max_chars cb (s : S) :
  0 < max_chars ->
  exists full_text chunks previews,
    fst (extract_and_chunk_pdf path max_chars cb s)
    = Returned (full_text, chunks, previews)
    /\ Forall (fun cp =>
                 (exists doc, document path = Returned doc
                              /\ 1 <= snd cp <= len doc)
                 /\ MIN_CHUNK_CHARS <= len (fst cp)
                 /\ strip (fst cp) = fst cp)
         chunks
    /\ StronglySorted Z.le (map snd chunks).
Proof.
  intros Hmax.
  destruct (extract_cases path cb s Hmax) as [[doc [texts [Hdoc [Hall ->]]]]| ->].
  - eexists _, _, _. split; [reflexivity|].
    destruct (document_chunks_tags max_chars texts 0) as [Htags Hsorted].
    split; [|exact Hsorted].
    apply Forall_impl with (2 := Htags). intros cp [Hp Hq]. split; [|exact Hq].
    exists doc. split; [exact Hdoc|].
    assert (len texts = len doc)
      by (symmetry; unfold len; now rewrite (Forall2_length Hall)).
    lia.
  - exists [], [], []. repeat split; constructor.
Qed.

End Extraction.

(** *** Two documents, read with a callback that keeps a log *)

Definition log_reporter : Reporter (list (Z * message)) :=
  {| deliver := fun percent msg log => log ++ [(percent, msg)] |}.

(** A page with a text layer, then a scanned page that OCR reads. *)
Definition scanned_pdf : PdfFile :=
  {| file_name := lit "notes.pdf";
     file_stem := lit "notes";
     document :=
       Returned
         [ {| page_text := lit "The first page has a text layer of more than fifty characters.";
              page_ocr := Returned [];
              page_png := fun dpi => [137; 80; 78; 71; dpi] |};
           {| page_text := lit "  ";
              page_ocr := Returned (lit "The second page is a scan, read by the OCR engine only.");
              page_png := fun dpi => [137; 80; 78; 71; dpi] |} ] |}.

(** The same, with an OCR engine that fails. *)
Definition unreadable_pdf : PdfFile :=
  {| file_name := lit "notes.pdf";
     file_stem := lit "notes";
     document :=
       Returned
         [ {| page_text := lit "The first page has a text layer of more than fifty characters.";
              page_ocr := Returned [];
              page_png := fun dpi => [137; 80; 78; 71; dpi] |};
           {| page_text := lit "  ";
              page_ocr := Raised (ValueError "tesseract is not installed");
              page_png := fun dpi => [137; 80; 78; 71; dpi] |} ] |}.

Definition scanned_texts : list str :=
  [lit "The first page has a text layer of more than fifty characters.";
   lit "The second page is a scan, read by the OCR engine only."].


Lemma extract_gives_up_quietly_witness :
  fst (@extract_and_chunk_pdf TextUtilsFacts.ascii_lib _ log_reporter
         EmbedStoreFacts.exact_arith unreadable_pdf 800 true [])
  = Returned ([], [], []).
Proof.
  apply (@extract_gives_up_quietly _ log_reporter EmbedStoreFacts.exact_arith
           TextUtilsFacts.ascii_lib unreadable_pdf 800 true []).
  right. eexists. split; [reflexivity|].
  apply Exists_cons_tl, Exists_cons_hd. eexists. reflexivity.
Defined.

Lemma extracted_chunks_are_ordered_witness :
  exists full_text chunks previews,
    fst (@extract_and_chunk_pdf TextUtilsFacts.ascii_lib _ log_reporter
           EmbedStoreFacts.exact_arith scanned_pdf 800 true [])
    = Returned (full_text, chunks, previews)
    /\ StronglySorted Z.le (map snd chunks).
Proof.
  destruct (@extracted_chunks_are_ordered _ log_reporter
              EmbedStoreFacts.exact_arith TextUtilsFacts.ascii_lib scanned_pdf
              800 true [] ltac:(lia))
    as [full_text [chunks [previews [Hrun [_ Hsorted]]]]].
  exists full_text, chunks, previews. now split.
Defined.

End ExtractionProps.


(** ** More on the cache *)

Module CacheCalls.
Import Py PyFacts CacheModel CacheFacts.
Local Open Scope py_scope.

(** *** Keys *)

(** The code points UTF-8 can carry: everything below U+110000 but the
    surrogates. *)
Definition encodable_char (c : char) : bool :=
  let z := Z.of_N c in
  ((z <? 55296) || ((57343 <? z) && (z <? 1114112)))%bool.

Definition encodable (s : str) : bool := forallb encodable_char s.

Lemma utf8_char_cases (c : char) :
  if encodable_char c then exists bs, Hashlib.utf8_char c = Returned bs
  else Hashlib.utf8_char c = Raised UnicodeEncodeError.
Proof.
  unfold encodable_char, Hashlib.utf8_char. cbv zeta.
  destruct (Z.of_N c <? 128) eqn:E1.
  { apply Z.ltb_lt in E1.
    replace (Z.of_N c <? 55296) with true by (symmetry; apply Z.ltb_lt; lia).
    cbn. eauto. }
  destruct (Z.of_N c <? 2048) eqn:E2.
  { apply Z.ltb_lt in E2.
    replace (Z.of_N c <? 55296) with true by (symmetry; apply Z.ltb_lt; lia).
    cbn. eauto. }
  destruct (Z.of_N c <? 65536) eqn:E3.
  { apply Z.ltb_lt in E3.
    replace (Z.of_N c <? 1114112) with true by (symmetry; apply Z.ltb_lt; lia).
    rewrite andb_true_r.
    destruct (55296 <=? Z.of_N c) eqn:E4; cbn [andb].
    - apply Z.leb_le in E4.
      replace (Z.of_N c <? 55296) with false by (symmetry; apply Z.ltb_ge; lia).
      cbn [orb]. rewrite Z.leb_antisym. now destruct (57343 <? Z.of_N c); cbn; eauto.
    - apply Z.leb_gt in E4.
      replace (Z.of_N c <? 55296) with true by (symmetry; apply Z.ltb_lt; lia).
      cbn. eauto. }
  apply Z.ltb_ge in E3.
  replace (Z.of_N c <? 55296) with false by (symmetry; apply Z.ltb_ge; lia).
  replace (57343 <? Z.of_N c) with true by (symmetry; apply Z.ltb_lt; lia).
  cbn [orb andb]. destruct (Z.of_N c <? 1114112); eauto.
Qed.

(** [query.encode()] fails exactly on a string that holds a surrogate. *)
Lemma encode_cases (s : str) :
  if encodable s then exists data, Hashlib.encode s = Returned data
  else Hashlib.encode s = Raised UnicodeEncodeError.
Proof.
  induction s as [|c s IH]; cbn [encodable forallb Hashlib.encode]; [eauto|].
  pose proof (utf8_char_cases c) as Hc. fold (encodable s).
  destruct (encodable_char c); cbn [andb].
  - destruct Hc as [bs ->]. destruct (encodable s).
    + destruct IH as [data ->]. eauto.
    + now rewrite IH.
  - now rewrite Hc.
Qed.

Lemma make_key_cases prefix query :
  if encodable query then exists key, _make_key prefix query = Returned key
  else _make_key prefix query = Raised UnicodeEncodeError.
Proof.
  unfold _make_key. pose proof (encode_cases query) as H.
  destruct (encodable query); [destruct H as [data ->]; eauto | now rewrite H].
Qed.

Lemma le_bytes_length (n : nat) : forall x, List.length (Hashlib.le_bytes n x) = n.
Proof. induction n as [|n IH]; intros x; cbn; [reflexivity | now rewrite IH]. Qed.

Lemma le_bytes_range (n : nat) :
  forall x, Forall (fun b => 0 <= b < 256) (Hashlib.le_bytes n x).
Proof.
  induction n as [|n IH]; intros x; cbn; constructor; [|apply IH].
  apply Z.mod_pos_bound. lia.
Qed.

Lemma md5_digest_bytes (data : list Z) :
  List.length (Hashlib.md5_digest data) = 16%nat
  /\ Forall (fun b => 0 <= b < 256) (Hashlib.md5_digest data).
Proof.
  unfold Hashlib.md5_digest. cbv zeta.
  destruct (fold_left _ _ _) as [[[a b] c] d]. split.
  - now rewrite !length_app, !le_bytes_length.
  - repeat (apply Forall_app; split); apply le_bytes_range.
Qed.

(** The characters of a lower-case hexadecimal number. *)
Definition is_hex (c : char) : bool :=
  ((48 <=? c) && (c <=? 57) || (97 <=? c) && (c <=? 102))%N.

Lemma hex_digit_is_hex (n : Z) : 0 <= n < 16 -> is_hex (Hashlib.hex_digit n) = true.
Proof.
  intros Hn. unfold Hashlib.hex_digit, is_hex.
  destruct (n <? 10) eqn:E; [apply Z.ltb_lt in E | apply Z.ltb_ge in E].
  - assert (H1 : (48 <=? Z.to_N (48 + n))%N = true) by (apply N.leb_le; lia).
    assert (H2 : (Z.to_N (48 + n) <=? 57)%N = true) by (apply N.leb_le; lia).
    now rewrite H1, H2.
  - assert (H1 : (97 <=? Z.to_N (87 + n))%N = true) by (apply N.leb_le; lia).
    assert (H2 : (Z.to_N (87 + n) <=? 102)%N = true) by (apply N.leb_le; lia).
    rewrite H1, H2. apply orb_true_r.
Qed.

Lemma hexdigest_shape (data : list Z) :
  len (Hashlib.md5_hexdigest data) = 32
  /\ forallb is_hex (Hashlib.md5_hexdigest data) = true.
Proof.
  unfold Hashlib.md5_hexdigest.
  destruct (md5_digest_bytes data) as [Hlen Hrange].
  assert (Hgen : forall bytes,
             Forall (fun b => 0 <= b < 256) bytes ->
             len (flat_map Hashlib.hex_byte bytes) = 2 * len bytes
             /\ forallb is_hex (flat_map Hashlib.hex_byte bytes) = true).
  { induction 1 as [|b bytes Hb _ [IH1 IH2]]; [split; reflexivity|].
    cbn [flat_map Hashlib.hex_byte app forallb]. split.
    - rewrite !len_cons, IH1. lia.
    - rewrite !hex_digit_is_hex, IH2; [reflexivity | |].
      + apply Z.mod_pos_bound. lia.
      + split; [apply Z.div_pos; lia | apply Z.div_lt_upper_bound; lia]. }
  destruct (Hgen _ Hrange) as [H1 H2]. split; [|exact H2].
  rewrite H1. unfold len. rewrite Hlen. reflexivity.
Qed.

(** Two strings that end in tails of the same length and are equal have the
    same heads. *)
Lemma app_same_tail_length {A} (a a' b b' : list A) :
  a ++ b = a' ++ b' -> List.length b = List.length b' -> a = a' /\ b = b'.
Proof.
  revert a'. induction a as [|x a IH]; intros [|x' a'] E Hlen; cbn in E.
  - now split.
  - subst b. cbn in Hlen. rewrite length_app in Hlen. lia.
  - subst b'. cbn in Hlen. rewrite length_app in Hlen. lia.
  - injection E as -> E. destruct (IH _ E Hlen) as [-> ->]. now split.
Qed.

Lemma make_key_shape prefix query key :
  _make_key prefix query = Returned key ->
  exists digest,
    key = key_prefix prefix ++ digest
    /\ len digest = 32 /\ forallb is_hex digest = true.
Proof.
  unfold _make_key.
  destruct (Hashlib.encode query) as [data|e]; [|discriminate].
  intros Hkey. injection Hkey as <-.
  destruct (hexdigest_shape data) as [Hlen Hhex].
  exists (Hashlib.md5_hexdigest data). now split.
Qed.

Lemma key_prefix_inj (p p' h h' : str) :
  key_prefix p ++ h = key_prefix p' ++ h' -> len h = len h' -> p = p'.
Proof.
  intros E Hlen. apply app_same_tail_length in E; [|unfold len in Hlen; lia].
  destruct E as [E _]. unfold key_prefix in E.
  apply app_inv_head in E. now apply app_inv_tail in E.
Qed.

(** X9. A key is [bookvision:], the namespace, a colon and 32 lower-case
    hexadecimal digits; so two calls that derive the same key were given the
    same namespace: entries of different namespaces never share a key. *)
Theorem keys_keep_namespaces_apart prefix query key :
  _make_key prefix query = Returned key ->
  (exists digest,
      key = lit "bookvision:" ++ prefix ++ lit ":" ++ digest
      /\ len digest = 32 /\ forallb is_hex digest = true)
  /\ (forall prefix' query',
         _make_key prefix' query' = Returned key -> prefix' = prefix).
Proof.
  intros Hkey. destruct (make_key_shape _ _ Hkey) as [digest [-> [Hlen Hhex]]].
  split.
  - exists digest. unfold key_prefix. rewrite <- !app_assoc. now split.
  - intros prefix' query' Hkey'.
    destruct (make_key_shape _ _ Hkey') as [digest' [E [Hlen' _]]].
    symmetry. eapply key_prefix_inj; [exact E | lia].
Qed.

Lemma keys_keep_namespaces_apart_witness :
  exists key,
    _make_key (lit "query") (lit "what is a chunk?") = Returned key
    /\ len key = 49.
Proof.
  assert (Hkey : exists key,
             _make_key (lit "query") (lit "what is a chunk?") = Returned key)
    by (eexists; vm_compute; reflexivity).
  destruct Hkey as [key Hkey]. exists key. split; [exact Hkey|].
  destruct (keys_keep_namespaces_apart _ _ Hkey) as [[digest [-> [Hlen _]]] _].
  rewrite !len_app, Hlen. reflexivity.
Defined.

(** *** Calls *)

Section CallProps.

Variable value : Type.
Variable json_dumps : value -> outcome str.
Variable json_loads : str -> outcome (option value).
Variable CACHE_TTL : Z.
Variable glob_match : str -> str -> bool.

Local Notation "'Cache'" := (CacheModel.Cache value).

(** What the next [get] finds when the entry went to the fallback: an older
    text the server still holds under the key, decoded, comes first; else the
    value itself. *)
Definition behind_server (c : Cache) (key : str) (v : value) : option value :=
  match redis_client c with
  | Some r =>
      if reachable r then
        match keyspace r key with
        | Some old => decoded json_loads old (Some v)
        | None => Some v
        end
      else Some v
  | None => Some v
  end.

(** X10. What [get] returns right after a [set] of the same query.  When the
    durable tier took the entry it is [json.loads] of the text [json.dumps]
    made of the value, which need not be the value itself (and when that text
    is empty or does not decode, what the fallback held before).  When the
    fallback took it, because there is no server, the server does not answer
    or refuses the expiry, or the value does not serialise, it is the value
    itself, unless the server answers and still holds an older text under the
    key, which then comes first. *)
Theorem get_after_set (c : Cache) prefix query (v : value) ttl key :
  reachable_cache json_dumps json_loads CACHE_TTL glob_match c ->
  _make_key prefix query = Returned key ->
  let c' := snd (set json_dumps CACHE_TTL prefix query v ttl c) in
  fst (set json_dumps CACHE_TTL prefix query v ttl c) = Returned tt
  /\ fst (get json_loads prefix query c')
     = Returned
         match redis_client c, json_dumps v with
         | Some r, Returned text =>
             if (reachable r && (0 <? effective_ttl CACHE_TTL ttl))%bool
             then decoded json_loads text (dict_get (memory_cache c) key)
             else behind_server c key v
         | _, _ => behind_server c key v
         end.
Proof.
  intros Hreach Hkey c'. subst c'.
  rewrite (@set_run value json_dumps CACHE_TTL c prefix query v ttl key Hkey).
  split; [reflexivity|]. cbn [snd]. rewrite get_result, Hkey. f_equal.
  pose proof (@stored_is_found value (memory_cache c) key v
                (@reachable_bounded _ _ _ _ _ c Hreach)) as Hfound.
  assert (Hfallen :
            match redis_client (fallen_back c key v) with
            | Some r =>
                match redis_get r key with
                | Returned (Some cached) =>
                    decoded json_loads cached
                      (dict_get (memory_cache (fallen_back c key v)) key)
                | _ => dict_get (memory_cache (fallen_back c key v)) key
                end
            | None => dict_get (memory_cache (fallen_back c key v)) key
            end = behind_server c key v).
  { unfold fallen_back, behind_server. cbn [redis_client memory_cache].
    rewrite Hfound. destruct (redis_client c) as [r|]; [|reflexivity].
    unfold redis_get. destruct (reachable r); [|reflexivity].
    now destruct (keyspace r key). }
  destruct (redis_client c) as [r|] eqn:Hr; [|exact Hfallen].
  destruct (json_dumps v) as [text|e]; [|exact Hfallen].
  destruct (reachable r && (0 <? effective_ttl CACHE_TTL ttl))%bool eqn:E;
    [|exact Hfallen].
  apply andb_true_iff in E. destruct E as [Er _].
  cbn [redis_client memory_cache]. unfold redis_get.
  cbn [reachable keyspace]. now rewrite Er, str_eqb_refl.
Qed.

(** X11. While the fallback holds fewer than 1000 entries, storing an entry
    leaves every entry under another key to be read as before. *)
Theorem set_leaves_other_entries (c : Cache) prefix query (v : value) ttl key
    prefix' query' key' :
  len (memory_cache c) < 1000 ->
  _make_key prefix query = Returned key ->
  _make_key prefix' query' = Returned key' ->
  key' <> key ->
  fst (get json_loads prefix' query'
         (snd (set json_dumps CACHE_TTL prefix query v ttl c)))
  = fst (get json_loads prefix' query' c).
Proof.
  intros Hlen Hkey Hkey' Hne.
  rewrite (@set_run value json_dumps CACHE_TTL c prefix query v ttl key Hkey).
  cbn [snd]. rewrite !get_result, Hkey'. f_equal.
  pose proof (@stored_leaves_others value (memory_cache c) key key' v Hlen Hne)
    as Hsame.
  assert (Heqb : str_eqb key' key = false) by now apply str_eqb_neq.
  assert (Hfallen :
            match redis_client (fallen_back c key v) with
            | Some r =>
                match redis_get r key' with
                | Returned (Some cached) =>
                    decoded json_loads cached
                      (dict_get (memory_cache (fallen_back c key v)) key')
                | _ => dict_get (memory_cache (fallen_back c key v)) key'
                end
            | None => dict_get (memory_cache (fallen_back c key v)) key'
            end
            = match redis_client c with
              | Some r =>
                  match redis_get r key' with
                  | Returned (Some cached) =>
                      decoded json_loads cached (dict_get (memory_cache c) key')
                  | _ => dict_get (memory_cache c) key'
                  end
              | None => dict_get (memory_cache c) key'
              end).
  { unfold fallen_back. cbn [redis_client memory_cache]. now rewrite Hsame. }
  destruct (redis_client c) as [r|] eqn:Hr; [|exact Hfallen].
  destruct (json_dumps v) as [text|e]; [|exact Hfallen].
  destruct (reachable r && (0 <? effective_ttl CACHE_TTL ttl))%bool eqn:E;
    [|exact Hfallen].
  cbn [redis_client memory_cache]. unfold redis_get.
  cbn [reachable keyspace]. now rewrite Heqb.
Qed.


(** X13. The three calls let one exception through: [get] and [set] raise
    [UnicodeEncodeError], before touching anything, exactly when the query
    holds a surrogate and so cannot be encoded for hashing; with any other
    query they return whatever the server and the JSON codec do, and [clear]
    always returns. *)
Theorem only_unencodable_queries_raise (c : Cache) prefix query (v : value)
    ttl (p : option str) :
  (if encodable query
   then (exists found, get json_loads prefix query c = (Returned found, c))
        /\ fst (set json_dumps CACHE_TTL prefix query v ttl c) = Returned tt
   else get json_loads prefix query c = (Raised UnicodeEncodeError, c)
        /\ set json_dumps CACHE_TTL prefix query v ttl c
           = (Raised UnicodeEncodeError, c))
  /\ fst (clear glob_match p c) = Returned tt.
Proof.
  split; [|reflexivity].
  pose proof (make_key_cases prefix query) as Hkey.
  destruct (encodable query).
  - destruct Hkey as [key Hkey]. split.
    + pose proof (get_result json_loads c prefix query) as Hget.
      pose proof (get_reads_only json_loads c prefix query) as Hsame.
      rewrite Hkey in Hget.
      destruct (get json_loads prefix query c) as [o c1].
      cbn [fst snd] in *. subst. eauto.
    + now rewrite (@set_run value json_dumps CACHE_TTL c prefix query v ttl
                     key Hkey).
  - unfold get, set, bind, lift. now rewrite Hkey.
Qed.

End CallProps.

(** *** Concrete calls *)

Definition chunk_key : str :=
  Eval vm_compute in
    match _make_key (lit "query") (lit "what is a chunk?") with
    | Returned key => key
    | Raised _ => []
    end.

Definition page_key : str :=
  Eval vm_compute in
    match _make_key (lit "query") (lit "what is a page?") with
    | Returned key => key
    | Raised _ => []
    end.

(** JSON that writes every integer as its absolute value: what comes back
    from the server is not what went in. *)
Definition lossy_dumps (z : Z) : outcome str := int_dumps (Z.abs z).

Lemma get_after_set_witness :
  fst (get int_loads (lit "query") (lit "what is a chunk?")
         (snd (set int_dumps 3600 (lit "query") (lit "what is a chunk?") 7
                 (Some 60) (@init Z (Some empty_server)))))
  = Returned (Some 7)
  /\ fst (get int_loads (lit "query") (lit "what is a chunk?")
            (snd (set lossy_dumps 3600 (lit "query") (lit "what is a chunk?")
                    (-7) (Some 60) (@init Z (Some empty_server)))))
     = Returned (Some 7).
Proof.
  assert (Hkey : _make_key (lit "query") (lit "what is a chunk?")
                 = Returned chunk_key) by (vm_compute; reflexivity).
  split.
  - destruct (@get_after_set Z int_dumps int_loads 3600 star_suffix_match
                (@init Z (Some empty_server))
                (lit "query") (lit "what is a chunk?") 7 (Some 60) chunk_key
                (reach_init int_dumps int_loads 3600 star_suffix_match
                   (Some empty_server)) Hkey)
      as [_ Hget].
    rewrite Hget. vm_compute. reflexivity.
  - destruct (@get_after_set Z lossy_dumps int_loads 3600 star_suffix_match
                (@init Z (Some empty_server))
                (lit "query") (lit "what is a chunk?") (-7) (Some 60) chunk_key
                (reach_init lossy_dumps int_loads 3600 star_suffix_match
                   (Some empty_server)) Hkey)
      as [_ Hget].
    rewrite Hget. vm_compute. reflexivity.
Defined.

Lemma set_leaves_other_entries_witness :
  let c := snd (set int_dumps 3600 (lit "query") (lit "what is a page?") 3 None
                  (@init Z None)) in
  fst (get int_loads (lit "query") (lit "what is a page?")
         (snd (set int_dumps 3600 (lit "query") (lit "what is a chunk?") 7
                 None c)))
  = Returned (Some 3).
Proof.
  intros c.
  assert (Hkey : _make_key (lit "query") (lit "what is a chunk?")
                 = Returned chunk_key) by (vm_compute; reflexivity).
  assert (Hkey' : _make_key (lit "query") (lit "what is a page?")
                  = Returned page_key) by (vm_compute; reflexivity).
  assert (Hne : page_key <> chunk_key)
    by (apply str_eqb_neq; vm_compute; reflexivity).
  assert (Hlen : len (memory_cache c) < 1000) by (vm_compute; reflexivity).
  rewrite (@set_leaves_other_entries Z int_dumps int_loads 3600 c (lit "query")
             (lit "what is a chunk?") 7 None chunk_key (lit "query")
             (lit "what is a page?") page_key Hlen Hkey Hkey' Hne).
  vm_compute. reflexivity.
Defined.


End CacheCalls.

(** ** More on the vector store *)

Module StoreCalls.
Import Py PyFacts Progress EmbedStoreModel EmbedStoreFacts.
Local Open Scope py_scope.

Section CallCases.
Context `{Backend} `{FloatArith} `{Disk World}.

(** The record stored for a chunk: the caller's metadata with the text under
    [chunk_text]. *)
Definition record_of (cm : str * metadata) : metadata :=
  dict_set (snd cm) CHUNK_TEXT (PStr (fst cm)).

(** Row [v] is the embedding of the chunk of entry [cm], normalised the way
    [add] or the way [add_batch] does it, and the chunk is not blank. *)
Definition embeds (v : vec) (cm : str * metadata) : Prop :=
  has_text (fst cm) = true
  /\ (v = _normalize (encode (fst cm)) \/ v = normalize_row (encode (fst cm))).

Definition extended (ix : IndexFlatIP) (rows : list vec) : IndexFlatIP :=
  {| d := d ix; xb := xb ix ++ rows |}.

(** The disk takes both writes of a [_save] run in state [w]. *)
Definition accepts (w : World) : Prop :=
  write_index w = Done /\ dump_meta w = Done.

(** [_save] always returns, and touches nothing but the two files. *)
Lemma save_frame (w : World) :
  fst (_save w) = Returned tt
  /\ embed_store (snd (_save w)) = embed_store w
  /\ page_image_dirs (snd (_save w)) = page_image_dirs w
  /\ delivered (snd (_save w)) = delivered w.
Proof. repeat split. Qed.

Lemma grown_to_write s (rows : list vec) (records : list metadata) :
  rows <> [] ->
  index_to_write (grown s rows records)
  = Some (extended (index_in_use s) rows).
Proof.
  intros Hrows. unfold index_to_write, grown, extended. cbn [index].
  assert (Hpos : (ntotal {| d := d (index_in_use s);
                            xb := xb (index_in_use s) ++ rows |} >? 0) = true).
  { unfold ntotal. cbn [xb]. rewrite len_app, Z.gtb_ltb. apply Z.ltb_lt.
    pose proof (len_nonneg (xb (index_in_use s))).
    destruct rows; [contradiction|]. rewrite len_cons.
    pose proof (len_nonneg rows). lia. }
  now rewrite Hpos.
Qed.

(** When the disk takes both writes, the files hold the store. *)
Lemma save_accepted (w : World) s (rows : list vec) (records : list metadata) :
  embed_store w = grown s rows records -> rows <> [] -> accepts w ->
  VEC_FILE (snd (_save w)) = Holds (extended (index_in_use s) rows)
  /\ META_FILE (snd (_save w)) = Holds (meta s ++ records).
Proof.
  intros Hs Hrows [Hi Hm]. unfold _save, save_index, save_meta.
  cbn [snd fst VEC_FILE META_FILE].
  rewrite Hs, (grown_to_write s records Hrows), Hi, Hm. cbn [fst snd].
  split; reflexivity.
Qed.

(** The three ways a call can go: nothing to store, rows the index refuses,
    or entries stored and a [_save] run on the grown store. *)
Lemma perform_cases (c : call) (w : World) :
  (fst (perform c w) = Returned tt /\ quiet w (snd (perform c w)))
  \/ (fst (perform c w) = Raised AssertionError
      /\ model_dim <> d (index_in_use (embed_store w))
      /\ exists w4, quiet w w4
                    /\ snd (perform c w) = after_refusal (embed_store w) w4)
  \/ (fst (perform c w) = Returned tt
      /\ model_dim = d (index_in_use (embed_store w))
      /\ exists rows entries ws,
           Forall2 embeds rows entries
           /\ rows <> []
           /\ embed_store ws
              = grown (embed_store w) rows (map record_of entries)
           /\ VEC_FILE ws = VEC_FILE w
           /\ META_FILE ws = META_FILE w
           /\ page_image_dirs ws = page_image_dirs w
           /\ snd (perform c w) = snd (_save ws)).
Proof.
  destruct c as [chunk_text md | chunks metadata_list cb]; cbn [perform].
  - rewrite add_run. destruct (blank chunk_text) eqn:Eb.
    { left. split; [reflexivity | apply quiet_refl]. }
    destruct (model_dim =? d (index_in_use (embed_store w))) eqn:Ed.
    + right; right. apply Z.eqb_eq in Ed.
      split; [reflexivity|]. split; [exact Ed|].
      exists [_normalize (encode chunk_text)], [(chunk_text, md)].
      exists (with_store w
                (grown (embed_store w) [_normalize (encode chunk_text)]
                   [dict_set md CHUNK_TEXT (PStr chunk_text)])).
      split.
      { constructor; [|constructor]. split; [|now left]. cbn [fst].
        unfold blank in Eb. now apply negb_false_iff in Eb. }
      split; [discriminate|]. repeat split.
    + right; left. apply Z.eqb_neq in Ed. split; [reflexivity|].
      split; [exact Ed|]. exists w. split; [apply quiet_refl | reflexivity].
  - destruct (batch_refused chunks metadata_list) eqn:Eref.
    { left. unfold add_batch. unfold batch_refused in Eref. rewrite Eref.
      split; [reflexivity | apply quiet_refl]. }
    destruct (valid_entries chunks metadata_list) as [|cm0 valid0] eqn:Eval.
    { left. unfold add_batch. unfold batch_refused in Eref. rewrite Eref.
      unfold valid_entries in Eval. rewrite Eval.
      split; [reflexivity | apply quiet_refl]. }
    destruct (@add_batch_run _ _ _ chunks metadata_list cb w Eref)
      as [w4 [Hq ->]];
      [rewrite Eval; discriminate|].
    destruct (model_dim =? d (index_in_use (embed_store w))) eqn:Ed.
    + right; right. apply Z.eqb_eq in Ed.
      split; [reflexivity|]. split; [exact Ed|].
      exists (map (fun cm => normalize_row (encode (fst cm)))
                (valid_entries chunks metadata_list)),
             (valid_entries chunks metadata_list).
      exists (snd (report cb 90 SavingIndex
                     (with_store w4
                        (grown (embed_store w)
                           (map (fun cm => normalize_row (encode (fst cm)))
                              (valid_entries chunks metadata_list))
                           (map (fun cm => dict_set (snd cm) CHUNK_TEXT
                                             (PStr (fst cm)))
                              (valid_entries chunks metadata_list)))))).
      split.
      { unfold valid_entries. clear.
        induction (combine chunks metadata_list) as [|cm l IH];
          cbn [filter map]; [constructor|].
        destruct (has_text (fst cm)) eqn:E; [|exact IH].
        cbn [map]. constructor; [|exact IH]. split; [exact E | now right]. }
      split; [rewrite Eval; discriminate|].
      destruct Hq as [_ [Hv [Hm Hd]]].
      split; [|split; [|split; [|split; [|reflexivity]]]].
      * rewrite report_store. reflexivity.
      * unfold report. destruct cb; cbn; exact Hv.
      * unfold report. destruct cb; cbn; exact Hm.
      * unfold report. destruct cb; cbn; exact Hd.
    + right; left. apply Z.eqb_neq in Ed. split; [reflexivity|].
      split; [exact Ed|]. exists w4. split; [exact Hq | reflexivity].
Qed.

Lemma vectors_after_refusal (s : EmbedStore) (w : World) :
  embed_store w = s ->
  vectors (embed_store (after_refusal s w)) = vectors s
  /\ meta (embed_store (after_refusal s w)) = meta s
  /\ dim (embed_store (after_refusal s w)) = dim s.
Proof.
  intros Hs. unfold after_refusal, vectors.
  destruct (index s) eqn:E.
  - rewrite Hs, E. repeat split.
  - cbn. unfold index_in_use. rewrite E. repeat split.
Qed.

Lemma files_after_refusal (s : EmbedStore) (w : World) :
  VEC_FILE (after_refusal s w) = VEC_FILE w
  /\ META_FILE (after_refusal s w) = META_FILE w
  /\ page_image_dirs (after_refusal s w) = page_image_dirs w.
Proof. unfold after_refusal. destruct (index s); repeat split. Qed.

(** X14. [add] and [add_batch] raise in one case only, when the index
    refuses rows of the model's width; then no row and no record has been
    stored and the index files are as before. *)
Theorem refused_rows_change_nothing (c : call) (w : World) (e : exn) :
  fst (perform c w) = Raised e ->
  e = AssertionError
  /\ model_dim <> d (index_in_use (embed_store w))
  /\ vectors (embed_store (snd (perform c w))) = vectors (embed_store w)
  /\ meta (embed_store (snd (perform c w))) = meta (embed_store w)
  /\ VEC_FILE (snd (perform c w)) = VEC_FILE w
  /\ META_FILE (snd (perform c w)) = META_FILE w.
Proof.
  intros He.
  destruct (perform_cases c w)
    as [[Hr _] | [[Hr [Hd [w4 [Hq ->]]]] | [Hr _]]]; try congruence.
  destruct Hq as [Hs [Hv [Hm _]]].
  destruct (vectors_after_refusal w4 Hs) as [H3 [H4 _]].
  destruct (files_after_refusal (embed_store w) w4) as [H5 [H6 _]].
  repeat split; congruence.
Qed.

(** *** Restarting *)

(** The files hold what the store holds: nothing yet on either side, or the
    index and the records as last saved. *)
Definition durable (dimension : Z) (w : World) : Prop :=
  exists ix,
    dim (embed_store w) = dimension
    /\ index (embed_store w) = Some ix
    /\ ntotal ix = len (meta (embed_store w))
    /\ ((ix = new_index dimension
         /\ VEC_FILE w = Missing /\ META_FILE w = Missing)
        \/ (VEC_FILE w = Holds ix
            /\ META_FILE w = Holds (meta (embed_store w)))).

Lemma fresh_durable dimension : durable dimension (fresh_world dimension).
Proof.
  exists (new_index dimension). repeat split. left. repeat split.
Qed.

Lemma durable_restart dimension (w : World) :
  durable dimension w ->
  fst (__init__ dimension w) = Returned tt
  /\ embed_store (snd (__init__ dimension w)) = embed_store w.
Proof.
  intros [ix [Hdim [Hix [Hn Hfiles]]]].
  unfold __init__, _load, bind, put_store.
  cbn [fst snd with_store embed_store VEC_FILE META_FILE dim meta].
  assert (Hstore : embed_store w
                   = {| dim := dimension; index := Some ix;
                        meta := meta (embed_store w) |}).
  { destruct (embed_store w) as [dm i ms]. cbn in *. now subst. }
  destruct Hfiles as [[-> [-> ->]] | [-> ->]].
  - assert (Hnil : meta (embed_store w) = []).
    { apply len_nil_inv. rewrite <- Hn. cbn. lia. }
    cbn. split; [reflexivity|]. rewrite Hstore, Hnil. reflexivity.
  - rewrite (@load_files_readable _ dimension (Holds ix)
               (Holds (meta (embed_store w))) [])
      by discriminate.
    destruct (repaired_cases ix (meta (embed_store w))) as [_ [_ Hsame]].
    rewrite (Hsame Hn). cbn [fst snd with_store embed_store].
    split; [reflexivity|]. now rewrite Hstore at 2.
Qed.

(** In memory, whatever the disk does: the store keeps its width, has an
    index, and as many rows as records. *)
Definition shaped (dimension : Z) (s : EmbedStore) : Prop :=
  dim s = dimension
  /\ exists ix, index s = Some ix /\ ntotal ix = len (meta s).

Lemma perform_shaped dimension (c : call) (w : World) :
  shaped dimension (embed_store w) ->
  shaped dimension (embed_store (snd (perform c w))).
Proof.
  intros [Hdim [ix [Hix Hn]]].
  destruct (perform_cases c w)
    as [[_ Hq] | [[_ [_ [w4 [Hq ->]]]] | [_ [_ [rows [entries [ws Hst]]]]]]].
  - destruct Hq as [-> _]. split; [exact Hdim|]. now exists ix.
  - destruct Hq as [Hs _]. unfold after_refusal. rewrite Hix, Hs.
    split; [exact Hdim|]. now exists ix.
  - destruct Hst as [Hemb [_ [Hs [_ [_ [_ ->]]]]]].
    destruct (save_frame ws) as [_ [-> _]]. rewrite Hs.
    unfold grown, index_in_use. rewrite Hix. cbn [dim index meta].
    split; [exact Hdim|]. eexists. split; [reflexivity|].
    unfold ntotal in *. cbn [xb meta]. rewrite !len_app, len_map, Hn.
    now rewrite (Forall2_len Hemb).
Qed.

Lemma perform_all_shaped dimension (calls : list call) :
  forall w, shaped dimension (embed_store w) ->
            shaped dimension (embed_store (perform_all calls w)).
Proof.
  induction calls as [|c calls IH]; intros w Hw; [exact Hw|].
  cbn [perform_all]. apply IH. now apply perform_shaped.
Qed.

Lemma fresh_shaped dimension :
  shaped dimension (embed_store (fresh_world dimension)).
Proof. split; [reflexivity|]. exists (new_index dimension). now split. Qed.

(** X15. The store is durable as of its last save.  From a start on an
    empty disk and after any sequence of [add] and [add_batch] calls,
    whatever became of their writes, a call that stores something and whose
    two writes the disk takes leaves files from which starting over rebuilds
    the very store the process holds: the same width, the same index rows and
    the same records. *)
Theorem restart_loses_nothing (dimension : Z) (calls : list call) (c : call) :
  let w := perform_all calls (fresh_world dimension) in
  let w' := snd (perform c w) in
  meta (embed_store w') <> meta (embed_store w) ->
  (forall ws, embed_store ws = embed_store w' -> accepts ws) ->
  fst (__init__ dimension w') = Returned tt
  /\ embed_store (snd (__init__ dimension w')) = embed_store w'.
Proof.
  intros w w' Hgrew Hdisk. apply durable_restart.
  pose proof (@perform_all_shaped dimension calls _ (fresh_shaped dimension))
    as Hw.
  fold w in Hw.
  pose proof (@perform_shaped dimension c w Hw) as Hw'. fold w' in Hw'.
  destruct Hw' as [Hdim [ix' [Hix' Hn']]].
  exists ix'. split; [exact Hdim|]. split; [exact Hix'|]. split; [exact Hn'|].
  right. subst w'.
  destruct (perform_cases c w)
    as [[_ Hq] | [[_ [_ [w4 [Hq E]]]] | [_ [_ [rows [entries [ws Hst]]]]]]].
  - exfalso. apply Hgrew. now destruct Hq as [-> _].
  - exfalso. apply Hgrew. rewrite E. destruct Hq as [Hs _].
    now destruct (vectors_after_refusal w4 Hs) as [_ [-> _]].
  - destruct Hst as [_ [Hrows [Hs [_ [_ [_ E]]]]]].
    assert (Hacc : accepts ws).
    { apply Hdisk. rewrite E. now destruct (save_frame ws) as [_ [-> _]]. }
    destruct (save_accepted Hs Hrows Hacc) as [Hv Hm].
    rewrite E in Hix' |- *. rewrite Hv, Hm.
    destruct (save_frame ws) as [_ [Hst _]]. rewrite Hst in Hix' |- *.
    rewrite Hs in Hix' |- *. cbn [grown index meta] in Hix' |- *.
    injection Hix' as <-. split; reflexivity.
Qed.

(** *** What the store holds *)

(** Row by row, the index holds the embedding of the text kept under
    [chunk_text] in the record at the same position, and that text is not
    blank. *)
Definition filed (s : EmbedStore) : Prop :=
  Forall2
    (fun v m => exists c,
         dict_get m CHUNK_TEXT = Some (PStr c) /\ blank c = false
         /\ (v = _normalize (encode c) \/ v = normalize_row (encode c)))
    (vectors s) (meta s).

Lemma perform_filed (c : call) (w : World) :
  filed (embed_store w) -> filed (embed_store (snd (perform c w))).
Proof.
  intros Hw. unfold filed in *.
  destruct (perform_cases c w)
    as [[_ Hq] | [[_ [_ [w4 [Hq ->]]]] | [_ [_ [rows [entries [ws Hst]]]]]]].
  - destruct Hq as [-> _]. exact Hw.
  - destruct Hq as [Hs _].
    destruct (vectors_after_refusal w4 Hs) as [-> [-> _]]. exact Hw.
  - destruct Hst as [Hemb [_ [Hs [_ [_ [_ ->]]]]]].
    destruct (save_frame ws) as [_ [-> _]]. rewrite Hs.
    rewrite vectors_grown. cbn [grown meta]. apply Forall2_app; [exact Hw|].
    clear -Hemb. induction Hemb as [|v cm rows entries [Ht Hv] _ IH];
      cbn [map]; constructor; [|exact IH].
    exists (fst cm). split; [apply dict_get_set_same|]. split; [|exact Hv].
    unfold blank. now rewrite Ht.
Qed.

(** X16. From a start on an empty disk, whatever the calls, every record of
    the store keeps a [chunk_text] that is not blank, and the row at the same
    position in the index is the normalised embedding of that text. *)
Theorem stored_chunks_are_never_blank (dimension : Z) (calls : list call) :
  filed (embed_store (perform_all calls (fresh_world dimension))).
Proof.
  assert (Hgen : forall w, filed (embed_store w) ->
                           filed (embed_store (perform_all calls w))).
  { induction calls as [|c calls IH]; intros w Hw; [exact Hw|].
    cbn [perform_all]. apply IH. now apply perform_filed. }
  apply Hgen. constructor.
Qed.

(** *** Searching *)

Lemma collect_hit_scored (ms : list metadata) (hit : float * Z) r :
  In r (collect_hit ms hit) ->
  exists m, In m ms /\ r = dict_set m SCORE (PFloat (fst hit)).
Proof.
  destruct hit as [dist idx]. unfold collect_hit.
  destruct (_ || _)%bool; [contradiction|].
  destruct (nth_error ms (Z.to_nat idx)) as [m|] eqn:E; [|contradiction].
  intros [<-|[]]. exists m. split; [|reflexivity]. exact (nth_error_In _ _ E).
Qed.

(** A label the result loop keeps: one that falls inside the records. *)
Definition labelled (ms : list metadata) (hit : float * Z) : bool :=
  ((0 <=? snd hit) && (snd hit <? len ms))%bool.

(** The result made of a hit: a copy of the record at the hit's label, with
    the hit's distance put under [score]. *)
Definition scored (ms : list metadata) (r : metadata) (hit : float * Z) : Prop :=
  exists m, nth_error ms (Z.to_nat (snd hit)) = Some m
            /\ r = dict_set m SCORE (PFloat (fst hit)).

Lemma collect_hits_scored (ms : list metadata) (hits : list (float * Z)) :
  Forall2 (scored ms) (flat_map (collect_hit ms) hits)
    (filter (labelled ms) hits).
Proof.
  induction hits as [|[dist idx] hits IH]; [constructor|].
  cbn [flat_map filter]. unfold collect_hit at 1, labelled at 1. cbn [fst snd].
  destruct (idx <? 0) eqn:Elo.
  - apply Z.ltb_lt in Elo.
    assert (Hlo : (0 <=? idx) = false) by (apply Z.leb_gt; lia).
    rewrite Hlo. cbn [orb andb app]. exact IH.
  - apply Z.ltb_ge in Elo.
    assert (Hlo : (0 <=? idx) = true) by (apply Z.leb_le; lia).
    rewrite Hlo. cbn [orb andb]. rewrite Z.geb_leb.
    destruct (len ms <=? idx) eqn:Ehi.
    + apply Z.leb_le in Ehi.
      assert (Hhi : (idx <? len ms) = false) by (apply Z.ltb_ge; lia).
      rewrite Hhi. cbn [app]. exact IH.
    + apply Z.leb_gt in Ehi.
      assert (Hhi : (idx <? len ms) = true) by (apply Z.ltb_lt; lia).
      rewrite Hhi.
      destruct (nth_error ms (Z.to_nat idx)) as [m|] eqn:E.
      * cbn [app]. constructor; [|exact IH]. exists m. split; [exact E|reflexivity].
      * apply nth_error_None in E. unfold len in Ehi. lia.
Qed.

(** X17. [search] never raises and changes nothing.  With a non-blank query
    and a positive [top_k] on a non-empty index of the model's width, the
    results are, in the order of the hits the index search returned for the
    normalised embedding of the query and [min(top_k, ntotal)], one per hit
    whose label falls inside the records: a copy of the record at that label
    with that hit's distance put under [score].  Without an index, on an empty
    one, on one of another width, with a blank query or with a [top_k] that is
    not positive the result is the empty list. *)
Theorem search_returns_scored_copies query top_k (w : World) :
  exists results,
    search query top_k w = (Returned results, w)
    /\ Forall (fun r => exists m dist,
                  In m (meta (embed_store w))
                  /\ r = dict_set m SCORE (PFloat dist))
         results
    /\ (top_k <= 0 -> results = [])
    /\ (forall ix,
          index (embed_store w) = Some ix -> ntotal ix <> 0 ->
          blank query = false -> model_dim = d ix -> 0 < top_k ->
          Forall2 (scored (meta (embed_store w))) results
            (filter (labelled (meta (embed_store w)))
               (index_search (d ix) (xb ix) (_normalize (encode query))
                  (Z.min top_k (ntotal ix)))))
    /\ (index (embed_store w) = None
        \/ (exists ix, index (embed_store w) = Some ix
                       /\ (ntotal ix = 0 \/ model_dim <> d ix))
        \/ blank query = true ->
        results = []).
Proof.
  unfold search, bind, get_store, ret. cbn [fst snd].
  destruct (index (embed_store w)) as [ix|] eqn:Hix.
  2:{ exists []. repeat split; try constructor. intros ix' Hix'. discriminate. }
  destruct (ntotal ix =? 0) eqn:En.
  { apply Z.eqb_eq in En. exists []. repeat split; try constructor.
    intros ix' Hix' Hn. injection Hix' as <-. contradiction. }
  destruct (blank query) eqn:Eb.
  { exists []. repeat split; try constructor. intros ix' _ _ Hb. discriminate. }
  destruct (model_dim =? d ix) eqn:Ed; cbn [andb].
  2:{ apply Z.eqb_neq in Ed. exists []. repeat split; try constructor.
      intros ix' Hix' _ _ Hd. injection Hix' as <-. contradiction. }
  destruct (0 <? Z.min top_k (ntotal ix)) eqn:Ek.
  2:{ apply Z.ltb_ge in Ek. apply Z.eqb_neq in En.
      pose proof (len_nonneg (xb ix)) as Hlen. unfold ntotal in *.
      exists []. repeat split; try constructor. intros ix' _ _ _ _ Hk. lia. }
  eexists. split; [reflexivity|]. split; [|split; [|split]].
  - apply Forall_forall. intros r Hr. apply in_flat_map in Hr.
    destruct Hr as [hit [_ Hr]].
    destruct (collect_hit_scored _ _ _ Hr) as [m [Hm ->]]. now exists m, (fst hit).
  - intros Hk. apply Z.ltb_lt in Ek. lia.
  - intros ix' Hix' _ _ _ _. injection Hix' as <-. apply collect_hits_scored.
  - apply Z.eqb_neq in En. apply Z.eqb_eq in Ed.
    intros [Hnone|[[ix' [Hix' [Hn|Hd]]]|Hb]]; try discriminate;
      injection Hix' as <-; contradiction.
Qed.

End CallCases.

(** *** A store of another width than the model's *)

Lemma refused_rows_change_nothing_witness :
  let w := @fresh_world toy_backend 3 in
  let call := Add (lit "a first chunk of text") (page_record 1) in
  fst (@perform toy_backend exact_arith reliable_disk call w) = Raised AssertionError
  /\ meta (embed_store (snd (@perform toy_backend exact_arith reliable_disk call w))) = [].
Proof.
  intros w call.
  assert (Hrun : fst (@perform toy_backend exact_arith reliable_disk call w)
                 = Raised AssertionError) by (vm_compute; reflexivity).
  split; [exact Hrun|].
  destruct (@refused_rows_change_nothing toy_backend exact_arith reliable_disk call w
              AssertionError Hrun) as [_ [_ [_ [Hmeta _]]]].
  rewrite Hmeta. reflexivity.
Defined.

(** *** Starting over *)

Lemma restart_loses_nothing_witness :
  let call := Add (lit "a first chunk of text") (page_record 1) in
  let w' := snd (@perform toy_backend exact_arith reliable_disk call
                   (@fresh_world toy_backend 2)) in
  len (meta (embed_store w')) = 1
  /\ embed_store (snd (@__init__ toy_backend 2 w')) = embed_store w'.
Proof.
  intros call w'. split; [reflexivity|].
  apply (@restart_loses_nothing toy_backend exact_arith reliable_disk 2 []
           call).
  - vm_compute. discriminate.
  - intros ws _. split; reflexivity.
Defined.

(** *** A search after one chunk *)

Lemma search_returns_scored_copies_witness :
  let call := Add (lit "a first chunk of text") (page_record 1) in
  let w := snd (@perform toy_backend exact_arith reliable_disk call
                  (@fresh_world toy_backend 2)) in
  fst (@search toy_backend (lit "chunk") 6 w)
  = Returned [[(lit "page", PInt 1);
               (CHUNK_TEXT, PStr (lit "a first chunk of text"));
               (SCORE, PFloat 1%float)]].
Proof.
  intros call w.
  destruct (@search_returns_scored_copies toy_backend (lit "chunk") 6 w)
    as [results [Hrun [_ [_ [Hhits _]]]]].
  rewrite Hrun. cbn [fst]. f_equal.
  specialize (Hhits (@mkIndex toy_backend 2 ([[21; 1]] : list (list Z)))
                eq_refl).
  assert (Hn : @ntotal toy_backend
                 (@mkIndex toy_backend 2 ([[21; 1]] : list (list Z))) <> 0)
    by (vm_compute; discriminate).
  specialize (Hhits Hn eq_refl eq_refl eq_refl).
  vm_compute in Hhits.
  inversion Hhits as [|r hit rs hs [m [Hm ->]] Hrest]; subst.
  inversion Hrest; subst. injection Hm as <-. reflexivity.
Defined.

(** On a disk that tears the records file the same call stores the chunk in
    memory, and starting over finds an empty store. *)
Example torn_records_reset_the_store :
  let call := Add (lit "a first chunk of text") (page_record 1) in
  let w' := snd (@perform toy_backend exact_arith tearing_disk call
                   (@fresh_world toy_backend 2)) in
  fst (@perform toy_backend exact_arith tearing_disk call
         (@fresh_world toy_backend 2)) = Returned tt
  /\ len (meta (embed_store w')) = 1
  /\ META_FILE w' = Corrupt
  /\ meta (embed_store (snd (@__init__ toy_backend 2 w'))) = []
  /\ total_chunks (embed_store (snd (@__init__ toy_backend 2 w'))) = 0.
Proof. vm_compute. repeat split; reflexivity. Qed.

End StoreCalls.

(** ** More on ingestion *)

Module IngestRuns.
Import Py PyFacts Progress TextUtils EmbedStoreModel EmbedStoreFacts.
Import IngestModel ImageModel ChunkerProps ExtractionProps StoreCalls.
Local Open Scope py_scope.

Section RunProps.
Context `{PyLib} `{Backend} `{FloatArith} `{Disk World}.

(** *** What extraction leaves alone *)

(** [m] changes nothing but the progress log. *)
Definition frame {A} (m : M World A) : Prop :=
  forall w, quiet w (snd (m w)).

Lemma frame_ret {A} (a : A) : frame (ret a).
Proof. intros w. apply quiet_refl. Qed.

Lemma frame_lift {A} (o : outcome A) : frame (lift o).
Proof. intros w. apply quiet_refl. Qed.

Lemma frame_report cb p msg : frame (report cb p msg).
Proof. intros w. apply report_quiet. Qed.

Lemma frame_bind {A B} (m : M World A) (f : A -> M World B) :
  frame m -> (forall a, frame (f a)) -> frame (bind m f).
Proof.
  intros Hm Hf w. unfold bind. specialize (Hm w).
  destruct (m w) as [[a|e] w1]; cbn [snd] in *; [|exact Hm].
  exact (quiet_trans Hm (Hf a w1)).
Qed.

Lemma frame_try_except {A} (m : M World A) (h : exn -> M World A) :
  frame m -> (forall e, frame (h e)) -> frame (try_except m h).
Proof.
  intros Hm Hh w. unfold try_except. specialize (Hm w).
  destruct (m w) as [[a|e] w1]; cbn [snd] in *; [exact Hm|].
  exact (quiet_trans Hm (Hh e w1)).
Qed.

Lemma frame_extract_pages cb total pages :
  forall pno pages_text page_images,
    frame (extract_pages cb total pno pages pages_text page_images).
Proof.
  induction pages as [|page rest IH]; intros pno pt pi; cbn [extract_pages].
  - apply frame_ret.
  - apply frame_bind; [apply frame_report|]. intros _.
    destruct (blank (page_text page)); [|apply IH].
    apply frame_bind; [apply frame_report|]. intros _.
    apply frame_bind; [apply frame_lift|]. intros text. apply IH.
Qed.

Lemma frame_chunk_pages cb max_chars total pages_text :
  forall idx all_chunks parts,
    frame (chunk_pages cb max_chars total idx pages_text all_chunks parts).
Proof.
  induction pages_text as [|[text page_num] rest IH];
    intros idx all_chunks parts; cbn [chunk_pages].
  - apply frame_ret.
  - apply frame_bind.
    { destruct (truthy (clean_text text)); [|apply frame_ret].
      apply frame_bind; [apply frame_lift | intros; apply frame_ret]. }
    intros acc. apply frame_bind; [|intros _; apply IH].
    destruct (cb && _)%bool; [apply frame_report | apply frame_ret].
Qed.

Lemma frame_extract path max_chars cb :
  frame (extract_and_chunk_pdf path max_chars cb).
Proof.
  unfold extract_and_chunk_pdf.
  apply frame_try_except; [|intros; apply frame_ret].
  apply frame_bind; [apply frame_lift|]. intros doc.
  apply frame_bind; [apply frame_extract_pages|]. intros extracted.
  apply frame_bind; [apply frame_report|]. intros _.
  apply frame_bind; [apply frame_chunk_pages | intros; apply frame_ret].
Qed.

(** *** A batch without blank chunks *)

Lemma combine_fst_map {A B C} (f : A -> B) (g : A -> C) (l : list A) :
  combine (map f l) (map g l) = map (fun a => (f a, g a)) l.
Proof. induction l as [|a l IH]; cbn; [reflexivity | now rewrite IH]. Qed.

Lemma filter_all {A} (f : A -> bool) (l : list A) :
  Forall (fun a => f a = true) l -> filter f l = l.
Proof.
  induction 1 as [|a l Ha _ IH]; cbn; [reflexivity|]. now rewrite Ha, IH.
Qed.

(** A chunk the chunker lets through is not blank. *)
Lemma long_trimmed_has_text (c : str) :
  MIN_CHUNK_CHARS <= len c -> strip c = c -> has_text c = true.
Proof.
  intros Hlen Hs. unfold has_text. rewrite Hs.
  destruct c; [cbn in Hlen; unfold MIN_CHUNK_CHARS in Hlen; lia | reflexivity].
Qed.

(** [add_batch] on tagged chunks none of which is blank, each with the
    metadata [md] makes of its tag, on an index of the model's width. *)
Lemma add_batch_tagged (tagged : list (str * Z)) (md : Z -> metadata) cb
    (w : World) :
  tagged <> [] ->
  Forall (fun cp => has_text (fst cp) = true) tagged ->
  model_dim = d (index_in_use (embed_store w)) ->
  exists w',
    add_batch (map fst tagged) (map (fun cp => md (snd cp)) tagged) cb w
    = (Returned tt, w')
    /\ embed_store w'
       = grown (embed_store w)
           (map (fun cp => normalize_row (encode (fst cp))) tagged)
           (map (fun cp => dict_set (md (snd cp)) CHUNK_TEXT (PStr (fst cp)))
              tagged)
    /\ page_image_dirs w' = page_image_dirs w
    /\ exists ws,
         embed_store ws = embed_store w'
         /\ VEC_FILE w' = VEC_FILE (snd (_save ws))
         /\ META_FILE w' = META_FILE (snd (_save ws)).
Proof.
  intros Hne Hall Hdim.
  set (chunks := map fst tagged). set (metas := map (fun cp => md (snd cp)) tagged).
  assert (Hvalid : valid_entries chunks metas
                   = map (fun cp => (fst cp, md (snd cp))) tagged).
  { unfold valid_entries, chunks, metas. rewrite combine_fst_map.
    apply filter_all. apply Forall_forall. intros cm Hin.
    apply in_map_iff in Hin. destruct Hin as [cp [<- Hcp]]. cbn [fst].
    rewrite Forall_forall in Hall. now apply Hall. }
  assert (Href : batch_refused chunks metas = false).
  { unfold batch_refused, chunks, metas. rewrite !len_map, Z.eqb_refl.
    destruct tagged; [contradiction | reflexivity]. }
  destruct (@add_batch_run _ _ _ chunks metas cb w Href) as [w4 [Hq Hrun]].
  { rewrite Hvalid. destruct tagged; [contradiction | discriminate]. }
  rewrite Hrun, <- Hdim, Z.eqb_refl, Hvalid, !map_map. cbn [fst snd].
  set (g := grown (embed_store w)
              (map (fun cp => normalize_row (encode (fst cp))) tagged)
              (map (fun cp => dict_set (md (snd cp)) CHUNK_TEXT (PStr (fst cp)))
                 tagged)).
  set (ws := snd (report cb 90 SavingIndex (with_store w4 g))).
  assert (Hws : embed_store ws = g /\ page_image_dirs ws = page_image_dirs w).
  { destruct Hq as [_ [_ [_ Hd]]]. subst ws. unfold report.
    destruct cb; cbn; split; congruence. }
  exists (snd (_save ws)). split; [reflexivity|].
  destruct (save_frame ws) as [_ [Hst [Hd _]]]. rewrite Hst, Hd.
  split; [apply Hws|]. split; [apply Hws|].
  exists ws. repeat split.
Qed.

(** *** A run that stores *)

Lemma ingest_returns book_id path book_title cb (w : World) full tagged previews :
  fst (extract_and_chunk_pdf path 800 cb (snd (report cb 10 ExtractingText w)))
  = Returned (full, tagged, previews) ->
  tagged <> [] ->
  Forall (fun cp => has_text (fst cp) = true) tagged ->
  model_dim = d (index_in_use (embed_store w)) ->
  exists w',
    ingest_pdf book_id path book_title cb w = (Returned book_id, w')
    /\ embed_store w'
       = grown (embed_store w)
           (map (fun cp => normalize_row (encode (fst cp))) tagged)
           (map (fun cp => dict_set (chunk_metadata book_id book_title path (snd cp))
                             CHUNK_TEXT (PStr (fst cp)))
              tagged)
    /\ page_image_dirs w'
       = page_image_dirs w
         ++ match previews with [] => [] | _ :: _ => [(book_id, len previews)] end
    /\ exists ws,
         embed_store ws = embed_store w'
         /\ VEC_FILE w' = VEC_FILE (snd (_save ws))
         /\ META_FILE w' = META_FILE (snd (_save ws)).
Proof.
  intros Hext Hne Hall Hdim.
  unfold report at 1 in Hext. cbn [snd] in Hext.
  unfold ingest_pdf. unfold bind at 1. unfold report at 1.
  set (w1 := if cb then deliver 10 ExtractingText w else w) in *.
  assert (Hq1 : quiet w w1) by (subst w1; destruct cb; repeat split).
  pose proof (frame_extract path 800 cb w1) as Hq2.
  unfold bind at 1.
  destruct (extract_and_chunk_pdf path 800 cb w1) as [[extracted|e] w2];
    cbn [fst snd] in *; [|discriminate].
  injection Hext as ->. cbn [fst snd].
  destruct tagged as [|cp0 rest] eqn:Etag; [contradiction|]. rewrite <- Etag in *.
  unfold bind at 1. unfold report at 1.
  unfold bind at 1. unfold report at 1.
  set (w4 := if cb then deliver 60 _ _ else _).
  assert (Hq4 : quiet w w4).
  { apply (quiet_trans Hq1), (quiet_trans Hq2).
    subst w4. destruct cb; repeat split. }
  destruct (@add_batch_tagged tagged
              (chunk_metadata book_id book_title path) cb w4)
    as [w5 [Hrun [Hs [Hd [ws [Hws [Hv Hm]]]]]]];
    [rewrite Etag; discriminate | exact Hall | destruct Hq4 as [-> _]; exact Hdim|].
  unfold bind at 1. rewrite Hrun.
  unfold bind at 1. unfold report at 1.
  unfold bind at 1. unfold report at 1.
  unfold bind at 1.
  destruct Hq4 as [Hs4 [_ [_ Hd4]]].
  rewrite Hs4 in Hs. rewrite Hd4 in Hd.
  destruct previews as [|pv pvs]; destruct cb;
    unfold _save_page_images, bind, report, ret; cbn [fst snd];
    (eexists; split; [reflexivity|]);
    cbn [embed_store VEC_FILE META_FILE page_image_dirs deliver world_reporter];
    rewrite ?app_nil_r; (split; [exact Hs|]); (split; [congruence|]);
    exists ws; repeat split; assumption.
Qed.

Lemma len_numbered {A} (items : list A) :
  forall pno, len (numbered pno items) = len items.
Proof.
  induction items as [|a items IH]; intros pno; [reflexivity|].
  cbn [numbered]. rewrite !len_cons. now rewrite IH.
Qed.


(** *** A run that fails *)

Lemma extract_returns path cb (w : World) :
  exists extracted w2,
    extract_and_chunk_pdf path 800 cb w = (Returned extracted, w2)
    /\ quiet w w2
    /\ (cb = false -> snd extracted = []).
Proof.
  pose proof (frame_extract path 800 cb w) as Hq.
  assert (Hmax : 0 < 800) by lia.
  destruct (extract_cases path cb w Hmax) as [[doc [texts [_ [_ Hr]]]]|Hr];
    destruct (extract_and_chunk_pdf path 800 cb w) as [[extracted|e] w2];
    cbn [fst snd] in *; try discriminate; injection Hr as ->;
    eexists _, w2; (split; [reflexivity|]); (split; [exact Hq|]);
    intros ->; reflexivity.
Qed.

(** What stays when an ingestion raises. *)
Definition untouched (w w' : World) : Prop :=
  vectors (embed_store w') = vectors (embed_store w)
  /\ meta (embed_store w') = meta (embed_store w)
  /\ VEC_FILE w' = VEC_FILE w
  /\ META_FILE w' = META_FILE w
  /\ page_image_dirs w' = page_image_dirs w.

Lemma quiet_untouched (w w' : World) : quiet w w' -> untouched w w'.
Proof. intros [Hs [Hv [Hm Hd]]]. unfold untouched. now rewrite Hs. Qed.

(** [add_batch] either returns or raises [AssertionError] and leaves the
    store untouched. *)
Lemma add_batch_outcome chunks metadata_list cb (w : World) :
  (exists w', add_batch chunks metadata_list cb w = (Returned tt, w'))
  \/ (exists w', add_batch chunks metadata_list cb w = (Raised AssertionError, w')
                 /\ untouched w w').
Proof.
  pose proof (perform_cases (AddBatch chunks metadata_list cb) w) as Hc.
  cbn [perform] in Hc.
  destruct (add_batch chunks metadata_list cb w) as [[[]|e] w'];
    cbn [fst snd] in Hc; [left; eauto|].
  right.
  destruct Hc as [[Hr _] | [[Hr [_ [w4 [Hq ->]]]] | [Hr _]]]; try discriminate.
  injection Hr as ->. eexists. split; [reflexivity|].
  destruct Hq as [Hs [Hv [Hm Hd]]].
  destruct (vectors_after_refusal w4 Hs) as [Ha [Hb _]].
  destruct (files_after_refusal (embed_store w) w4) as [Hc [He Hf]].
  unfold untouched. repeat split; congruence.
Qed.

Lemma untouched_trans (w1 w2 w3 : World) :
  untouched w1 w2 -> untouched w2 w3 -> untouched w1 w3.
Proof.
  unfold untouched. intros [A1 [A2 [A3 [A4 A5]]]] [B1 [B2 [B3 [B4 B5]]]].
  repeat split; congruence.
Qed.

Lemma ingest_outcomes book_id path book_title cb (w : World) o w' :
  ingest_pdf book_id path book_title cb w = (o, w') ->
  o = Returned book_id
  \/ ((o = Raised (ValueError "No text extracted from PDF.")
       \/ o = Raised AssertionError)
      /\ untouched w w').
Proof.
  unfold ingest_pdf. unfold bind at 1. unfold report at 1.
  set (w1 := if cb then deliver 10 ExtractingText w else w).
  assert (Hq1 : quiet w w1) by (subst w1; destruct cb; repeat split).
  unfold bind at 1.
  destruct (extract_returns path cb w1) as [extracted [w2 [-> [Hq2 _]]]].
  pose proof (quiet_trans Hq1 Hq2) as Hq.
  destruct (snd (fst extracted)) as [|cp0 rest].
  { unfold raise. intros E. injection E as <- <-. right.
    split; [now left | now apply quiet_untouched]. }
  set (tagged := cp0 :: rest).
  unfold bind at 1. unfold report at 1.
  unfold bind at 1. unfold report at 1.
  set (w4 := if cb then deliver 60 _ _ else _).
  assert (Hq4 : quiet w w4).
  { apply (quiet_trans Hq). subst w4. destruct cb; repeat split. }
  unfold bind at 1.
  destruct (add_batch_outcome (map fst tagged)
              (map (fun cp => chunk_metadata book_id book_title path (snd cp))
                 tagged) cb w4) as [[w5 ->] | [w5 [-> Hu]]].
  - intros E. left.
    destruct (snd extracted); destruct cb;
      unfold _save_page_images, bind, report, ret in E; cbn [fst snd] in E;
      now injection E as <- _.
  - intros E. injection E as <- <-. right. split; [now right|].
    exact (untouched_trans (quiet_untouched Hq4) Hu).
Qed.



(** *** Images *)

(** The two ways [extract_and_chunk_image] can go: nothing, or the cleaned
    text with its chunks on page 1 and the image as the one preview. *)
Lemma image_cases {S : Type} (path : ImageFile) max_chars (s : S) :
  extract_and_chunk_image path max_chars s = (Returned ([], [], []), s)
  \/ exists img text chunks bytes,
       opened path = Returned img
       /\ image_to_string img = Returned text
       /\ truthy (clean_text text) = true
       /\ _chunk_text (clean_text text) max_chars = Returned chunks
       /\ image_png img = Returned bytes
       /\ extract_and_chunk_image path max_chars s
          = (Returned (clean_text text, map (fun c => (c, 1)) chunks,
                       [(1, bytes)]), s).
Proof.
  unfold extract_and_chunk_image, try_except, bind, lift, ret.
  destruct (opened path) as [img|e] eqn:Eo; [|now left].
  destruct (image_to_string img) as [text|e] eqn:Es; [|now left].
  destruct (truthy (clean_text text)) eqn:Et; cbn [negb]; [|now left].
  destruct (_chunk_text (clean_text text) max_chars) as [chunks|e] eqn:Ec;
    [|now left].
  destruct (image_png img) as [bytes|e] eqn:Eb; [|now left].
  right. exists img, text, chunks, bytes. repeat split; assumption || reflexivity.
Qed.

Lemma image_chunks_tag max_chars text chunks :
  truthy (clean_text text) = true ->
  _chunk_text (clean_text text) max_chars = Returned chunks ->
  Forall (fun cp => snd cp = 1 /\ MIN_CHUNK_CHARS <= len (fst cp)
                    /\ strip (fst cp) = fst cp)
    (map (fun c => (c, 1)) chunks).
Proof.
  intros Ht Hc. apply Forall_forall. intros [c p] Hin. cbn [fst snd].
  apply (page_chunks_tag max_chars text 1). unfold page_chunks.
  now rewrite Ht, Hc.
Qed.

(** X20. [extract_and_chunk_image] always returns and changes nothing.
    Every chunk is tagged page 1, trimmed and at least 50 characters long;
    there is at most one preview, for page 1, and there is one whenever there
    is a chunk. *)
Theorem image_text_is_page_one {S : Type} (path : ImageFile) max_chars (s : S) :
  exists full_text tagged previews,
    extract_and_chunk_image path max_chars s
    = (Returned (full_text, tagged, previews), s)
    /\ Forall (fun cp => snd cp = 1 /\ MIN_CHUNK_CHARS <= len (fst cp)
                         /\ strip (fst cp) = fst cp)
         tagged
    /\ (previews = [] \/ exists bytes, previews = [(1, bytes)])
    /\ (tagged <> [] -> previews <> []).
Proof.
  destruct (image_cases path max_chars s)
    as [-> | [img [text [chunks [bytes [_ [_ [Ht [Hc [_ ->]]]]]]]]]].
  - exists [], [], []. split; [reflexivity|]. split; [constructor|].
    split; [now left | intros Hne; now contradiction Hne].
  - eexists _, _, _. split; [reflexivity|].
    split; [exact (image_chunks_tag _ _ Ht Hc)|].
    split; [right; now exists bytes | discriminate].
Qed.

Lemma chunk_text_of_blank (text : str) max_chars chunks :
  _chunk_text text max_chars = Returned chunks -> chunks <> [] ->
  truthy text = true.
Proof.
  destruct text; [|reflexivity]. cbn. intros E. now injection E as <-.
Qed.

Lemma ingest_image_returns book_id path book_title (w : World) img text chunks
    bytes :
  opened path = Returned img ->
  image_to_string img = Returned text ->
  _chunk_text (clean_text text) 800 = Returned chunks ->
  chunks <> [] ->
  image_png img = Returned bytes ->
  model_dim = d (index_in_use (embed_store w)) ->
  exists w',
    ingest_image book_id path book_title w = (Returned book_id, w')
    /\ embed_store w'
       = grown (embed_store w)
           (map (fun c => normalize_row (encode c)) chunks)
           (map (fun c => dict_set (image_metadata book_id book_title path 1)
                            CHUNK_TEXT (PStr c))
              chunks)
    /\ page_image_dirs w' = page_image_dirs w ++ [(book_id, 1)]
    /\ exists ws,
         embed_store ws = embed_store w'
         /\ VEC_FILE w' = VEC_FILE (snd (_save ws))
         /\ META_FILE w' = META_FILE (snd (_save ws)).
Proof.
  intros Ho Hs Hc Hne Hb Hdim.
  pose proof (chunk_text_of_blank _ _ Hc Hne) as Ht.
  unfold ingest_image. unfold bind at 1.
  destruct (image_cases path 800 w)
    as [E | [img' [text' [chunks' [bytes' [Ho' [Hs' [_ [Hc' [Hb' ->]]]]]]]]]].
  { exfalso. revert E.
    unfold extract_and_chunk_image, try_except, bind, lift, ret.
    rewrite Ho, Hs, Ht, Hc, Hb. cbn [negb]. intros E. injection E as E _ _.
    now rewrite E in Ht. }
  assert (img' = img) by congruence. subst img'.
  assert (text' = text) by congruence. subst text'.
  assert (chunks' = chunks) by congruence. subst chunks'.
  assert (bytes' = bytes) by congruence. subst bytes'.
  cbn [fst snd].
  set (tagged := map (fun c => (c, 1)) chunks).
  assert (Htag : tagged <> [])
    by (subst tagged; destruct chunks; [contradiction | discriminate]).
  assert (Hall : Forall (fun cp => has_text (fst cp) = true) tagged).
  { apply Forall_impl with (2 := image_chunks_tag _ _ Ht Hc).
    intros cp [_ [Hlen Hst]]. now apply long_trimmed_has_text. }
  destruct (@add_batch_tagged tagged (image_metadata book_id book_title path)
              false w Htag Hall Hdim)
    as [w5 [Hrun [Hst [Hd [ws [Hws [Hv Hm]]]]]]].
  destruct tagged as [|cp0 rest] eqn:Etag; [contradiction|]. rewrite <- Etag in *.
  unfold bind at 1. rewrite Hrun.
  unfold _save_page_images, bind, ret. cbn [fst snd].
  eexists. split; [reflexivity|].
  cbn [embed_store VEC_FILE META_FILE page_image_dirs].
  subst tagged. rewrite !map_map in Hst. cbn [fst snd] in Hst.
  split; [exact Hst|]. split; [now rewrite Hd|].
  exists ws. repeat split; assumption.
Qed.


Lemma ingest_image_outcomes book_id path book_title (w : World) o w' :
  ingest_image book_id path book_title w = (o, w') ->
  o = Returned book_id
  \/ ((o = Raised (ValueError "No text extracted from image.")
       \/ o = Raised AssertionError)
      /\ untouched w w').
Proof.
  unfold ingest_image. unfold bind at 1.
  assert (Hret : exists extracted,
             extract_and_chunk_image path 800 w = (Returned extracted, w)).
  { destruct (image_cases path 800 w) as [-> | [? [? [? [? [_ [_ [_ [_ [_ ->]]]]]]]]]];
      eauto. }
  destruct Hret as [extracted ->].
  destruct (snd (fst extracted)) as [|cp0 rest].
  { unfold raise. intros E. injection E as <- <-. right.
    split; [now left | apply quiet_untouched, quiet_refl]. }
  set (tagged := cp0 :: rest).
  unfold bind at 1.
  destruct (add_batch_outcome (map fst tagged)
              (map (fun cp => image_metadata book_id book_title path (snd cp))
                 tagged) false w) as [[w5 ->] | [w5 [-> Hu]]].
  - intros E. left.
    destruct (snd extracted);
      unfold _save_page_images, bind, ret in E; cbn [fst snd] in E;
      now injection E as <- _.
  - intros E. injection E as <- <-. right. split; [now right | exact Hu].
Qed.


End RunProps.

(** *** Concrete runs *)

(** A picture of a page, and one on which OCR finds a few letters only. *)
Definition cover_image : ImageFile :=
  {| image_name := lit "cover.png";
     image_stem := lit "cover";
     opened :=
       Returned
         {| image_to_string :=
              Returned (lit "The cover of the book carries a title of more than fifty characters.");
            image_png := Returned [137; 80; 78; 71] |} |}.

Definition smudge_image : ImageFile :=
  {| image_name := lit "smudge.png";
     image_stem := lit "smudge";
     opened :=
       Returned
         {| image_to_string := Returned (lit "a few letters");
            image_png := Returned [137; 80; 78; 71] |} |}.





(** The smudge is too short for a chunk, yet it is kept as a preview. *)
Example image_preview_without_chunks :
  @extract_and_chunk_image TextUtilsFacts.ascii_lib unit smudge_image 800 tt
  = (Returned (lit "a few letters", [], [(1, [137; 80; 78; 71])]), tt).
Proof. vm_compute. reflexivity. Qed.

End IngestRuns.
